(** * epubtrad: the chunked translation pipeline and its job queue

    A shallow embedding of the translation helpers of [main.py]
    ([traducir_texto_google], [traducir_texto_engine], [traducir_con_cache],
    [MockRedis], [check_rate_limit]) and of the queue of
    [plugins/queue_plugin.py] ([QueueItem], [add_to_queue], [process_queue],
    [cancel_item], [load_queue]), with the properties of the specification
    stated against them. *)

From Stdlib Require Import ZArith List Lia Bool Ascii String QArith Sorted.
From stdpp Require Import gmap strings list.

Local Open Scope Z_scope.

(** ** Python values *)

(** A Python [str] is a sequence of Unicode code points. *)
Definition pystr := list N.

(** A literal of the source, from its ASCII spelling. *)
Fixpoint lit (s : string) : pystr :=
  match s with
  | EmptyString => []
  | String a s' => N_of_ascii a :: lit s'
  end.

(** [len(s)], a Python integer. *)
Definition len {A} (s : list A) : Z := Z.of_nat (length s).

(** Truthiness of a sequence: [if s:]. *)
Definition truthy {A} (s : list A) : bool :=
  match s with [] => false | _ :: _ => true end.

(** [c.isspace()] on one code point: the characters [str.strip()] removes. *)
Definition py_isspace (c : N) : bool :=
  ((9 <=? c) && (c <=? 13) || (28 <=? c) && (c <=? 32) || (c =? 133) || (c =? 160)
   || (c =? 5760) || (8192 <=? c) && (c <=? 8202) || (c =? 8232) || (c =? 8233)
   || (c =? 8239) || (c =? 8287) || (c =? 12288))%N.

Fixpoint lstrip (s : pystr) : pystr :=
  match s with
  | [] => []
  | c :: s' => if py_isspace c then lstrip s' else s
  end.

Definition rstrip (s : pystr) : pystr := rev (lstrip (rev s)).

(** [s.strip()] *)
Definition strip (s : pystr) : pystr := rstrip (lstrip s).

(** [s[i:j]] for [0 <= i <= j]; both ends are clamped to [len(s)]. *)
Definition slice {A} (s : list A) (i j : Z) : list A :=
  firstn (Z.to_nat (j - i)) (skipn (Z.to_nat i) s).

(** [range(0, stop, step)] for a positive [step]. *)
Definition range0 (stop step : Z) : list Z :=
  map (fun k => Z.of_nat k * step) (seq 0 (Z.to_nat ((stop + step - 1) / step))).

(** [s.split('. ')]: the pieces between the occurrences of the two-character
    separator, found from the left without overlap. *)
Definition cons_head (c : N) (l : list pystr) : list pystr :=
  match l with
  | [] => [[c]]
  | h :: t => (c :: h) :: t
  end.

Fixpoint split_dot_space (s : pystr) : list pystr :=
  match s with
  | [] => [[]]
  | c :: s' =>
      match s' with
      | [] => [[c]]
      | d :: s'' =>
          if ((c =? 46) && (d =? 32))%N then [] :: split_dot_space s''
          else cons_head c (split_dot_space s')
      end
  end.

(** ** Exceptions

    A computation that may raise returns [Raise]; [try: body except Exception:
    handler] is [try_except body handler]. *)

Inductive exc (A : Type) : Type :=
  | Return (a : A)
  | Raise.
Arguments Return {A} a.
Arguments Raise {A}.

#[global] Instance exc_ret : MRet exc := fun A a => Return a.
#[global] Instance exc_bind : MBind exc :=
  fun A B f m => match m with Return a => f a | Raise => Raise end.

Definition try_except {A} (body handler : exc A) : exc A :=
  match body with
  | Return a => Return a
  | Raise => handler
  end.

(** ** [str.encode()] and [bytes.decode('utf-8')]

    A [bytes] object is the list of its byte values. Encoding raises
    [UnicodeEncodeError] on a surrogate; strict decoding raises
    [UnicodeDecodeError] on an ill-formed sequence. *)

Definition pybytes := list N.

Definition utf8_char (c : N) : exc pybytes :=
  (if c <? 128 then Return [c]
   else if c <? 2048 then Return [192 + c / 64; 128 + c mod 64]
   else if c <? 65536 then
     if (55296 <=? c) && (c <=? 57343) then Raise
     else Return [224 + c / 4096; 128 + (c / 64) mod 64; 128 + c mod 64]
   else if c <? 1114112 then
     Return [240 + c / 262144; 128 + (c / 4096) mod 64;
             128 + (c / 64) mod 64; 128 + c mod 64]
   else Raise)%N.

Fixpoint encode (s : pystr) : exc pybytes :=
  match s with
  | [] => Return []
  | c :: s' => b ← utf8_char c; r ← encode s'; Return (b ++ r)
  end.

Definition is_cont (b : N) : bool := ((128 <=? b) && (b <=? 191))%N.

Fixpoint decode (bs : pybytes) : exc pystr :=
  match bs with
  | [] => Return []
  | b0 :: r0 =>
    if (b0 <? 128)%N then s ← decode r0; Return (b0 :: s)
    else if ((192 <=? b0) && (b0 <? 224))%N then
      match r0 with
      | b1 :: r1 =>
          let c := ((b0 - 192) * 64 + (b1 - 128))%N in
          if is_cont b1 && (128 <=? c)%N then s ← decode r1; Return (c :: s)
          else Raise
      | _ => Raise
      end
    else if ((224 <=? b0) && (b0 <? 240))%N then
      match r0 with
      | b1 :: b2 :: r2 =>
          let c := ((b0 - 224) * 4096 + (b1 - 128) * 64 + (b2 - 128))%N in
          if is_cont b1 && is_cont b2 && (2048 <=? c)%N
             && negb ((55296 <=? c) && (c <=? 57343))%N
          then s ← decode r2; Return (c :: s)
          else Raise
      | _ => Raise
      end
    else if ((240 <=? b0) && (b0 <? 248))%N then
      match r0 with
      | b1 :: b2 :: b3 :: r3 =>
          let c := ((b0 - 240) * 262144 + (b1 - 128) * 4096
                    + (b2 - 128) * 64 + (b3 - 128))%N in
          if is_cont b1 && is_cont b2 && is_cont b3
             && (65536 <=? c)%N && (c <? 1114112)%N
          then s ← decode r3; Return (c :: s)
          else Raise
      | _ => Raise
      end
    else Raise
  end.

(** ** The splitter of [traducir_texto_google] *)

Module Splitter.

(** The [for sentence in sentences] loop, with its two variables. *)
Fixpoint sentence_loop (sentences : list pystr) (chunks : list pystr)
    (current_chunk : pystr) : list pystr * pystr :=
  match sentences with
  | [] => (chunks, current_chunk)
  | sentence :: rest =>
      let sentence := sentence ++ lit ". " in
      if 3000 <? len (current_chunk ++ sentence) then
        sentence_loop rest
          (if truthy current_chunk then chunks ++ [strip current_chunk] else chunks)
          sentence
      else sentence_loop rest chunks (current_chunk ++ sentence)
  end.

(** [chunks] after the loop and the closing [if current_chunk:]. *)
Definition chunks (texto : pystr) : list pystr :=
  let '(chunks, current_chunk) := sentence_loop (split_dot_space texto) [] [] in
  if truthy current_chunk then chunks ++ [strip current_chunk] else chunks.

(** [[chunk[i:i+2500] for i in range(0, len(chunk), 2500)]] *)
Definition subchunks (chunk : pystr) : list pystr :=
  map (fun i => slice chunk i (i + 2500)) (range0 (len chunk) 2500).

(** The second loop: nothing longer than 5000 is kept whole. *)
Definition harden (chunk : pystr) : list pystr :=
  if 5000 <? len chunk then subchunks chunk else [chunk].

Definition final_chunks (texto : pystr) : list pystr :=
  flat_map harden (chunks texto).

(** The buffers the first loop closes, before [strip] is applied to them:
    the same loop with the raw [current_chunk] recorded. *)
Fixpoint buffer_loop (sentences : list pystr) (buffers : list pystr)
    (current_chunk : pystr) : list pystr * pystr :=
  match sentences with
  | [] => (buffers, current_chunk)
  | sentence :: rest =>
      let sentence := sentence ++ lit ". " in
      if 3000 <? len (current_chunk ++ sentence) then
        buffer_loop rest
          (if truthy current_chunk then buffers ++ [current_chunk] else buffers)
          sentence
      else buffer_loop rest buffers (current_chunk ++ sentence)
  end.

Definition buffers (texto : pystr) : list pystr :=
  let '(buffers, current_chunk) := buffer_loop (split_dot_space texto) [] [] in
  if truthy current_chunk then buffers ++ [current_chunk] else buffers.

End Splitter.

(** ** Translation through the engines *)

Module Translate.

(** What [GoogleTranslator(...).translate(chunk)] hands back when it does not
    raise: a [str], or a value that is not one. *)
Inductive pyval :=
  | PStr (s : pystr)
  | PNone.

(** [''.join(l)]: [TypeError] on an element that is not a [str]. *)
Fixpoint join (l : list pyval) : exc pystr :=
  match l with
  | [] => Return []
  | PStr s :: l' => r ← join l'; Return (s ++ r)
  | PNone :: _ => Raise
  end.

Section Engines.

(** The two engines are outside the repository: each call either returns
    or raises. [GoogleTranslator source target chunk] stands for
    [GoogleTranslator(source=source, target=target).translate(chunk)], and
    [deepl_translate key texto source target] for
    [str(deepl.Translator(key).translate_text(texto, source_lang=source.upper(),
    target_lang=target.upper()))]. *)
Variable GoogleTranslator : pystr -> pystr -> pystr -> exc pyval.
Variable deepl_translate : pystr -> pystr -> pystr -> pystr -> exc pystr.

(** [os.environ.get("DEEPL_API_KEY")] *)
Variable DEEPL_API_KEY : option pystr.

Definition key_truthy (k : option pystr) : bool :=
  match k with
  | Some s => truthy s
  | None => false
  end.

(** The per-chunk [try]: a chunk whose call raises is kept as it is. *)
Definition traducir_chunk (source target chunk : pystr) : pyval :=
  match GoogleTranslator source target chunk with
  | Return trad => trad
  | Raise => PStr chunk
  end.

Definition traducir_texto_google (texto source target : pystr) : exc pystr :=
  try_except
    (let final_chunks := Splitter.final_chunks texto in
     let traducciones := map (traducir_chunk source target) final_chunks in
     join traducciones)
    (Return texto).

Definition traducir_texto_engine (texto source target engine : pystr) : exc pystr :=
  try_except
    (if bool_decide (engine = lit "deepl") && key_truthy DEEPL_API_KEY then
       deepl_translate (default [] DEEPL_API_KEY) texto source target
     else traducir_texto_google texto source target)
    (if negb (bool_decide (engine = lit "google")) then
       traducir_texto_google texto source target
     else Return texto).

End Engines.

End Translate.

(** ** The translation cache *)

Module Cache.

(** [redis_client]: whatever offers [get] and [setex]. The wall clock is an
    argument of both, since a backing store may let entries expire. *)
Class RedisClient (S : Type) := {
  redis_get : Z -> S -> pystr -> exc (option pybytes);
  redis_setex : Z -> S -> pystr -> Z -> pystr -> exc S
}.

(** [class MockRedis]: [self.data] is a dictionary. *)
Record MockRedis := { data : gmap pystr pybytes }.

Definition MockRedis_init : MockRedis := {| data := ∅ |}.

Definition MockRedis_get (self : MockRedis) (key : pystr) : option pybytes :=
  data self !! key.

(** [self.data[key] = value.encode()]; the value handed in is a [str]. *)
Definition MockRedis_setex (self : MockRedis) (key : pystr) (time : Z)
    (value : pystr) : exc MockRedis :=
  b ← encode value; Return {| data := <[key := b]> (data self) |}.

#[global] Instance MockRedis_client : RedisClient MockRedis := {
  redis_get _ self key := Return (MockRedis_get self key);
  redis_setex _ self key time value := MockRedis_setex self key time value
}.

(** [if cached_result:] on [None] or a [bytes] object. *)
Definition cached_truthy (r : option pybytes) : bool :=
  match r with
  | Some b => truthy b
  | None => false
  end.

Section Cached.

Variable GoogleTranslator : pystr -> pystr -> pystr -> exc Translate.pyval.
Variable deepl_translate : pystr -> pystr -> pystr -> pystr -> exc pystr.
Variable DEEPL_API_KEY : option pystr.

(** [hashlib.md5(b).hexdigest()] *)
Variable md5_hexdigest : pybytes -> pystr.

Definition get_cache_key (texto source target engine : pystr) : exc pystr :=
  let content :=
    texto ++ lit "|" ++ source ++ lit "|" ++ target ++ lit "|" ++ engine in
  b ← encode content; Return (md5_hexdigest b).

Context {S : Type} `{RedisClient S}.

(** The result of the call (or the exception that leaves it) and the
    backing store afterwards. *)
Definition traducir_con_cache (now : Z) (redis_client : S)
    (texto source target engine : pystr) : exc pystr * S :=
  if negb (truthy (strip texto)) then (Return [], redis_client)
  else
    match get_cache_key texto source target engine with
    | Raise => (Raise, redis_client)
    | Return cache_key =>
      match redis_get now redis_client cache_key with
      | Raise => (Raise, redis_client)
      | Return cached_result =>
        if cached_truthy cached_result then
          (decode (default [] cached_result), redis_client)
        else
          match Translate.traducir_texto_engine GoogleTranslator deepl_translate
                  DEEPL_API_KEY texto source target engine with
          | Raise => (Raise, redis_client)
          | Return result =>
            if truthy result then
              match redis_setex now redis_client cache_key 86400 result with
              | Raise => (Raise, redis_client)
              | Return redis_client' => (Return result, redis_client')
              end
            else (Return result, redis_client)
          end
      end
    end.

End Cached.

End Cache.

(** ** The rate limiter *)

Module RateLimit.

(** A [datetime] is its number of microseconds since the epoch, a
    [timedelta] a number of microseconds. *)
Definition minutes (n : Z) : Z := n * 60000000.

(** [last_usage] is the module-level dictionary; [now] is what
    [datetime.now()] returns during the call. *)
Definition check_rate_limit (now : Z) (usuario_id : Z) (last_usage : gmap Z Z)
    : bool * gmap Z Z :=
  match last_usage !! usuario_id with
  | Some last =>
      let time_diff := now - last in
      if time_diff <? minutes 1 then (false, last_usage)
      else (true, <[usuario_id := now]> last_usage)
  | None => (true, <[usuario_id := now]> last_usage)
  end.

End RateLimit.

(** ** The translation queue of [plugins/queue_plugin.py] *)

Module Queue.

(** [@dataclass class QueueItem]. [progress] only takes the literals
    [0.0], [0.2], [0.5], [0.8] and [1.0], kept as exact rationals. *)
Record QueueItem := {
  id : pystr;
  user_id : Z;
  file_path : pystr;
  file_size : Z;
  priority : Z;
  status : pystr;
  created_at : pystr;
  started_at : option pystr;
  completed_at : option pystr;
  progress : Q;
  result_path : option pystr;
  error_msg : option pystr;
  estimated_time : option Z
}.

Definition set_status (s : pystr) (item : QueueItem) : QueueItem :=
  {| id := id item; user_id := user_id item; file_path := file_path item;
     file_size := file_size item; priority := priority item; status := s;
     created_at := created_at item; started_at := started_at item;
     completed_at := completed_at item; progress := progress item;
     result_path := result_path item; error_msg := error_msg item;
     estimated_time := estimated_time item |}.

Definition set_started_at (t : pystr) (item : QueueItem) : QueueItem :=
  {| id := id item; user_id := user_id item; file_path := file_path item;
     file_size := file_size item; priority := priority item; status := status item;
     created_at := created_at item; started_at := Some t;
     completed_at := completed_at item; progress := progress item;
     result_path := result_path item; error_msg := error_msg item;
     estimated_time := estimated_time item |}.

(** [a < b] on two [str]: lexicographic on the code points. *)
Fixpoint str_ltb (a b : pystr) : bool :=
  match a, b with
  | _, [] => false
  | [], _ :: _ => true
  | x :: a', y :: b' => ((x <? y) || ((x =? y) && str_ltb a' b'))%N
  end.

(** The sort key [lambda x: (-x.priority, x.created_at)] and [<] on two
    such tuples. *)
Definition sort_key (x : QueueItem) : Z * pystr := (- priority x, created_at x).

Definition key_ltb (k1 k2 : Z * pystr) : bool :=
  (fst k1 <? fst k2) || ((fst k1 =? fst k2) && str_ltb (snd k1) (snd k2)).

(** [list.sort(key=...)] is stable: items whose keys do not compare keep
    their order. The result is the one of the stable insertion sort. *)
Fixpoint insert_sorted (x : QueueItem) (l : list QueueItem) : list QueueItem :=
  match l with
  | [] => [x]
  | y :: l' =>
      if key_ltb (sort_key y) (sort_key x) then y :: insert_sorted x l'
      else x :: y :: l'
  end.

Fixpoint sort_queue (l : list QueueItem) : list QueueItem :=
  match l with
  | [] => []
  | x :: l' => insert_sorted x (sort_queue l')
  end.

(** What lies at [self.queue_file]. *)
Inductive queue_file_content :=
  | NoFile
  | Unreadable
  | Saved (records : list QueueItem).

(** The fields of [QueuePlugin] the operations touch, and the file. *)
Record QueuePlugin := {
  queue : list QueueItem;
  processing_slots : Z;
  currently_processing : Z;
  queue_file : queue_file_content
}.

(** [QueuePlugin.__init__], on a disk holding [file]. *)
Definition init (file : queue_file_content) : QueuePlugin :=
  {| queue := []; processing_slots := 2; currently_processing := 0;
     queue_file := file |}.

Definition set_queue (q : list QueueItem) (self : QueuePlugin) : QueuePlugin :=
  {| queue := q; processing_slots := processing_slots self;
     currently_processing := currently_processing self;
     queue_file := queue_file self |}.

(** [save_queue]: the records of [asdict] are written in queue order. The
    source logs and swallows a write that fails; the write is taken to
    succeed. *)
Definition save_queue (self : QueuePlugin) : QueuePlugin :=
  {| queue := queue self; processing_slots := processing_slots self;
     currently_processing := currently_processing self;
     queue_file := Saved (queue self) |}.

(** [load_queue]: one [QueueItem] for every record of the file; a
    missing file, or one that does not parse, leaves the queue as it is. *)
Definition load_queue (self : QueuePlugin) : QueuePlugin :=
  match queue_file self with
  | Saved records => set_queue records self
  | NoFile | Unreadable => self
  end.

Section AddToQueue.

(** [estimate_processing_time] works on floats; only its result, an
    [int], is stored. Its arguments here: [file_size],
    [currently_processing], [processing_slots]. *)
Variable estimate_processing_time : Z -> Z -> Z -> Z.

(** [item_id] is [str(uuid.uuid4())] and [now] is
    [datetime.now().isoformat()], both read during the call. *)
Definition add_to_queue (item_id now : pystr) (self : QueuePlugin)
    (user_id : Z) (file_path : pystr) (file_size : Z) (priority : Z)
    : pystr * QueuePlugin :=
  let estimated_time :=
    estimate_processing_time file_size (currently_processing self)
      (processing_slots self) in
  let item :=
    {| id := item_id; user_id := user_id; file_path := file_path;
       file_size := file_size; priority := priority;
       status := lit "queued"; created_at := now; started_at := None;
       completed_at := None; progress := 0%Q; result_path := None;
       error_msg := None; estimated_time := Some estimated_time |} in
  let self := set_queue (queue self ++ [item]) self in
  let self := save_queue self in
  let self := set_queue (sort_queue (queue self)) self in
  (item_id, self).

End AddToQueue.

(** [item.status == 'queued'] and the like. *)
Definition has_status (s : string) (item : QueueItem) : bool :=
  bool_decide (status item = lit s).

(** [[item for item in self.queue if item.status == 'queued']] *)
Definition pending_items (q : list QueueItem) : list QueueItem :=
  List.filter (has_status "queued") q.

(** [pending_items[0]] is the first queued object of [self.queue] itself:
    assigning to its attributes changes the queue in place. *)
Fixpoint mutate_first_queued (f : QueueItem -> QueueItem) (q : list QueueItem)
    : list QueueItem :=
  match q with
  | [] => []
  | item :: rest =>
      if has_status "queued" item then f item :: rest
      else item :: mutate_first_queued f rest
  end.

(** One turn of the inner [while] of [process_queue]: [None] when the loop
    is left, otherwise the item taken (as it was found) and the plugin after
    the turn. [now] is [datetime.now().isoformat()]. The task created for the
    item does not run before the loop sleeps. *)
Definition dispatch (now : pystr) (self : QueuePlugin)
    : option (QueueItem * QueuePlugin) :=
  if (currently_processing self <? processing_slots self) && truthy (queue self) then
    match pending_items (queue self) with
    | [] => None
    | item :: _ =>
        let start item := set_started_at now (set_status (lit "processing") item) in
        let self :=
          {| queue := mutate_first_queued start (queue self);
             processing_slots := processing_slots self;
             currently_processing := currently_processing self + 1;
             queue_file := queue_file self |} in
        Some (item, save_queue self)
    end
  else None.

(** The inner [while] as a whole, with one clock reading per turn: the
    items handed to workers, in order, and the plugin when the loop sleeps. *)
Fixpoint process_queue_pass (nows : list pystr) (self : QueuePlugin)
    : list QueueItem * QueuePlugin :=
  match nows with
  | [] => ([], self)
  | now :: nows' =>
      match dispatch now self with
      | None => ([], self)
      | Some (item, self') =>
          let '(taken, self'') := process_queue_pass nows' self' in
          (item :: taken, self'')
      end
  end.

(** [on_system_startup]: the file is loaded, then the scheduler runs. *)
Definition on_system_startup (nows : list pystr) (self : QueuePlugin)
    : list QueueItem * QueuePlugin :=
  process_queue_pass nows (load_queue self).

(** The [for item in self.queue] of [cancel_item]: [Some] of the changed
    queue when it returns [True], [None] when it returns [False]. *)
Fixpoint cancel_loop (item_id : pystr) (uid : Z) (q : list QueueItem)
    : option (list QueueItem) :=
  match q with
  | [] => None
  | item :: rest =>
      if bool_decide (id item = item_id) && (user_id item =? uid) then
        if has_status "queued" item then
          Some (set_status (lit "cancelled") item :: rest)
        else if has_status "processing" item then None
        else cons item <$> cancel_loop item_id uid rest
      else cons item <$> cancel_loop item_id uid rest
  end.

Definition cancel_item (self : QueuePlugin) (item_id : pystr) (uid : Z)
    : bool * QueuePlugin :=
  match cancel_loop item_id uid (queue self) with
  | Some q => (true, save_queue (set_queue q self))
  | None => (false, self)
  end.

End Queue.

(** ** The feedback counters: [MockRedis.incr] *)

Module Counter.

(** What [int(b)] skips at both ends of a [bytes] object. *)
Definition byte_isspace (b : N) : bool := ((9 <=? b) && (b <=? 13) || (b =? 32))%N.

Definition is_digit (b : N) : bool := ((48 <=? b) && (b <=? 57))%N.

Fixpoint skip_space (bs : pybytes) : pybytes :=
  match bs with
  | [] => []
  | b :: bs' => if byte_isspace b then skip_space bs' else bs
  end.

(** The decimal digits of a literal, with single underscores between
    digits: the value read and what follows it. *)
Fixpoint scan_digits (acc : Z) (bs : pybytes) : exc (Z * pybytes) :=
  match bs with
  | [] => Return (acc, [])
  | b :: bs' =>
      if is_digit b then scan_digits (acc * 10 + Z.of_N (b - 48)) bs'
      else if (b =? 95)%N then
        match bs' with
        | d :: _ => if is_digit d then scan_digits acc bs' else Raise
        | [] => Raise
        end
      else Return (acc, bs)
  end.

(** [int(b)] on a [bytes] object: a decimal literal, with an optional sign
    and whitespace around it; [ValueError] on anything else. (The limit that
    recent interpreters put on the number of digits is left out.) *)
Definition py_int (bs : pybytes) : exc Z :=
  let bs := skip_space bs in
  let '(negative, bs) :=
    match bs with
    | 45%N :: bs' => (true, bs')
    | 43%N :: bs' => (false, bs')
    | _ => (false, bs)
    end in
  match bs with
  | d :: _ =>
      if is_digit d then
        '(n, rest) ← scan_digits 0 bs;
        if truthy (skip_space rest) then Raise
        else Return (if negative then - n else n)
      else Raise
  | [] => Raise
  end.

(** [n.to_bytes(4, 'big')]: [OverflowError] outside of [0 .. 2^32 - 1]. *)
Definition to_bytes4 (n : Z) : exc pybytes :=
  if (0 <=? n) && (n <? 4294967296) then
    Return [Z.to_N (n / 16777216); Z.to_N ((n / 65536) mod 256);
            Z.to_N ((n / 256) mod 256); Z.to_N (n mod 256)]
  else Raise.

(** [self.data[key] = (int(self.data.get(key, 0)) + 1).to_bytes(4, 'big')] *)
Definition MockRedis_incr (self : Cache.MockRedis) (key : pystr) : exc Cache.MockRedis :=
  n ← match Cache.MockRedis_get self key with
      | Some b => py_int b
      | None => Return 0
      end;
  b ← to_bytes4 (n + 1);
  Return {| Cache.data := <[key := b]> (Cache.data self) |}.

End Counter.

(** ** Who may use the bot *)

Module Auth.

(** The two module-level sets. [save_auth_lists] writes them to two files
    that only [load_auth_lists] reads, at import; the files are left out. *)
Record AuthLists := {
  AUTHORIZED_USERS : gset Z;
  BANNED_USERS : gset Z
}.

Definition ADMINS : list Z := [1350300219].

(** [if s:] on a set. *)
Definition set_truthy (s : gset Z) : bool := negb (bool_decide (s = ∅)).

Definition check_user_auth (self : AuthLists) (usuario_id : Z) : bool * pystr :=
  if set_truthy (BANNED_USERS self) && bool_decide (usuario_id ∈ BANNED_USERS self)
  then (false, lit "Usuario baneado")
  else if set_truthy (AUTHORIZED_USERS self)
          && negb (bool_decide (usuario_id ∈ AUTHORIZED_USERS self))
  then (false, lit "Usuario no autorizado")
  else (true, lit "Autorizado").

(** What a command handler answers. *)
Inductive reply :=
  | NoPermission
  | Usage
  | InvalidId
  | Done (target_user_id : Z).

(** The handlers read [int(context.args[0]) if context.args else None]:
    [arg] is [None] without arguments and otherwise what [int] does on the
    first one, a value or [ValueError]. *)
Definition with_target (usuario_id : Z) (arg : option (exc Z)) (self : AuthLists)
    (action : Z -> AuthLists) : AuthLists * reply :=
  if negb (bool_decide (usuario_id ∈ ADMINS)) then (self, NoPermission)
  else
    match arg with
    | Some Raise => (self, InvalidId)
    | None => (self, Usage)
    | Some (Return target_user_id) =>
        if target_user_id =? 0 then (self, Usage)
        else (action target_user_id, Done target_user_id)
    end.

Definition authorize_user (self : AuthLists) (usuario_id : Z) (arg : option (exc Z))
    : AuthLists * reply :=
  with_target usuario_id arg self (fun target_user_id =>
    {| AUTHORIZED_USERS := {[target_user_id]} ∪ AUTHORIZED_USERS self;
       BANNED_USERS := BANNED_USERS self |}).

Definition ban_user (self : AuthLists) (usuario_id : Z) (arg : option (exc Z))
    : AuthLists * reply :=
  with_target usuario_id arg self (fun target_user_id =>
    {| AUTHORIZED_USERS := AUTHORIZED_USERS self ∖ {[target_user_id]};
       BANNED_USERS := {[target_user_id]} ∪ BANNED_USERS self |}).

Definition unban_user (self : AuthLists) (usuario_id : Z) (arg : option (exc Z))
    : AuthLists * reply :=
  with_target usuario_id arg self (fun target_user_id =>
    {| AUTHORIZED_USERS := AUTHORIZED_USERS self;
       BANNED_USERS := BANNED_USERS self ∖ {[target_user_id]} |}).

End Auth.

(** ** Settings and history of the users *)

Module Persist.

(** A key of the two module-level dictionaries: a Telegram user id, an
    [int], or, after [json.load], a [str]. An [int] and a [str] are never
    equal. *)
Definition user_key : Type := Z + pystr.

(** The values kept as settings: a [bool] or a [str]. *)
Inductive setting_value :=
  | VBool (b : bool)
  | VStr (s : pystr).

#[global] Instance setting_value_eq_dec : EqDecision setting_value.
Proof. solve_decision. Defined.

(** [if v:] and [not v]. *)
Definition value_truthy (v : setting_value) : bool :=
  match v with
  | VBool b => b
  | VStr s => truthy s
  end.

Definition get_user_setting (usuario_id : user_key) (setting : pystr)
    (default : setting_value) (user_settings : gmap user_key (gmap pystr setting_value))
    : setting_value * gmap user_key (gmap pystr setting_value) :=
  let user_settings :=
    match user_settings !! usuario_id with
    | None => <[usuario_id := ∅]> user_settings
    | Some _ => user_settings
    end in
  (from_option id default
     (from_option id ∅ (user_settings !! usuario_id) !! setting),
   user_settings).

(** [save_persistent_data] at the end writes the dictionaries to disk and
    swallows its own errors; the disk is an argument of
    [load_persistent_data] only. *)
Definition set_user_setting (usuario_id : user_key) (setting : pystr)
    (value : setting_value) (user_settings : gmap user_key (gmap pystr setting_value))
    : gmap user_key (gmap pystr setting_value) :=
  let user_settings :=
    match user_settings !! usuario_id with
    | None => <[usuario_id := ∅]> user_settings
    | Some _ => user_settings
    end in
  <[usuario_id := <[setting := value]> (default ∅ (user_settings !! usuario_id))]>
    user_settings.

(** [toggle_comillas], without its reply. *)
Definition toggle_comillas (usuario_id : Z)
    (user_settings : gmap user_key (gmap pystr setting_value))
    : gmap user_key (gmap pystr setting_value) :=
  let '(current, user_settings) :=
    get_user_setting (inl usuario_id) (lit "reemplazar_comillas") (VBool true)
      user_settings in
  let new_value := negb (value_truthy current) in
  set_user_setting (inl usuario_id) (lit "reemplazar_comillas") (VBool new_value)
    user_settings.

(** The ['toggle_engine'] branch of [button_handler], without its reply. *)
Definition toggle_engine (usuario_id : Z)
    (user_settings : gmap user_key (gmap pystr setting_value))
    : gmap user_key (gmap pystr setting_value) :=
  let '(current_engine, user_settings) :=
    get_user_setting (inl usuario_id) (lit "translation_engine") (VStr (lit "google"))
      user_settings in
  let new_engine :=
    if bool_decide (current_engine = VStr (lit "google")) then lit "deepl"
    else lit "google" in
  set_user_setting (inl usuario_id) (lit "translation_engine") (VStr new_engine)
    user_settings.

(** [agregar_historial]: the entries of a user are pairs
    [(titulo, enlace)]. *)
Definition agregar_historial (usuario_id : user_key) (titulo enlace : pystr)
    (historial : gmap user_key (list (pystr * pystr)))
    : gmap user_key (list (pystr * pystr)) :=
  let historial :=
    match historial !! usuario_id with
    | None => <[usuario_id := []]> historial
    | Some _ => historial
    end in
  let entries := (titulo, enlace) :: default [] (historial !! usuario_id) in
  <[usuario_id := slice entries 0 5]> historial.

(** A file of [storage/]: absent, not valid JSON, or a JSON object, whose
    keys are strings. *)
Inductive json_file (A : Type) :=
  | Missing
  | Corrupt
  | Json (obj : gmap pystr A).
Arguments Missing {A}.
Arguments Corrupt {A}.
Arguments Json {A} obj.

Record Persistent := {
  historial : gmap user_key (list (pystr * pystr));
  user_settings : gmap user_key (gmap pystr setting_value)
}.

(** [load_persistent_data]: one [try] around the two files, so that a
    history file that does not parse keeps the settings from being read. *)
Definition load_persistent_data (historial_json : json_file (list (pystr * pystr)))
    (settings_json : json_file (gmap pystr setting_value)) (self : Persistent)
    : Persistent :=
  match historial_json with
  | Corrupt => self
  | Missing | Json _ =>
      let historial :=
        match historial_json with
        | Json obj => kmap (inr : pystr -> user_key) obj
        | _ => historial self
        end in
      match settings_json with
      | Json obj =>
          {| historial := historial;
             user_settings := kmap (inr : pystr -> user_key) obj |}
      | Missing | Corrupt =>
          {| historial := historial; user_settings := user_settings self |}
      end
  end.

End Persist.

(** ** Quotes *)

Module Quotes.

(** The character class of [reemplazar_comillas]: the two ASCII quotes and
    the four typographic ones. *)
Definition is_quote (c : N) : bool :=
  ((c =? 34) || (c =? 39) || (c =? 8220) || (c =? 8221) || (c =? 8216) || (c =? 8217))%N.

(** [re.sub(r'[...]', '―', texto)]: every quote becomes U+2015. *)
Definition reemplazar_comillas (texto : pystr) : pystr :=
  map (fun c => if is_quote c then 8213%N else c) texto.

End Quotes.

(** ** From a chapter to its translation *)

Module Pipeline.

(** A setting as it is spelled inside an f-string; a [bool] found where a
    language or an engine is expected is taken by that spelling. *)
Definition value_str (v : Persist.setting_value) : pystr :=
  match v with
  | Persist.VStr s => s
  | Persist.VBool true => lit "True"
  | Persist.VBool false => lit "False"
  end.

(** [if usuario_id:] on [None] or an [int]. *)
Definition id_truthy (usuario_id : option Z) : bool :=
  match usuario_id with
  | Some n => negb (n =? 0)
  | None => false
  end.

Section Translating.

Variable GoogleTranslator : pystr -> pystr -> pystr -> exc Translate.pyval.
Variable deepl_translate : pystr -> pystr -> pystr -> pystr -> exc pystr.
Variable DEEPL_API_KEY : option pystr.
Variable md5_hexdigest : pybytes -> pystr.
Context {S : Type} `{Cache.RedisClient S}.

(** [traducir_texto]: the result, the backing store and the settings
    afterwards. *)
Definition traducir_texto (now : Z) (redis_client : S)
    (user_settings : gmap Persist.user_key (gmap pystr Persist.setting_value))
    (texto source target : pystr) (usuario_id : option Z)
    : exc pystr * S * gmap Persist.user_key (gmap pystr Persist.setting_value) :=
  let '(engine, target_lang, user_settings) :=
    if id_truthy usuario_id then
      let key : Persist.user_key := inl (from_option id 0 usuario_id) in
      let '(engine, user_settings) :=
        Persist.get_user_setting key (lit "translation_engine")
          (Persist.VStr (lit "google")) user_settings in
      let '(target_lang, user_settings) :=
        Persist.get_user_setting key (lit "target_language")
          (Persist.VStr (lit "es")) user_settings in
      (value_str engine, value_str target_lang, user_settings)
    else (lit "google", target, user_settings) in
  let '(result, redis_client) :=
    Cache.traducir_con_cache GoogleTranslator deepl_translate DEEPL_API_KEY
      md5_hexdigest now redis_client texto source target_lang engine in
  (result, redis_client, user_settings).

(** [traducir_capitulo_task], the same with and without Celery: whatever
    is raised inside gives the chapter back as it came. *)
Definition traducir_capitulo_task (now : Z) (redis_client : S)
    (user_settings : gmap Persist.user_key (gmap pystr Persist.setting_value))
    (contenido idioma_original : pystr) (usuario_id : Z)
    : pystr * S * gmap Persist.user_key (gmap pystr Persist.setting_value) :=
  let '(result, redis_client, user_settings) :=
    traducir_texto now redis_client user_settings contenido idioma_original
      (lit "es") (Some usuario_id) in
  match result with
  | Raise => (contenido, redis_client, user_settings)
  | Return contenido_trad =>
      let '(replace, user_settings) :=
        Persist.get_user_setting (inl usuario_id) (lit "reemplazar_comillas")
          (Persist.VBool true) user_settings in
      (if Persist.value_truthy replace then Quotes.reemplazar_comillas contenido_trad
       else contenido_trad,
       redis_client, user_settings)
  end.

End Translating.

End Pipeline.

(** ** The rest of the queue plugin *)

Module QueueOps.

Section LargeFiles.

Variable estimate_processing_time : Z -> Z -> Z -> Z.

(** [on_large_file_detected]: [item_id] and [now] are read by
    [add_to_queue] when it is called. *)
Definition on_large_file_detected (item_id now : pystr) (self : Queue.QueuePlugin)
    (user_id : Z) (file_path : pystr) (file_size : Z) : bool * Queue.QueuePlugin :=
  if 50 * 1024 * 1024 <? file_size then
    (true,
     snd (Queue.add_to_queue estimate_processing_time item_id now self user_id
            file_path file_size 3))
  else (false, self).

End LargeFiles.

Definition set_currently_processing (n : Z) (self : Queue.QueuePlugin)
    : Queue.QueuePlugin :=
  {| Queue.queue := Queue.queue self;
     Queue.processing_slots := Queue.processing_slots self;
     Queue.currently_processing := n;
     Queue.queue_file := Queue.queue_file self |}.

(** [on_translation_complete]: a slot is given back. *)
Definition on_translation_complete (self : Queue.QueuePlugin) : Queue.QueuePlugin :=
  set_currently_processing (Z.max 0 (Queue.currently_processing self - 1)) self.

Definition set_progress (p : Q) (item : Queue.QueueItem) : Queue.QueueItem :=
  {| Queue.id := Queue.id item; Queue.user_id := Queue.user_id item;
     Queue.file_path := Queue.file_path item; Queue.file_size := Queue.file_size item;
     Queue.priority := Queue.priority item; Queue.status := Queue.status item;
     Queue.created_at := Queue.created_at item; Queue.started_at := Queue.started_at item;
     Queue.completed_at := Queue.completed_at item; Queue.progress := p;
     Queue.result_path := Queue.result_path item; Queue.error_msg := Queue.error_msg item;
     Queue.estimated_time := Queue.estimated_time item |}.

(** The three assignments that close [process_item]. *)
Definition complete (now : pystr) (item : Queue.QueueItem) : Queue.QueueItem :=
  {| Queue.id := Queue.id item; Queue.user_id := Queue.user_id item;
     Queue.file_path := Queue.file_path item; Queue.file_size := Queue.file_size item;
     Queue.priority := Queue.priority item; Queue.status := lit "completed";
     Queue.created_at := Queue.created_at item; Queue.started_at := Queue.started_at item;
     Queue.completed_at := Some now; Queue.progress := Queue.progress item;
     Queue.result_path := Some (lit "processed_" ++ Queue.file_path item);
     Queue.error_msg := Queue.error_msg item;
     Queue.estimated_time := Queue.estimated_time item |}.

(** [process_item] runs between the turns of the scheduler: each of its
    stretches without an [await] is one step. The task holds the item
    itself; [i] is where that item is in [self.queue] when the step runs.
    Nothing in the [try] raises an [Exception], so that the branch that
    marks the item ['failed'] is never taken. *)
Definition process_item_progress (i : nat) (p : Q) (self : Queue.QueuePlugin)
    : Queue.QueuePlugin :=
  Queue.save_queue (Queue.set_queue (alter (set_progress p) i (Queue.queue self)) self).

Definition process_item_finish (i : nat) (now : pystr) (self : Queue.QueuePlugin)
    : Queue.QueuePlugin :=
  let self :=
    Queue.save_queue (Queue.set_queue (alter (complete now) i (Queue.queue self)) self) in
  set_currently_processing (Z.max 0 (Queue.currently_processing self - 1)) self.

(** The dictionary [get_queue_status] returns. *)
Record QueueStatus := {
  total_queued : Z;
  total_processing : Z;
  total_completed : Z;
  total_failed : Z;
  status_processing_slots : Z;
  status_currently_processing : Z;
  items : list Queue.QueueItem
}.

(** [len([i for i in user_items if i.status == s])] *)
Definition count_status (s : string) (user_items : list Queue.QueueItem) : Z :=
  len (List.filter (Queue.has_status s) user_items).

(** [l[-10:]] *)
Definition last10 {A} (l : list A) : list A := skipn (length l - 10) l.

(** [get_queue_status]: without a user id, or with the id [0], every item
    counts. *)
Definition get_queue_status (self : Queue.QueuePlugin) (user_id : option Z)
    : QueueStatus :=
  let user_items :=
    if Pipeline.id_truthy user_id then
      List.filter (fun item => Queue.user_id item =? from_option id 0 user_id)
        (Queue.queue self)
    else Queue.queue self in
  {| total_queued := count_status "queued" user_items;
     total_processing := count_status "processing" user_items;
     total_completed := count_status "completed" user_items;
     total_failed := count_status "failed" user_items;
     status_processing_slots := Queue.processing_slots self;
     status_currently_processing := Queue.currently_processing self;
     items := last10 user_items |}.

End QueueOps.

(** ** Predicates of the statements *)

(** A sentence with its delimiter put back. *)
Definition restore (sentence : pystr) : pystr := sentence ++ lit ". ".

(** Whether the separator occurs in a string. *)
Fixpoint contains_dot_space (s : pystr) : bool :=
  match s with
  | [] => false
  | c :: s' =>
      match s' with
      | [] => false
      | d :: _ => ((c =? 46) && (d =? 32))%N || contains_dot_space s'
      end
  end.

(** A string of whitespace only. *)
Definition all_space (s : pystr) : Prop := Forall (fun c => py_isspace c = true) s.

(** The characters that are not whitespace, in order. *)
Definition visible (s : pystr) : pystr := List.filter (fun c => negb (py_isspace c)) s.

(** The statement that the chunks, put together, are the text or the text
    followed by the restored delimiter. *)
Definition reproduces_text (texto : pystr) : Prop :=
  concat (Splitter.final_chunks texto) = texto
  \/ concat (Splitter.final_chunks texto) = texto ++ lit ". ".

(** [b] is [c] between two runs of whitespace. *)
Definition stripped_to (b c : pystr) : Prop :=
  exists a z, b = a ++ c ++ z /\ all_space a /\ all_space z.

(** A string that opens with a character [strip] keeps. *)
Definition starts_visible (s : pystr) : bool :=
  match s with
  | [] => false
  | c :: _ => negb (py_isspace c)
  end.

(** Every sentence of the text, with its delimiter, fits the soft limit. *)
Definition clean_boundaries (texto : pystr) : bool :=
  forallb (fun sentence => len sentence + 2 <=? 3000) (split_dot_space texto).

(** Twelve sentences of 998 letters, each followed by the delimiter: 12,000
    characters. *)
Definition twelve_sentences : pystr :=
  concat (repeat (repeat 120%N 998 ++ lit ". ") 12).

(** 6,000 letters and no delimiter. *)
Definition one_long_sentence : pystr := repeat 97%N (Z.to_nat 6000).

(** Three sentences of 2999 letters with their delimiters and one of 2997
    letters: 12,000 characters, no sentence fitting the soft limit once its
    delimiter is put back. *)
Definition four_long_sentences : pystr :=
  concat (repeat (repeat 120%N 2999 ++ lit ". ") 3) ++ repeat 120%N 2997.

(** A space, then 5,999 letters. *)
Definition indented_long_sentence : pystr := 32%N :: repeat 97%N (Z.to_nat 5999).

(** An engine that is down: every call raises. *)
Definition engine_down {A} : pystr -> pystr -> pystr -> exc A := fun _ _ _ => Raise.

Definition deepl_down : pystr -> pystr -> pystr -> pystr -> exc pystr :=
  fun _ _ _ _ => Raise.

(** An engine that answers every chunk with the same word. *)
Definition engine_says (word : string) : pystr -> pystr -> pystr -> exc Translate.pyval :=
  fun _ _ _ => Return (Translate.PStr (lit word)).

(** An engine that answers chunks of at most [limit] characters and raises
    on longer ones. *)
Definition engine_up_to (limit : Z) (word : string)
    : pystr -> pystr -> pystr -> exc Translate.pyval :=
  fun _ _ chunk =>
    if len chunk <=? limit then Return (Translate.PStr (lit word)) else Raise.

(** An engine that hands back something that is not a [str]. *)
Definition engine_none : pystr -> pystr -> pystr -> exc Translate.pyval :=
  fun _ _ _ => Return Translate.PNone.

(** A stand-in for the digest where one has to be run: the hexadecimal
    spelling of the bytes themselves. *)
Definition hex_digit (n : N) : N := (if n <? 10 then 48 + n else 87 + n)%N.

Definition hexdigest_of_bytes (b : pybytes) : pystr :=
  flat_map (fun x => [hex_digit (x / 16); hex_digit (x mod 16)]%N) b.

(** A backing store that cannot be reached: [get] and [setex] raise. *)
Inductive UnreachableRedis := Unreachable.

#[global] Instance UnreachableRedis_client : Cache.RedisClient UnreachableRedis := {
  redis_get _ _ _ := Raise;
  redis_setex _ _ _ _ _ := Raise
}.

(** A backing store that answers every [get] with a miss and refuses every
    write. *)
Inductive ReadOnlyRedis := ReadOnly.

#[global] Instance ReadOnlyRedis_client : Cache.RedisClient ReadOnlyRedis := {
  redis_get _ _ _ := Return None;
  redis_setex _ _ _ _ _ := Raise
}.

(** Seconds as a [timedelta]. *)
Definition seconds (n : Z) : Z := n * 1000000.

(** A run of calls to the rate limiter, each with its clock reading and its
    submitter: the answers, and the dictionary at the end. *)
Fixpoint replay (calls : list (Z * Z)) (last_usage : gmap Z Z)
    : list bool * gmap Z Z :=
  match calls with
  | [] => ([], last_usage)
  | (now, usuario_id) :: rest =>
      let '(ok, last_usage) := RateLimit.check_rate_limit now usuario_id last_usage in
      let '(oks, last_usage) := replay rest last_usage in
      (ok :: oks, last_usage)
  end.

(** The clock reading of the last call of a run that was allowed for
    [usuario_id], or [before] when none was. *)
Fixpoint last_allowed (calls : list (Z * Z)) (oks : list bool) (usuario_id : Z)
    (before : option Z) : option Z :=
  match calls, oks with
  | (now, u) :: calls', ok :: oks' =>
      last_allowed calls' oks' usuario_id
        (if ok && (u =? usuario_id) then Some now else before)
  | _, _ => before
  end.

(** A record of the queue with the given identifier, owner, priority,
    status and creation time, and nothing else filled in. *)
Definition job (item_id : string) (uid priority : Z) (status created_at : string)
    : Queue.QueueItem :=
  {| Queue.id := lit item_id; Queue.user_id := uid; Queue.file_path := lit "libro.epub";
     Queue.file_size := 1024; Queue.priority := priority; Queue.status := lit status;
     Queue.created_at := lit created_at; Queue.started_at := None;
     Queue.completed_at := None; Queue.progress := 0%Q; Queue.result_path := None;
     Queue.error_msg := None; Queue.estimated_time := None |}.

(** A plugin holding the given queue, with its two slots free. *)
Definition plugin_with (q : list Queue.QueueItem) : Queue.QueuePlugin :=
  Queue.set_queue q (Queue.init Queue.NoFile).

(** The estimate is not looked at by any statement below. *)
Definition no_estimate : Z -> Z -> Z -> Z := fun _ _ _ => 0.

(** Three submissions within one scheduler period, on an empty disk: two of
    low priority, then an urgent one. *)
Definition three_submissions : Queue.QueuePlugin :=
  let self := Queue.init Queue.NoFile in
  let self :=
    snd (Queue.add_to_queue no_estimate (lit "j1") (lit "2024-05-01T10:00:00.000100")
           self 1 (lit "uno.epub") 1024 1) in
  let self :=
    snd (Queue.add_to_queue no_estimate (lit "j2") (lit "2024-05-01T10:00:01.000200")
           self 2 (lit "dos.epub") 1024 1) in
  snd (Queue.add_to_queue no_estimate (lit "j3") (lit "2024-05-01T10:00:02.000300")
         self 3 (lit "tres.epub") 1024 4).

(** The clock readings of the scheduler, as many as it may need. *)
Definition scheduler_clock : list pystr :=
  repeat (lit "2024-05-01T10:00:05.000000") 4.

(** [a] does not come after [b] in the order of the sort key. *)
Definition key_le (a b : Queue.QueueItem) : Prop :=
  Queue.key_ltb (Queue.sort_key b) (Queue.sort_key a) = false.

(** What one process does to its queue between two restarts: submissions,
    turns of the scheduler, cancellations. *)
Inductive in_process : Queue.QueuePlugin -> Prop :=
  | in_process_init file : in_process (Queue.init file)
  | in_process_add estimate item_id now self user_id file_path file_size priority :
      in_process self ->
      in_process (snd (Queue.add_to_queue estimate item_id now self user_id
                         file_path file_size priority))
  | in_process_dispatch now self item self' :
      in_process self ->
      Queue.dispatch now self = Some (item, self') ->
      in_process self'
  | in_process_cancel self item_id uid :
      in_process self ->
      in_process (snd (Queue.cancel_item self item_id uid)).

(** What stands for a chunk in the result of [traducir_texto_google]: its
    translation when the call returns one, the chunk itself otherwise. *)
Definition kept_or_translated
    (GoogleTranslator : pystr -> pystr -> pystr -> exc Translate.pyval)
    (source target chunk : pystr) : pystr :=
  match GoogleTranslator source target chunk with
  | Return (Translate.PStr trad) => trad
  | _ => chunk
  end.

(** An engine that translates the chunks that open with a capital ['A'] and
    raises on the others. *)
Definition engine_picky : pystr -> pystr -> pystr -> exc Translate.pyval :=
  fun _ _ chunk =>
    match chunk with
    | 65%N :: _ => Return (Translate.PStr (lit "si"))
    | _ => Raise
    end.

(** A buffer that ends with the restored delimiter. *)
Definition ends_restored (b : pystr) : Prop := exists s, b = s ++ lit ". ".

(** A code point that UTF-8 can spell: below 0x110000 and no surrogate. *)
Definition scalar_value (c : N) : bool :=
  ((c <? 1114112) && negb ((55296 <=? c) && (c <=? 57343)))%N.

(** The translations of one user, recorded one after the other. *)
Definition agregar_todos (entries : list (pystr * pystr)) (usuario_id : Persist.user_key)
    (historial : gmap Persist.user_key (list (pystr * pystr)))
    : gmap Persist.user_key (list (pystr * pystr)) :=
  fold_left (fun h entry => Persist.agregar_historial usuario_id (fst entry) (snd entry) h)
    entries historial.

(** Everything the plugin does to itself: the steps of one process, the
    reload of the file, the hooks and the steps of the workers. *)
Inductive plugin_run : Queue.QueuePlugin -> Prop :=
  | run_init file : plugin_run (Queue.init file)
  | run_load self : plugin_run self -> plugin_run (Queue.load_queue self)
  | run_add estimate item_id now self user_id file_path file_size priority :
      plugin_run self ->
      plugin_run (snd (Queue.add_to_queue estimate item_id now self user_id
                         file_path file_size priority))
  | run_large_file estimate item_id now self user_id file_path file_size :
      plugin_run self ->
      plugin_run (snd (QueueOps.on_large_file_detected estimate item_id now self
                         user_id file_path file_size))
  | run_dispatch now self item self' :
      plugin_run self ->
      Queue.dispatch now self = Some (item, self') ->
      plugin_run self'
  | run_cancel self item_id uid :
      plugin_run self -> plugin_run (snd (Queue.cancel_item self item_id uid))
  | run_progress i p self :
      plugin_run self -> plugin_run (QueueOps.process_item_progress i p self)
  | run_finish i now self :
      plugin_run self -> plugin_run (QueueOps.process_item_finish i now self)
  | run_translation_complete self :
      plugin_run self -> plugin_run (QueueOps.on_translation_complete self).

(** A queue of five jobs waiting, for a plugin with its two slots free. *)
Definition five_waiting : Queue.QueuePlugin :=
  plugin_with
    [job "a" 1 3 "queued" "2024-05-01T10:00:00"; job "b" 1 2 "completed" "2024-05-01T10:00:01";
     job "c" 2 2 "queued" "2024-05-01T10:00:02"; job "d" 2 2 "queued" "2024-05-01T10:00:03";
     job "e" 3 1 "queued" "2024-05-01T10:00:04"; job "f" 3 1 "queued" "2024-05-01T10:00:05"].

(** ** Proof steps *)

(** Arithmetic with quotients and remainders by constants. *)
Ltac divlia := zify; Z.to_euclidean_division_equations; lia.

(** Settles one comparison of the goal from the hypotheses. *)
Ltac decide_test :=
  match goal with
  | |- context [(?a <? ?b)%N] =>
      first [ replace (a <? b)%N with true by (symmetry; apply N.ltb_lt; divlia)
            | replace (a <? b)%N with false by (symmetry; apply N.ltb_ge; divlia) ]
  | |- context [(?a <=? ?b)%N] =>
      first [ replace (a <=? b)%N with true by (symmetry; apply N.leb_le; divlia)
            | replace (a <=? b)%N with false by (symmetry; apply N.leb_gt; divlia) ]
  end.

(** * Properties *)

(** ** Strings and slices *)

Lemma len_app {A} (a b : list A) : len (a ++ b) = len a + len b.
Proof. unfold len. rewrite length_app. lia. Qed.

Lemma len_nonneg {A} (a : list A) : 0 <= len a.
Proof. unfold len. lia. Qed.

Lemma cons_head_nonempty c l : cons_head c l <> [].
Proof. destruct l; discriminate. Qed.

Lemma split_dot_space_step c d s :
  split_dot_space (c :: d :: s)
  = if ((c =? 46) && (d =? 32))%N then [] :: split_dot_space s
    else cons_head c (split_dot_space (d :: s)).
Proof. reflexivity. Qed.

Lemma contains_dot_space_step c d s :
  contains_dot_space (c :: d :: s)
  = ((c =? 46) && (d =? 32))%N || contains_dot_space (d :: s).
Proof. reflexivity. Qed.

Lemma split_dot_space_nonempty s : split_dot_space s <> [].
Proof.
  destruct s as [|c [|d s]]; try discriminate.
  rewrite split_dot_space_step.
  destruct ((c =? 46) && (d =? 32))%N; [discriminate|apply cons_head_nonempty].
Qed.

Lemma restore_cons_head c l :
  l <> [] -> concat (map restore (cons_head c l)) = c :: concat (map restore l).
Proof. destruct l; [congruence|reflexivity]. Qed.

(** Induction on a string two characters at a time, as [split] reads it. *)
Lemma split_dot_space_join_aux s :
  concat (map restore (split_dot_space s)) = s ++ lit ". "
  /\ forall c, concat (map restore (split_dot_space (c :: s))) = (c :: s) ++ lit ". ".
Proof.
  induction s as [|d s [IHs IHc]].
  - split; [reflexivity|intros c; reflexivity].
  - split; [apply IHc|]. intros c. rewrite split_dot_space_step.
    destruct ((c =? 46) && (d =? 32))%N eqn:E.
    + apply andb_true_iff in E as [Ec Ed].
      apply N.eqb_eq in Ec, Ed. subst c d.
      cbn [map concat]. rewrite IHs. reflexivity.
    + rewrite restore_cons_head by apply split_dot_space_nonempty.
      rewrite IHc. reflexivity.
Qed.

(** Joining the sentences, each with its restored delimiter, gives the text
    followed by one delimiter. *)
Lemma split_dot_space_join s :
  concat (map restore (split_dot_space s)) = s ++ lit ". ".
Proof. apply split_dot_space_join_aux. Qed.

Lemma split_no_separator s :
  contains_dot_space s = false -> split_dot_space s = [s].
Proof.
  assert (H : (contains_dot_space s = false -> split_dot_space s = [s])
    /\ forall c, contains_dot_space (c :: s) = false ->
         split_dot_space (c :: s) = [c :: s]).
  { induction s as [|d s [IHs IHc]].
    - split; [reflexivity|intros c _; reflexivity].
    - split; [apply IHc|]. intros c.
      rewrite split_dot_space_step, contains_dot_space_step.
      destruct ((c =? 46) && (d =? 32))%N; [discriminate|].
      intros Hd. cbn [orb] in Hd. rewrite (IHc d Hd). reflexivity. }
  apply H.
Qed.

(** [strip] removes a run of whitespace at each end and nothing else. *)
Lemma lstrip_decompose s : exists a, s = a ++ lstrip s /\ all_space a.
Proof.
  induction s as [|c s [a [Ha Hs]]].
  - exists []. split; [reflexivity|constructor].
  - cbn [lstrip]. destruct (py_isspace c) eqn:E.
    + exists (c :: a). split; [cbn; congruence|constructor; assumption].
    + exists []. split; [reflexivity|constructor].
Qed.

Lemma all_space_rev a : all_space a -> all_space (rev a).
Proof. apply List.Forall_rev. Qed.

Lemma rstrip_decompose s : exists z, s = rstrip s ++ z /\ all_space z.
Proof.
  unfold rstrip. destruct (lstrip_decompose (rev s)) as [a [Ha Hs]].
  exists (rev a). split; [|now apply all_space_rev].
  rewrite <- rev_app_distr, <- Ha, rev_involutive. reflexivity.
Qed.

Lemma strip_decompose s :
  exists a z, s = a ++ strip s ++ z /\ all_space a /\ all_space z.
Proof.
  destruct (lstrip_decompose s) as [a [Ha Hsa]].
  destruct (rstrip_decompose (lstrip s)) as [z [Hz Hsz]].
  exists a, z. unfold strip. rewrite <- Hz. auto.
Qed.

Lemma len_strip_le s : len (strip s) <= len s.
Proof.
  destruct (strip_decompose s) as [a [z [E _]]].
  rewrite E at 2. rewrite !len_app.
  pose proof (len_nonneg a). pose proof (len_nonneg z). lia.
Qed.

Lemma visible_all_space a : all_space a -> visible a = [].
Proof.
  induction 1 as [|c a Hc _ IH]; [reflexivity|].
  unfold visible in *. cbn [List.filter]. rewrite Hc. exact IH.
Qed.

Lemma visible_app a b : visible (a ++ b) = visible a ++ visible b.
Proof. apply List.filter_app. Qed.

Lemma visible_strip s : visible (strip s) = visible s.
Proof.
  destruct (strip_decompose s) as [a [z [E [Ha Hz]]]].
  rewrite E at 2. rewrite !visible_app, (visible_all_space a Ha), (visible_all_space z Hz).
  rewrite app_nil_r. reflexivity.
Qed.

Lemma visible_concat_strip bs : visible (concat (map strip bs)) = visible (concat bs).
Proof.
  induction bs as [|b bs IH]; [reflexivity|].
  cbn [map concat]. rewrite !visible_app, visible_strip, IH. reflexivity.
Qed.

(** ** The splitter *)

Lemma windows_concat {A} (m : nat) (l : list A) (k : nat) :
  concat (map (fun j => firstn m (skipn (j * m) l)) (seq 0 k)) = firstn (k * m) l.
Proof.
  induction k as [|k IH].
  - reflexivity.
  - rewrite seq_S, map_app, concat_app, IH. cbn [map concat Nat.add].
    rewrite app_nil_r, take_take_drop. f_equal. lia.
Qed.

Lemma subchunks_windows chunk :
  Splitter.subchunks chunk
  = map (fun j => firstn (Z.to_nat 2500) (skipn (j * Z.to_nat 2500) chunk))
      (seq 0 (Z.to_nat ((len chunk + 2500 - 1) / 2500))).
Proof.
  unfold Splitter.subchunks, range0. rewrite map_map.
  apply map_ext. intros j. unfold slice. f_equal; [f_equal; lia|f_equal; lia].
Qed.

(** The fixed-size slices of a chunk are consecutive and cover it. *)
Lemma subchunks_concat chunk : concat (Splitter.subchunks chunk) = chunk.
Proof.
  rewrite subchunks_windows, windows_concat. apply take_ge.
  unfold len. zify. Z.to_euclidean_division_equations. lia.
Qed.

Lemma subchunks_len chunk :
  Forall (fun c => len c <= 2500) (Splitter.subchunks chunk).
Proof.
  rewrite subchunks_windows. apply List.Forall_forall. intros c Hc.
  apply in_map_iff in Hc as [j [<- _]]. unfold len.
  rewrite length_take. lia.
Qed.

Lemma harden_concat chunk : concat (Splitter.harden chunk) = chunk.
Proof.
  unfold Splitter.harden. destruct (5000 <? len chunk).
  - apply subchunks_concat.
  - cbn. apply app_nil_r.
Qed.

Lemma harden_len chunk : Forall (fun c => len c <= 5000) (Splitter.harden chunk).
Proof.
  unfold Splitter.harden. destruct (Z.ltb_spec 5000 (len chunk)).
  - eapply List.Forall_impl; [|apply subchunks_len]. cbn. intros; lia.
  - repeat constructor. assumption.
Qed.

Lemma flat_map_harden_concat l : concat (flat_map Splitter.harden l) = concat l.
Proof.
  induction l as [|c l IH]; [reflexivity|].
  cbn [flat_map concat]. rewrite concat_app, harden_concat, IH. reflexivity.
Qed.

(** The loop hands over every character it reads: what it has closed, then
    what it still holds. *)
Lemma buffer_loop_concat sentences : forall bs cur,
  concat (fst (Splitter.buffer_loop sentences bs cur))
    ++ snd (Splitter.buffer_loop sentences bs cur)
  = concat bs ++ cur ++ concat (map restore sentences).
Proof.
  induction sentences as [|s ss IH]; intros bs cur; cbn [Splitter.buffer_loop].
  - cbn. rewrite app_nil_r. reflexivity.
  - fold (restore s). destruct (3000 <? len (cur ++ restore s)).
    + rewrite IH. cbn [map concat]. destruct cur as [|c cur]; cbn [truthy].
      * reflexivity.
      * rewrite concat_app. cbn [concat]. rewrite app_nil_r, <- !app_assoc. reflexivity.
    + rewrite IH. cbn [map concat]. rewrite <- !app_assoc. reflexivity.
Qed.

(** The chunks of the first loop are its buffers, each one stripped. *)
Lemma sentence_loop_buffers sentences : forall bs cur,
  Splitter.sentence_loop sentences (map strip bs) cur
  = (map strip (fst (Splitter.buffer_loop sentences bs cur)),
     snd (Splitter.buffer_loop sentences bs cur)).
Proof.
  induction sentences as [|s ss IH]; intros bs cur;
    cbn [Splitter.sentence_loop Splitter.buffer_loop].
  - reflexivity.
  - destruct (3000 <? len (cur ++ s ++ lit ". ")).
    + destruct (truthy cur).
      * rewrite <- IH, map_app. reflexivity.
      * apply IH.
    + apply IH.
Qed.

Lemma chunks_buffers texto : Splitter.chunks texto = map strip (Splitter.buffers texto).
Proof.
  unfold Splitter.chunks, Splitter.buffers.
  change (@nil pystr) with (map strip []) at 1.
  rewrite sentence_loop_buffers.
  destruct (Splitter.buffer_loop (split_dot_space texto) [] []) as [bs cur].
  cbn [fst snd]. destruct (truthy cur); [rewrite map_app|]; reflexivity.
Qed.

Lemma buffers_concat texto : concat (Splitter.buffers texto) = texto ++ lit ". ".
Proof.
  unfold Splitter.buffers.
  pose proof (buffer_loop_concat (split_dot_space texto) [] []) as H.
  destruct (Splitter.buffer_loop (split_dot_space texto) [] []) as [bs cur].
  cbn [fst snd concat app] in H. rewrite split_dot_space_join in H.
  destruct cur as [|c cur]; cbn [truthy].
  - rewrite app_nil_r in H. exact H.
  - rewrite concat_app. cbn [concat]. rewrite app_nil_r. exact H.
Qed.

Lemma final_chunks_strip texto :
  concat (Splitter.final_chunks texto) = concat (map strip (Splitter.buffers texto)).
Proof.
  unfold Splitter.final_chunks. rewrite flat_map_harden_concat, chunks_buffers.
  reflexivity.
Qed.

Lemma final_chunks_visible texto :
  visible (concat (Splitter.final_chunks texto)) = visible (texto ++ lit ". ").
Proof.
  rewrite final_chunks_strip, visible_concat_strip, buffers_concat. reflexivity.
Qed.

(** C1 (as amended). The chunks come from a partition of the text followed
    by one restored delimiter into consecutive buffers: each chunk of the
    first loop is its buffer without the whitespace at its two ends, and the
    second loop only cuts a chunk into consecutive pieces. So the chunks put
    together are the stripped buffers put together, and the characters that
    are not whitespace are those of the text and of the delimiter, once each
    and in order. *)
Theorem final_chunks_concat texto :
  exists buffers,
    concat buffers = texto ++ lit ". "
    /\ Forall2 stripped_to buffers (Splitter.chunks texto)
    /\ concat (Splitter.final_chunks texto) = concat (Splitter.chunks texto)
    /\ visible (concat (Splitter.final_chunks texto)) = visible (texto ++ lit ". ").
Proof.
  exists (Splitter.buffers texto).
  split; [apply buffers_concat|]. split; [|split].
  - rewrite chunks_buffers. induction (Splitter.buffers texto) as [|b bs IH].
    + constructor.
    + cbn [map]. constructor; [apply strip_decompose|exact IH].
  - apply flat_map_harden_concat.
  - apply final_chunks_visible.
Qed.

(** C1, refuted as stated: the space that opens [" a"] is in no chunk, and
    the chunks put together are ["a."]. *)
Lemma final_chunks_lose_whitespace :
  concat (Splitter.final_chunks (lit " a")) = lit "a."
  /\ ~ reproduces_text (lit " a").
Proof.
  split; [vm_compute; reflexivity|].
  unfold reproduces_text. vm_compute. intros [H|H]; discriminate H.
Qed.

(** The same between two chunks: the space after the first sentence is lost
    when the soft limit closes the buffer there. *)
Example final_chunks_lose_inner_space :
  Splitter.final_chunks (repeat 97%N 2999 ++ lit ". b")
  = [repeat 97%N 2999 ++ lit "."; lit "b."].
Proof. vm_compute. reflexivity. Qed.

Lemma final_chunks_bounded texto :
  Forall (fun chunk => len chunk <= 5000) (Splitter.final_chunks texto).
Proof.
  unfold Splitter.final_chunks.
  induction (Splitter.chunks texto) as [|c l IH]; cbn [flat_map].
  - constructor.
  - apply Forall_app. split; [apply harden_len|exact IH].
Qed.

(** The translation loop calls Google on these chunks only: what the engine
    would do on a longer input has no bearing on the result. *)
Lemma traducir_texto_google_short_calls
    (G1 G2 : pystr -> pystr -> pystr -> exc Translate.pyval) texto source target :
  (forall chunk, len chunk <= 5000 -> G1 source target chunk = G2 source target chunk) ->
  Translate.traducir_texto_google G1 texto source target
  = Translate.traducir_texto_google G2 texto source target.
Proof.
  intros Hagree. unfold Translate.traducir_texto_google. do 2 f_equal.
  apply map_ext_in. intros chunk Hin. unfold Translate.traducir_chunk.
  rewrite Hagree; [reflexivity|].
  pose proof (final_chunks_bounded texto) as Hall.
  rewrite List.Forall_forall in Hall. apply Hall. exact Hin.
Qed.

(** C2. No chunk of the splitter is longer than 5000, and the translation
    loop hands Google these chunks and nothing else: two engines that agree
    on every input of at most 5000 characters give the same translation. *)
Theorem final_chunks_hard_limit texto :
  Forall (fun chunk => len chunk <= 5000) (Splitter.final_chunks texto)
  /\ forall (G1 G2 : pystr -> pystr -> pystr -> exc Translate.pyval) source target,
      (forall chunk, len chunk <= 5000 ->
                     G1 source target chunk = G2 source target chunk) ->
      Translate.traducir_texto_google G1 texto source target
      = Translate.traducir_texto_google G2 texto source target.
Proof.
  split; [apply final_chunks_bounded|].
  intros G1 G2 source target. apply traducir_texto_google_short_calls.
Qed.

Lemma final_chunks_hard_limit_witness :
  Translate.traducir_texto_google (engine_says "hola") one_long_sentence
    (lit "en") (lit "es")
  = Translate.traducir_texto_google (engine_up_to 5000 "hola") one_long_sentence
      (lit "en") (lit "es").
Proof.
  apply (proj2 (final_chunks_hard_limit one_long_sentence)).
  intros chunk Hlen. unfold engine_up_to, engine_says.
  destruct (Z.leb_spec (len chunk) 5000); [reflexivity|lia].
Defined.

(** ** The two scenarios of the specification *)

Lemma buffer_loop_bounded sentences : forall bs cur,
  Forall (fun s => len s + 2 <= 3000) sentences ->
  Forall (fun b => len b <= 3000) bs ->
  len cur <= 3000 ->
  Forall (fun b => len b <= 3000) (fst (Splitter.buffer_loop sentences bs cur))
  /\ len (snd (Splitter.buffer_loop sentences bs cur)) <= 3000.
Proof.
  induction sentences as [|s ss IH]; intros bs cur Hss Hbs Hcur;
    cbn [Splitter.buffer_loop].
  - auto.
  - inversion Hss as [|? ? Hs Hss']; subst.
    destruct (Z.ltb_spec 3000 (len (cur ++ s ++ lit ". "))) as [Hlt|Hle].
    + apply IH; [assumption| |].
      * destruct (truthy cur); [|assumption].
        apply Forall_app. split; [assumption|]. repeat constructor. assumption.
      * rewrite len_app. change (len (lit ". ")) with 2. lia.
    + apply IH; assumption.
Qed.

Lemma buffers_bounded texto :
  clean_boundaries texto = true ->
  Forall (fun b => len b <= 3000) (Splitter.buffers texto).
Proof.
  intros Hclean. unfold Splitter.buffers.
  assert (Hss : Forall (fun s => len s + 2 <= 3000) (split_dot_space texto)).
  { apply List.Forall_forall. intros s Hs.
    unfold clean_boundaries in Hclean. rewrite forallb_forall in Hclean.
    apply Z.leb_le, Hclean, Hs. }
  assert (H0 : len (@nil N) <= 3000) by (unfold len; cbn [length]; lia).
  match goal with
  | |- context [Splitter.buffer_loop ?ss ?b ?c] =>
      generalize (buffer_loop_bounded ss b c Hss (List.Forall_nil _) H0);
      destruct (Splitter.buffer_loop ss b c) as [bs cur]
  end.
  intros [Hb Hc]. revert Hb Hc.
  cbn [fst snd]. intros Hb Hc. destruct (truthy cur); [|assumption].
  apply Forall_app. split; [assumption|]. repeat constructor. assumption.
Qed.

Lemma len_concat_bounded (n : Z) (bs : list pystr) :
  Forall (fun b => len b <= n) bs -> len (concat bs) <= n * len bs.
Proof.
  induction 1 as [|b bs Hb _ IH].
  - unfold len. cbn [concat length]. lia.
  - cbn [concat]. rewrite len_app. unfold len in *. cbn [length]. lia.
Qed.

Lemma flat_map_harden_short l :
  Forall (fun c => len c <= 5000) l -> flat_map Splitter.harden l = l.
Proof.
  induction 1 as [|c l Hc _ IH]; [reflexivity|].
  cbn [flat_map]. rewrite IH. unfold Splitter.harden.
  destruct (Z.ltb_spec 5000 (len c)); [lia|reflexivity].
Qed.

Lemma rstrip_delimiter s : rstrip (s ++ lit ". ") = s ++ lit ".".
Proof.
  unfold rstrip. rewrite rev_app_distr. cbn [lit rev app lstrip].
  change (py_isspace (N_of_ascii " ")) with true.
  change (py_isspace (N_of_ascii ".")) with false.
  cbn [rev]. rewrite rev_involutive. reflexivity.
Qed.

Lemma strip_delimiter s :
  starts_visible s = true -> strip (s ++ lit ". ") = s ++ lit ".".
Proof.
  destruct s as [|c s]; [discriminate|]. cbn [starts_visible]. intros Hc.
  unfold strip. cbn [app lstrip].
  destruct (py_isspace c); [discriminate|]. apply (rstrip_delimiter (c :: s)).
Qed.

Lemma clean_text_chunks texto :
  len texto = 12000 -> clean_boundaries texto = true ->
  5 <= len (Splitter.final_chunks texto)
  /\ Forall (fun chunk => len chunk <= 3000) (Splitter.final_chunks texto).
Proof.
  intros Hlen Hclean.
  pose proof (buffers_bounded texto Hclean) as Hb.
  assert (Hchunks : Forall (fun c => len c <= 3000) (Splitter.chunks texto)).
  { rewrite chunks_buffers. apply Forall_map.
    eapply List.Forall_impl; [|exact Hb]. cbn. intros b Hle.
    pose proof (len_strip_le b). lia. }
  assert (Hfinal : Splitter.final_chunks texto = Splitter.chunks texto).
  { apply flat_map_harden_short.
    eapply List.Forall_impl; [|exact Hchunks]. cbn. intros; lia. }
  rewrite Hfinal. split; [|exact Hchunks].
  pose proof (len_concat_bounded 3000 _ Hb) as Hsum.
  rewrite buffers_concat, len_app, Hlen in Hsum.
  change (len (lit ". ")) with 2 in Hsum.
  rewrite chunks_buffers. unfold len in *. rewrite length_map. lia.
Qed.

Lemma long_sentence_chunks texto :
  len texto = 6000 -> contains_dot_space texto = false ->
  starts_visible texto = true ->
  map len (Splitter.final_chunks texto) = [2500; 2500; 1001].
Proof.
  intros Hlen Hno Hvis.
  assert (Hchunks : Splitter.chunks texto = [texto ++ lit "."]).
  { unfold Splitter.chunks. rewrite (split_no_separator _ Hno).
    cbn [Splitter.sentence_loop app truthy].
    destruct (Z.ltb_spec 3000 (len (texto ++ lit ". "))) as [_|Hle].
    - destruct texto as [|c t]; [discriminate|].
      cbn [app truthy]. apply (f_equal (fun x => [x])).
      apply (strip_delimiter (c :: t) Hvis).
    - rewrite len_app, Hlen in Hle. change (len (lit ". ")) with 2 in Hle. lia. }
  assert (Hlen' : len (texto ++ lit ".") = 6001).
  { rewrite len_app, Hlen. reflexivity. }
  unfold Splitter.final_chunks. rewrite Hchunks. cbn [flat_map].
  rewrite app_nil_r. unfold Splitter.harden. rewrite Hlen'.
  change (5000 <? 6001) with true. cbv iota.
  rewrite subchunks_windows, Hlen'.
  change (Z.to_nat ((6001 + 2500 - 1) / 2500)) with 3%nat.
  cbn [seq map]. unfold len in *.
  rewrite !length_take, !length_drop. repeat f_equal; lia.
Qed.

(** C10 (as amended). A text of 12,000 characters whose sentences all fit
    the soft limit with their delimiter gives at least five chunks, none
    longer than 3000: the delimiter restored after the last sentence makes
    12,002 characters to place. A text of 6,000 characters without a
    delimiter, opening with a character that is not whitespace, gives three
    slices of 2500, 2500 and 1001 characters: the restored full stop is in
    the last one. *)
Theorem splitting_scenarios (clean long : pystr) :
  len clean = 12000 -> clean_boundaries clean = true ->
  len long = 6000 -> contains_dot_space long = false ->
  starts_visible long = true ->
  5 <= len (Splitter.final_chunks clean)
  /\ Forall (fun chunk => len chunk <= 3000) (Splitter.final_chunks clean)
  /\ map len (Splitter.final_chunks long) = [2500; 2500; 1001].
Proof.
  intros H1 H2 H3 H4 H5.
  destruct (clean_text_chunks clean H1 H2) as [Hn Hall].
  split; [exact Hn|]. split; [exact Hall|].
  apply long_sentence_chunks; assumption.
Qed.

Lemma splitting_scenarios_witness :
  (len twelve_sentences = 12000 /\ clean_boundaries twelve_sentences = true
   /\ len one_long_sentence = 6000 /\ contains_dot_space one_long_sentence = false
   /\ starts_visible one_long_sentence = true)
  /\ 5 <= len (Splitter.final_chunks twelve_sentences)
  /\ Forall (fun chunk => len chunk <= 3000) (Splitter.final_chunks twelve_sentences)
  /\ map len (Splitter.final_chunks one_long_sentence) = [2500; 2500; 1001].
Proof.
  split.
  - repeat apply conj; vm_compute; reflexivity.
  - apply (splitting_scenarios twelve_sentences one_long_sentence);
      vm_compute; reflexivity.
Defined.

(** C10, refuted as stated: twelve sentences of 1000 characters with their
    delimiters make five chunks, the fifth being the full stop restored after
    the empty last sentence; and 6,000 letters make slices of 2500, 2500 and
    1001 characters. *)
Lemma splitting_scenarios_as_stated_fail :
  len twelve_sentences = 12000
  /\ clean_boundaries twelve_sentences = true
  /\ map len (Splitter.final_chunks twelve_sentences) = [2999; 2999; 2999; 2999; 1]
  /\ len (Splitter.final_chunks twelve_sentences) <> 4
  /\ len one_long_sentence = 6000
  /\ contains_dot_space one_long_sentence = false
  /\ map len (Splitter.final_chunks one_long_sentence) = [2500; 2500; 1001]
  /\ map len (Splitter.final_chunks one_long_sentence) <> [2500; 2500; 1000].
Proof.
  repeat apply conj; vm_compute; solve [reflexivity | discriminate].
Qed.

(** The figures of the specification are met by other inputs: four chunks
    when every sentence overflows the soft limit by its delimiter, so that
    each buffer holds one sentence and is stripped to 3000 characters or
    less; slices of 2500, 2500 and 1000 when the long sentence opens with a
    space, which [strip] removes. *)
Example four_chunks_of_long_sentences :
  len four_long_sentences = 12000
  /\ clean_boundaries four_long_sentences = false
  /\ map len (Splitter.final_chunks four_long_sentences) = [3000; 3000; 3000; 2998].
Proof. repeat apply conj; vm_compute; reflexivity. Qed.

Example indented_sentence_slices :
  len indented_long_sentence = 6000
  /\ contains_dot_space indented_long_sentence = false
  /\ map len (Splitter.final_chunks indented_long_sentence) = [2500; 2500; 1000].
Proof. repeat apply conj; vm_compute; reflexivity. Qed.

(** ** The codec *)

Lemma decode_utf8_char c b r :
  utf8_char c = Return b -> decode (b ++ r) = (s ← decode r; Return (c :: s)).
Proof.
  unfold utf8_char.
  destruct (N.ltb_spec c 128) as [H|H].
  { intros [= <-]. cbn [app decode]. apply N.ltb_lt in H. rewrite H. reflexivity. }
  destruct (N.ltb_spec c 2048).
  { intros [= <-]. cbn [app decode]; unfold is_cont.
    repeat decide_test. cbn [andb].
    replace ((192 + c / 64 - 192) * 64 + (128 + c mod 64 - 128))%N with c by divlia.
    repeat decide_test. reflexivity. }
  destruct (N.ltb_spec c 65536).
  { destruct (N.leb_spec 55296 c); destruct (N.leb_spec c 57343); cbn [andb];
      try discriminate; try (exfalso; lia);
      intros [= <-]; cbn [app decode]; unfold is_cont;
      repeat decide_test; cbn [andb];
      replace ((224 + c / 4096 - 224) * 4096 + (128 + (c / 64) mod 64 - 128) * 64
               + (128 + c mod 64 - 128))%N with c by divlia;
      repeat decide_test; reflexivity. }
  destruct (N.ltb_spec c 1114112); [|discriminate].
  intros [= <-]. cbn [app decode]; unfold is_cont.
  repeat decide_test. cbn [andb].
  replace ((240 + c / 262144 - 240) * 262144 + (128 + (c / 4096) mod 64 - 128) * 4096
           + (128 + (c / 64) mod 64 - 128) * 64 + (128 + c mod 64 - 128))%N
    with c by divlia.
  repeat decide_test. reflexivity.
Qed.

(** What [encode] accepts, [decode] reads back. *)
Lemma decode_encode s b : encode s = Return b -> decode b = Return s.
Proof.
  revert b. induction s as [|c s IH]; intros b; cbn [encode].
  - intros [= <-]. reflexivity.
  - destruct (utf8_char c) as [bc|] eqn:Hc; [|discriminate].
    cbn. destruct (encode s) as [bs|]; [|discriminate]. cbn.
    intros [= <-]. rewrite (decode_utf8_char _ _ _ Hc), (IH _ eq_refl). reflexivity.
Qed.

Lemma utf8_char_truthy c b : utf8_char c = Return b -> truthy b = true.
Proof.
  unfold utf8_char.
  repeat match goal with |- context [if ?t then _ else _] => destruct t end;
    intros [= <-]; reflexivity.
Qed.

Lemma encode_truthy s b : encode s = Return b -> truthy b = truthy s.
Proof.
  destruct s as [|c s]; cbn [encode].
  - intros [= <-]. reflexivity.
  - destruct (utf8_char c) as [bc|] eqn:Hc; [|discriminate].
    cbn. destruct (encode s) as [bs|]; [|discriminate]. cbn.
    intros [= <-]. apply utf8_char_truthy in Hc.
    destruct bc; [discriminate|reflexivity].
Qed.

(** ** Fallback between the engines *)

Section EngineFacts.

Variable GoogleTranslator : pystr -> pystr -> pystr -> exc Translate.pyval.
Variable deepl_translate : pystr -> pystr -> pystr -> pystr -> exc pystr.
Variable DEEPL_API_KEY : option pystr.

Local Abbreviation google := (Translate.traducir_texto_google GoogleTranslator).
Local Abbreviation engine_call :=
  (Translate.traducir_texto_engine GoogleTranslator deepl_translate DEEPL_API_KEY).

Lemma traducir_texto_google_returns texto source target :
  exists r, google texto source target = Return r.
Proof.
  unfold Translate.traducir_texto_google, try_except.
  destruct (Translate.join _); eauto.
Qed.

Lemma traducir_texto_engine_returns texto source target engine :
  exists r, engine_call texto source target engine = Return r.
Proof.
  unfold Translate.traducir_texto_engine, try_except.
  destruct (bool_decide (engine = lit "deepl") && Translate.key_truthy DEEPL_API_KEY).
  - destruct (deepl_translate _ _ _ _); [eauto|].
    destruct (negb _); [apply traducir_texto_google_returns|eauto].
  - destruct (traducir_texto_google_returns texto source target) as [r ->]. eauto.
Qed.

(** Without a key, or for any engine but DeepL, the text goes to Google. *)
Lemma engine_unavailable texto source target engine :
  bool_decide (engine = lit "deepl") && Translate.key_truthy DEEPL_API_KEY = false ->
  engine_call texto source target engine = google texto source target.
Proof.
  intros Hcond. unfold Translate.traducir_texto_engine. rewrite Hcond.
  destruct (traducir_texto_google_returns texto source target) as [r ->].
  reflexivity.
Qed.

(** When the DeepL call raises, the text goes to Google. *)
Lemma engine_raises texto source target engine :
  bool_decide (engine = lit "deepl") && Translate.key_truthy DEEPL_API_KEY = true ->
  deepl_translate (default [] DEEPL_API_KEY) texto source target = Raise ->
  engine_call texto source target engine = google texto source target.
Proof.
  intros Hcond Hraise. unfold Translate.traducir_texto_engine.
  rewrite Hcond, Hraise. cbn [try_except].
  apply andb_true_iff in Hcond as [He _]. apply bool_decide_eq_true in He.
  subst engine. reflexivity.
Qed.

Lemma join_all_kept chunks source target :
  Forall (fun chunk => GoogleTranslator source target chunk = Raise) chunks ->
  Translate.join (map (Translate.traducir_chunk GoogleTranslator source target) chunks)
  = Return (concat chunks).
Proof.
  induction 1 as [|c l Hc _ IH]; [reflexivity|].
  cbn [map]. unfold Translate.traducir_chunk at 1. rewrite Hc.
  cbn [Translate.join]. rewrite IH. reflexivity.
Qed.

(** When Google raises on every chunk, the chunks themselves are put
    together. *)
Lemma google_all_chunks_fail texto source target :
  Forall (fun chunk => GoogleTranslator source target chunk = Raise)
    (Splitter.final_chunks texto) ->
  google texto source target = Return (concat (Splitter.final_chunks texto)).
Proof.
  intros Hall. unfold Translate.traducir_texto_google.
  rewrite (join_all_kept _ _ _ Hall). reflexivity.
Qed.

(** A failure outside the per-chunk handler gives the text back. *)
Lemma google_whole_text_fails texto source target :
  Translate.join
    (map (Translate.traducir_chunk GoogleTranslator source target)
       (Splitter.final_chunks texto)) = Raise ->
  google texto source target = Return texto.
Proof.
  intros Hj. unfold Translate.traducir_texto_google. rewrite Hj. reflexivity.
Qed.

End EngineFacts.

(** The chunks put together are never the text itself: they end with the
    restored full stop. *)
Lemma chunks_never_the_text texto :
  concat (Splitter.final_chunks texto) <> texto.
Proof.
  intros Heq. pose proof (final_chunks_visible texto) as Hvis.
  rewrite Heq, visible_app in Hvis.
  apply (f_equal (@length N)) in Hvis. rewrite length_app in Hvis.
  change (length (visible (lit ". "))) with 1%nat in Hvis. lia.
Qed.

(** C3 (as amended). When the requested engine is not DeepL with a key, or
    the DeepL call raises, the text goes to Google, and the call returns
    without an exception. What Google cannot translate is kept as the
    splitter cut it: when its call raises on every chunk, the result is the
    chunks put together; the text itself is given back only when the failure
    is outside the per-chunk handler. *)
Theorem engine_fallback
    (GoogleTranslator : pystr -> pystr -> pystr -> exc Translate.pyval)
    (deepl_translate : pystr -> pystr -> pystr -> pystr -> exc pystr)
    (DEEPL_API_KEY : option pystr) (texto source target engine : pystr) :
  bool_decide (engine = lit "deepl") && Translate.key_truthy DEEPL_API_KEY = false
  \/ deepl_translate (default [] DEEPL_API_KEY) texto source target = Raise ->
  Translate.traducir_texto_engine GoogleTranslator deepl_translate DEEPL_API_KEY
    texto source target engine
  = Translate.traducir_texto_google GoogleTranslator texto source target
  /\ (exists r,
       Translate.traducir_texto_google GoogleTranslator texto source target = Return r)
  /\ (Forall (fun chunk => GoogleTranslator source target chunk = Raise)
        (Splitter.final_chunks texto) ->
      Translate.traducir_texto_google GoogleTranslator texto source target
      = Return (concat (Splitter.final_chunks texto)))
  /\ (Translate.join
        (map (Translate.traducir_chunk GoogleTranslator source target)
           (Splitter.final_chunks texto)) = Raise ->
      Translate.traducir_texto_google GoogleTranslator texto source target
      = Return texto).
Proof.
  intros Hdown. split; [|split; [|split]].
  - destruct (bool_decide (engine = lit "deepl") && Translate.key_truthy DEEPL_API_KEY)
      eqn:Hcond.
    + destruct Hdown as [|Hraise]; [discriminate|].
      apply engine_raises; assumption.
    + apply engine_unavailable. exact Hcond.
  - apply traducir_texto_google_returns.
  - apply google_all_chunks_fail.
  - apply google_whole_text_fails.
Qed.

Lemma engine_fallback_witness :
  Translate.traducir_texto_engine (engine_says "hola") deepl_down (Some (lit "key"))
    (lit "hello") (lit "en") (lit "es") (lit "deepl")
  = Translate.traducir_texto_google (engine_says "hola") (lit "hello") (lit "en") (lit "es").
Proof.
  apply (engine_fallback (engine_says "hola") deepl_down (Some (lit "key"))
           (lit "hello") (lit "en") (lit "es") (lit "deepl")).
  right. reflexivity.
Defined.

(** C3, refuted as stated: with both engines down, ["hola"] comes back as
    ["hola."]. *)
Lemma engines_down_text_not_intact :
  Translate.traducir_texto_engine engine_down deepl_down (Some (lit "key"))
    (lit "hola") (lit "en") (lit "es") (lit "deepl")
  = Return (lit "hola.")
  /\ lit "hola." <> lit "hola".
Proof. split; [vm_compute; reflexivity|discriminate]. Qed.

(** With Google down the result is never the text that came in. *)
Lemma google_down_changes_text texto source target :
  Translate.traducir_texto_google engine_down texto source target <> Return texto.
Proof.
  rewrite google_all_chunks_fail.
  - intros [= H]. exact (chunks_never_the_text texto H).
  - apply List.Forall_forall. reflexivity.
Qed.

(** A value that is not a [str] among the translations gives the text back. *)
Example google_not_a_string :
  Translate.traducir_texto_google engine_none (lit " hola") (lit "en") (lit "es")
  = Return (lit " hola").
Proof. reflexivity. Qed.

(** ** The cache *)

Section CacheFacts.

Variable GoogleTranslator : pystr -> pystr -> pystr -> exc Translate.pyval.
Variable deepl_translate : pystr -> pystr -> pystr -> pystr -> exc pystr.
Variable DEEPL_API_KEY : option pystr.
Variable md5_hexdigest : pybytes -> pystr.
Context {S : Type} `{Cache.RedisClient S}.

Local Abbreviation cached_call :=
  (Cache.traducir_con_cache GoogleTranslator deepl_translate DEEPL_API_KEY md5_hexdigest).
Local Abbreviation engine_call :=
  (Translate.traducir_texto_engine GoogleTranslator deepl_translate DEEPL_API_KEY).

(** An exception of [get] leaves [traducir_con_cache]. *)
Lemma get_raises_propagates now (rc : S) texto source target engine cache_key :
  truthy (strip texto) = true ->
  Cache.get_cache_key md5_hexdigest texto source target engine = Return cache_key ->
  Cache.redis_get now rc cache_key = Raise ->
  cached_call now rc texto source target engine = (Raise, rc).
Proof.
  intros Htext Hkey Hget. unfold Cache.traducir_con_cache.
  rewrite Htext, Hkey, Hget. reflexivity.
Qed.

(** An exception of [setex] leaves it too, with the translation. *)
Lemma setex_raises_propagates now (rc : S) texto source target engine cache_key
    cached result :
  truthy (strip texto) = true ->
  Cache.get_cache_key md5_hexdigest texto source target engine = Return cache_key ->
  Cache.redis_get now rc cache_key = Return cached ->
  Cache.cached_truthy cached = false ->
  engine_call texto source target engine = Return result ->
  truthy result = true ->
  Cache.redis_setex now rc cache_key 86400 result = Raise ->
  cached_call now rc texto source target engine = (Raise, rc).
Proof.
  intros Htext Hkey Hget Hmiss Hres Htr Hset. unfold Cache.traducir_con_cache.
  rewrite Htext, Hkey, Hget, Hmiss, Hres, Htr, Hset. reflexivity.
Qed.

(** When the store answers, a miss is translated, stored and returned. *)
Lemma miss_translates_and_stores now (rc rc' : S) texto source target engine
    cache_key cached result :
  truthy (strip texto) = true ->
  Cache.get_cache_key md5_hexdigest texto source target engine = Return cache_key ->
  Cache.redis_get now rc cache_key = Return cached ->
  Cache.cached_truthy cached = false ->
  engine_call texto source target engine = Return result ->
  truthy result = true ->
  Cache.redis_setex now rc cache_key 86400 result = Return rc' ->
  cached_call now rc texto source target engine = (Return result, rc').
Proof.
  intros Htext Hkey Hget Hmiss Hres Htr Hset. unfold Cache.traducir_con_cache.
  rewrite Htext, Hkey, Hget, Hmiss, Hres, Htr, Hset. reflexivity.
Qed.

End CacheFacts.

(** C6 (as amended). [traducir_con_cache] has no handler around the backing
    store. For a text that is not blank: when [get] raises, the exception
    leaves the call, whatever the engines would answer; when [get] misses and
    [setex] raises on the translation, the exception leaves the call and the
    translation is not returned; when neither raises, the translation of a
    miss is stored and returned. *)
Theorem cache_failures_propagate
    (GoogleTranslator : pystr -> pystr -> pystr -> exc Translate.pyval)
    (deepl_translate : pystr -> pystr -> pystr -> pystr -> exc pystr)
    (DEEPL_API_KEY : option pystr) (md5_hexdigest : pybytes -> pystr)
    (S : Type) (client : Cache.RedisClient S) (now : Z) (rc : S)
    (texto source target engine cache_key : pystr) :
  truthy (strip texto) = true ->
  Cache.get_cache_key md5_hexdigest texto source target engine = Return cache_key ->
  (Cache.redis_get now rc cache_key = Raise ->
   Cache.traducir_con_cache GoogleTranslator deepl_translate DEEPL_API_KEY
     md5_hexdigest now rc texto source target engine = (Raise, rc))
  /\ (forall cached result,
       Cache.redis_get now rc cache_key = Return cached ->
       Cache.cached_truthy cached = false ->
       Translate.traducir_texto_engine GoogleTranslator deepl_translate
         DEEPL_API_KEY texto source target engine = Return result ->
       truthy result = true ->
       (Cache.redis_setex now rc cache_key 86400 result = Raise ->
        Cache.traducir_con_cache GoogleTranslator deepl_translate DEEPL_API_KEY
          md5_hexdigest now rc texto source target engine = (Raise, rc))
       /\ (forall rc',
            Cache.redis_setex now rc cache_key 86400 result = Return rc' ->
            Cache.traducir_con_cache GoogleTranslator deepl_translate DEEPL_API_KEY
              md5_hexdigest now rc texto source target engine = (Return result, rc'))).
Proof.
  intros Htext Hkey. split.
  - intros Hget. eapply get_raises_propagates; eassumption.
  - intros cached result Hget Hmiss Hres Htr. split.
    + intros Hset. eapply setex_raises_propagates; eassumption.
    + intros rc' Hset. eapply miss_translates_and_stores; eassumption.
Qed.

Lemma cache_failures_propagate_witness :
  Cache.traducir_con_cache (engine_says "hola") deepl_down None hexdigest_of_bytes
    0 Unreachable (lit "hello") (lit "en") (lit "es") (lit "google")
  = (Raise, Unreachable).
Proof.
  refine (proj1 (cache_failures_propagate (engine_says "hola") deepl_down None
            hexdigest_of_bytes UnreachableRedis _ 0 Unreachable
            (lit "hello") (lit "en") (lit "es") (lit "google")
            (hexdigest_of_bytes (lit "hello|en|es|google")) _ _) _);
    reflexivity.
Defined.

(** C6, refuted as stated: with a store that cannot be reached the call
    raises although the engine would answer, and with a store that refuses
    writes the translation is lost to the exception of [setex]. *)
Lemma cache_failure_is_fatal :
  Translate.traducir_texto_engine (engine_says "hola") deepl_down None
    (lit "hello") (lit "en") (lit "es") (lit "google") = Return (lit "hola")
  /\ fst (Cache.traducir_con_cache (engine_says "hola") deepl_down None
            hexdigest_of_bytes 0 Unreachable
            (lit "hello") (lit "en") (lit "es") (lit "google")) = Raise
  /\ fst (Cache.traducir_con_cache (engine_says "hola") deepl_down None
            hexdigest_of_bytes 0 ReadOnly
            (lit "hello") (lit "en") (lit "es") (lit "google")) = Raise.
Proof. repeat apply conj; vm_compute; reflexivity. Qed.

Section MockRedisFacts.

Variable GoogleTranslator : pystr -> pystr -> pystr -> exc Translate.pyval.
Variable deepl_translate : pystr -> pystr -> pystr -> pystr -> exc pystr.
Variable DEEPL_API_KEY : option pystr.
Variable md5_hexdigest : pybytes -> pystr.

Local Abbreviation cached_call :=
  (Cache.traducir_con_cache GoogleTranslator deepl_translate DEEPL_API_KEY md5_hexdigest).

(** A hit on the in-process map: the stored bytes are decoded. *)
Lemma mock_hit now (rc : Cache.MockRedis) texto source target engine cache_key b :
  truthy (strip texto) = true ->
  Cache.get_cache_key md5_hexdigest texto source target engine = Return cache_key ->
  Cache.MockRedis_get rc cache_key = Some b ->
  truthy b = true ->
  cached_call now rc texto source target engine = (decode b, rc).
Proof.
  intros Htext Hkey Hget Hb. unfold Cache.traducir_con_cache.
  rewrite Htext, Hkey. cbn. rewrite Hget. cbn.
  rewrite Hb. reflexivity.
Qed.

(** A miss on the in-process map, when the call returns something truthy:
    its bytes are in the map afterwards. *)
Lemma mock_miss_stores now (rc rc' : Cache.MockRedis) texto source target engine
    cache_key result :
  truthy (strip texto) = true ->
  Cache.get_cache_key md5_hexdigest texto source target engine = Return cache_key ->
  Cache.cached_truthy (Cache.MockRedis_get rc cache_key) = false ->
  cached_call now rc texto source target engine = (Return result, rc') ->
  truthy result = true ->
  exists b, encode result = Return b /\ Cache.MockRedis_get rc' cache_key = Some b.
Proof.
  intros Htext Hkey Hmiss. unfold Cache.traducir_con_cache.
  rewrite Htext, Hkey. cbn. rewrite Hmiss.
  destruct (Translate.traducir_texto_engine _ _ _ _ _ _ _) as [r|]; [|discriminate].
  destruct (truthy r) eqn:Er.
  - unfold Cache.MockRedis_setex. destruct (encode r) as [b|] eqn:Eb; cbn; [|discriminate].
    intros [= <- <-] _. exists b. unfold Cache.MockRedis_get. cbn [Cache.data].
    rewrite lookup_insert_eq. auto.
  - intros [= <- <-]. congruence.
Qed.

End MockRedisFacts.

(** C9 (as amended). The in-process map keeps no time: [setex] drops its
    [time] argument and [get] reads the dictionary. A translation that
    [traducir_con_cache] returned once is returned again at any later time,
    whatever the engines would then answer, and the map stays as it is. *)
Theorem mock_redis_never_expires
    (GoogleTranslator GoogleTranslator' : pystr -> pystr -> pystr -> exc Translate.pyval)
    (deepl_translate deepl_translate' : pystr -> pystr -> pystr -> pystr -> exc pystr)
    (DEEPL_API_KEY DEEPL_API_KEY' : option pystr) (md5_hexdigest : pybytes -> pystr)
    (now later : Z) (redis_client redis_client' : Cache.MockRedis)
    (texto source target engine result : pystr) :
  Cache.traducir_con_cache GoogleTranslator deepl_translate DEEPL_API_KEY
    md5_hexdigest now redis_client texto source target engine
  = (Return result, redis_client') ->
  truthy result = true ->
  Cache.traducir_con_cache GoogleTranslator' deepl_translate' DEEPL_API_KEY'
    md5_hexdigest later redis_client' texto source target engine
  = (Return result, redis_client').
Proof.
  intros Hfirst Htr.
  destruct (truthy (strip texto)) eqn:Htext.
  2:{ unfold Cache.traducir_con_cache in Hfirst. rewrite Htext in Hfirst.
      cbn in Hfirst. injection Hfirst as <- _. discriminate. }
  destruct (Cache.get_cache_key md5_hexdigest texto source target engine)
    as [cache_key|] eqn:Hkey.
  2:{ unfold Cache.traducir_con_cache in Hfirst. rewrite Htext, Hkey in Hfirst.
      discriminate. }
  destruct (Cache.cached_truthy (Cache.MockRedis_get redis_client cache_key)) eqn:Hc.
  - destruct (Cache.MockRedis_get redis_client cache_key) as [b|] eqn:Hget; [|discriminate].
    cbn in Hc.
    rewrite (mock_hit _ _ _ _ _ _ _ _ _ _ cache_key b Htext Hkey Hget Hc) in Hfirst.
    injection Hfirst as Hdec <-.
    rewrite (mock_hit _ _ _ _ _ _ _ _ _ _ cache_key b Htext Hkey Hget Hc).
    rewrite Hdec. reflexivity.
  - destruct (mock_miss_stores _ _ _ _ _ _ _ _ _ _ _ _ _ Htext Hkey Hc Hfirst Htr)
      as [b [Henc Hget]].
    assert (Hb : truthy b = true) by (rewrite (encode_truthy _ _ Henc); exact Htr).
    rewrite (mock_hit _ _ _ _ _ _ _ _ _ _ cache_key b Htext Hkey Hget Hb).
    rewrite (decode_encode _ _ Henc). reflexivity.
Qed.

Lemma mock_redis_never_expires_witness :
  let first_call :=
    Cache.traducir_con_cache (engine_says "hola") deepl_down None hexdigest_of_bytes
      0 Cache.MockRedis_init (lit "hello") (lit "en") (lit "es") (lit "google") in
  Cache.traducir_con_cache (engine_says "adios") deepl_down None hexdigest_of_bytes
    (0 + 86400 + 1) (snd first_call) (lit "hello") (lit "en") (lit "es") (lit "google")
  = (Return (lit "hola"), snd first_call).
Proof.
  intros first_call.
  apply (mock_redis_never_expires (engine_says "hola") (engine_says "adios")
           deepl_down deepl_down None None hexdigest_of_bytes 0 (0 + 86400 + 1)
           Cache.MockRedis_init (snd first_call)
           (lit "hello") (lit "en") (lit "es") (lit "google") (lit "hola")).
  - vm_compute. reflexivity.
  - reflexivity.
Defined.

(** C9, refuted as stated: an entry written at second 0 is served at second
    86,401, although the engine would by then answer something else. *)
Lemma mock_redis_serves_old_entry :
  let first_call :=
    Cache.traducir_con_cache (engine_says "hola") deepl_down None hexdigest_of_bytes
      0 Cache.MockRedis_init (lit "hello") (lit "en") (lit "es") (lit "google") in
  fst first_call = Return (lit "hola")
  /\ Translate.traducir_texto_engine (engine_says "adios") deepl_down None
       (lit "hello") (lit "en") (lit "es") (lit "google") = Return (lit "adios")
  /\ fst (Cache.traducir_con_cache (engine_says "adios") deepl_down None
            hexdigest_of_bytes (0 + 86400 + 1) (snd first_call)
            (lit "hello") (lit "en") (lit "es") (lit "google"))
     = Return (lit "hola").
Proof. repeat apply conj; vm_compute; reflexivity. Qed.

(** ** The rate limiter *)

Lemma check_rate_limit_other now usuario_id other (last_usage : gmap Z Z) :
  other <> usuario_id ->
  snd (RateLimit.check_rate_limit now usuario_id last_usage) !! other
  = last_usage !! other.
Proof.
  intros Hne. unfold RateLimit.check_rate_limit.
  destruct (last_usage !! usuario_id) as [last|].
  - destruct (now - last <? RateLimit.minutes 1); cbn [snd];
      [reflexivity|apply lookup_insert_ne; congruence].
  - cbn [snd]. apply lookup_insert_ne. congruence.
Qed.

Lemma check_rate_limit_answer now usuario_id (m m' : gmap Z Z) :
  m !! usuario_id = m' !! usuario_id ->
  fst (RateLimit.check_rate_limit now usuario_id m)
  = fst (RateLimit.check_rate_limit now usuario_id m').
Proof.
  intros Heq. unfold RateLimit.check_rate_limit. rewrite Heq.
  destruct (m' !! usuario_id) as [last|]; [|reflexivity].
  destruct (now - last <? RateLimit.minutes 1); reflexivity.
Qed.

Lemma check_rate_limit_records now usuario_id (last_usage : gmap Z Z) :
  fst (RateLimit.check_rate_limit now usuario_id last_usage) = true ->
  snd (RateLimit.check_rate_limit now usuario_id last_usage) !! usuario_id = Some now.
Proof.
  unfold RateLimit.check_rate_limit.
  destruct (last_usage !! usuario_id) as [last|].
  - destruct (now - last <? RateLimit.minutes 1); cbn [fst snd];
      [discriminate|]. intros _. apply lookup_insert_eq.
  - intros _. apply lookup_insert_eq.
Qed.

Lemma check_rate_limit_rejects_unchanged now usuario_id (last_usage : gmap Z Z) :
  fst (RateLimit.check_rate_limit now usuario_id last_usage) = false ->
  snd (RateLimit.check_rate_limit now usuario_id last_usage) = last_usage.
Proof.
  unfold RateLimit.check_rate_limit.
  destruct (last_usage !! usuario_id) as [last|].
  - destruct (now - last <? RateLimit.minutes 1); cbn [fst snd];
      [reflexivity|discriminate].
  - discriminate.
Qed.

(** C5. Within 60 seconds of the recorded submission the call answers
    [False] and changes nothing; from 60 seconds on, or for a submitter
    without a record, it answers [True] and records the clock reading. A
    call for one submitter leaves the record of every other as it is, and
    with it the answer they get. *)
Theorem check_rate_limit_spec (now usuario_id : Z) (last_usage : gmap Z Z) :
  (forall last,
     last_usage !! usuario_id = Some last -> now - last < seconds 60 ->
     RateLimit.check_rate_limit now usuario_id last_usage = (false, last_usage))
  /\ (forall last,
       last_usage !! usuario_id = Some last -> seconds 60 <= now - last ->
       RateLimit.check_rate_limit now usuario_id last_usage
       = (true, <[usuario_id := now]> last_usage))
  /\ (last_usage !! usuario_id = None ->
      RateLimit.check_rate_limit now usuario_id last_usage
      = (true, <[usuario_id := now]> last_usage))
  /\ (fst (RateLimit.check_rate_limit now usuario_id last_usage) = true ->
      snd (RateLimit.check_rate_limit now usuario_id last_usage) !! usuario_id
      = Some now)
  /\ (forall other,
       other <> usuario_id ->
       snd (RateLimit.check_rate_limit now usuario_id last_usage) !! other
       = last_usage !! other)
  /\ (forall other now',
       other <> usuario_id ->
       fst (RateLimit.check_rate_limit now' other
              (snd (RateLimit.check_rate_limit now usuario_id last_usage)))
       = fst (RateLimit.check_rate_limit now' other last_usage)).
Proof.
  repeat apply conj.
  - intros last Hlast Hlt. unfold RateLimit.check_rate_limit. rewrite Hlast.
    destruct (Z.ltb_spec (now - last) (RateLimit.minutes 1)) as [_|Hge];
      [reflexivity|]. unfold RateLimit.minutes, seconds in *. lia.
  - intros last Hlast Hge. unfold RateLimit.check_rate_limit. rewrite Hlast.
    destruct (Z.ltb_spec (now - last) (RateLimit.minutes 1)) as [Hlt|_];
      [|reflexivity]. unfold RateLimit.minutes, seconds in *. lia.
  - intros Hnone. unfold RateLimit.check_rate_limit. rewrite Hnone. reflexivity.
  - apply check_rate_limit_records.
  - intros other Hne. apply check_rate_limit_other. exact Hne.
  - intros other now' Hne. apply check_rate_limit_answer.
    apply check_rate_limit_other. exact Hne.
Qed.

Lemma check_rate_limit_spec_witness :
  RateLimit.check_rate_limit (seconds 59) 7 {[ 7 := 0 ]} = (false, {[ 7 := 0 ]})
  /\ RateLimit.check_rate_limit (seconds 60) 7 {[ 7 := 0 ]}
     = (true, <[ 7 := seconds 60 ]> {[ 7 := 0 ]})
  /\ RateLimit.check_rate_limit (seconds 5) 8 {[ 7 := 0 ]}
     = (true, <[ 8 := seconds 5 ]> {[ 7 := 0 ]}).
Proof.
  repeat apply conj.
  - apply (proj1 (check_rate_limit_spec (seconds 59) 7 {[ 7 := 0 ]}) 0);
      [reflexivity|unfold seconds; lia].
  - apply (proj1 (proj2 (check_rate_limit_spec (seconds 60) 7 {[ 7 := 0 ]})) 0);
      [reflexivity|unfold seconds; lia].
  - apply (proj1 (proj2 (proj2 (check_rate_limit_spec (seconds 5) 8 {[ 7 := 0 ]})))).
    reflexivity.
Defined.

(** Over a run of calls, the record of a submitter is the clock reading of
    the last call that was allowed for them. *)
Lemma replay_records_last_allowed calls : forall (last_usage : gmap Z Z) usuario_id,
  snd (replay calls last_usage) !! usuario_id
  = last_allowed calls (fst (replay calls last_usage)) usuario_id
      (last_usage !! usuario_id).
Proof.
  induction calls as [|[now u] calls IH]; intros last_usage usuario_id;
    cbn [replay last_allowed].
  - reflexivity.
  - destruct (RateLimit.check_rate_limit now u last_usage) as [ok m] eqn:Hcall.
    specialize (IH m usuario_id).
    destruct (replay calls m) as [oks m'] eqn:Hrest. cbn [fst snd] in *.
    rewrite IH. f_equal.
    destruct (Z.eqb_spec u usuario_id) as [->|Hne].
    + destruct ok; cbn [andb].
      * pose proof (check_rate_limit_records now usuario_id last_usage) as Hrec.
        rewrite Hcall in Hrec. apply Hrec. reflexivity.
      * pose proof (check_rate_limit_rejects_unchanged now usuario_id last_usage) as Hrej.
        rewrite Hcall in Hrej. cbn [fst snd] in Hrej. rewrite Hrej; reflexivity.
    + rewrite andb_false_r.
      pose proof (check_rate_limit_other now u usuario_id last_usage) as Hother.
      rewrite Hcall in Hother. apply Hother. congruence.
Qed.

(** ** Cancelling *)

Lemma cancel_loop_changes item_id uid q : forall q',
  Queue.cancel_loop item_id uid q = Some q' ->
  exists before item after,
    q = before ++ item :: after
    /\ Queue.id item = item_id /\ Queue.user_id item = uid
    /\ Queue.status item = lit "queued"
    /\ q' = before ++ Queue.set_status (lit "cancelled") item :: after.
Proof.
  induction q as [|x q IH]; intros q'; cbn [Queue.cancel_loop]; [discriminate|].
  assert (Hrest : cons x <$> Queue.cancel_loop item_id uid q = Some q' ->
    exists before item after,
      x :: q = before ++ item :: after
      /\ Queue.id item = item_id /\ Queue.user_id item = uid
      /\ Queue.status item = lit "queued"
      /\ q' = before ++ Queue.set_status (lit "cancelled") item :: after).
  { destruct (Queue.cancel_loop item_id uid q) as [r|]; [|discriminate].
    intros [= <-]. destruct (IH r eq_refl) as (b & it & a & -> & H1 & H2 & H3 & ->).
    exists (x :: b), it, a. auto. }
  destruct (bool_decide (Queue.id x = item_id) && (Queue.user_id x =? uid)) eqn:Hm;
    [|exact Hrest].
  apply andb_true_iff in Hm as [Hid Hu].
  apply bool_decide_eq_true in Hid. apply Z.eqb_eq in Hu.
  unfold Queue.has_status.
  destruct (bool_decide (Queue.status x = lit "queued")) eqn:Hq.
  - apply bool_decide_eq_true in Hq. intros [= <-].
    exists [], x, q. auto.
  - destruct (bool_decide (Queue.status x = lit "processing")); [discriminate|].
    exact Hrest.
Qed.

Lemma cancel_loop_nothing_queued item_id uid q :
  (forall item, In item q -> Queue.id item = item_id -> Queue.user_id item = uid ->
                Queue.status item <> lit "queued") ->
  Queue.cancel_loop item_id uid q = None.
Proof.
  intros Hall. destruct (Queue.cancel_loop item_id uid q) as [q'|] eqn:Hc;
    [|reflexivity].
  destruct (cancel_loop_changes _ _ _ _ Hc) as (b & it & a & -> & H1 & H2 & H3 & _).
  exfalso. apply (Hall it); auto. apply in_elt.
Qed.

Lemma cancel_loop_keeps_others item_id uid q : forall q' i item,
  Queue.cancel_loop item_id uid q = Some q' ->
  q !! i = Some item -> Queue.status item <> lit "queued" ->
  q' !! i = Some item.
Proof.
  intros q' i item Hc Hi Hst.
  destruct (cancel_loop_changes _ _ _ _ Hc) as (b & it & a & -> & _ & _ & H3 & ->).
  destruct (Nat.lt_total i (length b)) as [Hlt|[Heq|Hgt]].
  - rewrite lookup_app_l in Hi |- * by exact Hlt. exact Hi.
  - subst i. rewrite list_lookup_middle in Hi by reflexivity.
    injection Hi as ->. contradiction.
  - rewrite lookup_app_r in Hi |- * by lia.
    destruct (i - length b)%nat as [|k] eqn:Hk; [lia|]. exact Hi.
Qed.

Lemma unique_id_processing (q : list Queue.QueueItem) item :
  NoDup (map Queue.id q) -> In item q ->
  forall other, In other q -> Queue.id other = Queue.id item -> other = item.
Proof.
  induction q as [|x q IH]; intros Hnd Hin other Ho Hid; [contradiction|].
  cbn [map] in Hnd. apply NoDup_cons in Hnd as [Hx Hnd].
  destruct Hin as [->|Hin], Ho as [->|Ho]; try reflexivity.
  - exfalso. apply Hx. rewrite <- Hid. apply list_elem_of_In, in_map. exact Ho.
  - exfalso. apply Hx. rewrite Hid. apply list_elem_of_In, in_map. exact Hin.
  - apply IH; assumption.
Qed.

Lemma cancel_loop_queued (q : list Queue.QueueItem) item :
  NoDup (map Queue.id q) -> In item q -> Queue.status item = lit "queued" ->
  exists before after,
    q = before ++ item :: after
    /\ Queue.cancel_loop (Queue.id item) (Queue.user_id item) q
       = Some (before ++ Queue.set_status (lit "cancelled") item :: after).
Proof.
  intros Hnd Hin Hq. induction q as [|x q IH]; [contradiction|].
  cbn [Queue.cancel_loop].
  destruct (decide (Queue.id x = Queue.id item)) as [Hid|Hid].
  - assert (x = item) as ->.
    { apply (unique_id_processing (x :: q) item Hnd Hin); [left; reflexivity|exact Hid]. }
    rewrite bool_decide_eq_true_2 by reflexivity. rewrite Z.eqb_refl. cbn [andb].
    unfold Queue.has_status. rewrite bool_decide_eq_true_2 by exact Hq.
    exists [], q. split; reflexivity.
  - rewrite bool_decide_eq_false_2 by exact Hid. cbn [andb].
    destruct Hin as [->|Hin]; [contradiction|].
    cbn [map] in Hnd. apply NoDup_cons in Hnd as [_ Hnd].
    destruct (IH Hnd Hin) as (b & a & -> & ->).
    exists (x :: b), a. split; reflexivity.
Qed.

(** C8. [cancel_item] answers [True] only after turning one record of the
    caller that was ['queued'] into ['cancelled'], every other record staying
    as it was; when it answers [False] nothing has changed. For a job that is
    ['processing'] it answers [False], and no record that is ['processing']
    is ever touched; for a job of the caller that is ['queued'] it answers
    [True] and the job is ['cancelled'] in the queue and in the file. *)
Theorem cancel_item_spec (self : Queue.QueuePlugin) (item_id : pystr) (uid : Z) :
  (forall self',
     Queue.cancel_item self item_id uid = (true, self') ->
     exists before item after,
       Queue.queue self = before ++ item :: after
       /\ Queue.id item = item_id /\ Queue.user_id item = uid
       /\ Queue.status item = lit "queued"
       /\ Queue.queue self'
          = before ++ Queue.set_status (lit "cancelled") item :: after)
  /\ (forall self', Queue.cancel_item self item_id uid = (false, self') -> self' = self)
  /\ (forall item,
       NoDup (map Queue.id (Queue.queue self)) ->
       In item (Queue.queue self) ->
       Queue.id item = item_id -> Queue.user_id item = uid ->
       Queue.status item = lit "processing" ->
       Queue.cancel_item self item_id uid = (false, self))
  /\ (forall i item,
       Queue.queue self !! i = Some item ->
       Queue.status item = lit "processing" ->
       Queue.queue (snd (Queue.cancel_item self item_id uid)) !! i = Some item)
  /\ (forall item,
       NoDup (map Queue.id (Queue.queue self)) ->
       In item (Queue.queue self) ->
       Queue.id item = item_id -> Queue.user_id item = uid ->
       Queue.status item = lit "queued" ->
       exists before after,
         Queue.queue self = before ++ item :: after
         /\ Queue.cancel_item self item_id uid
            = (true,
               Queue.save_queue
                 (Queue.set_queue
                    (before ++ Queue.set_status (lit "cancelled") item :: after)
                    self))).
Proof.
  unfold Queue.cancel_item. repeat apply conj.
  5:{ intros item Hnd Hin <- <- Hq.
      destruct (cancel_loop_queued _ item Hnd Hin Hq) as (b & a & Hsplit & Hc).
      exists b, a. rewrite Hc. split; [exact Hsplit|reflexivity]. }
  - intros self'.
    destruct (Queue.cancel_loop item_id uid (Queue.queue self)) as [q'|] eqn:Hc;
      [|discriminate].
    intros [= <-]. cbn [Queue.queue Queue.save_queue Queue.set_queue].
    apply cancel_loop_changes. exact Hc.
  - intros self'.
    destruct (Queue.cancel_loop item_id uid (Queue.queue self)); [discriminate|].
    intros [= <-]. reflexivity.
  - intros item Hnd Hin Hid Hu Hst.
    rewrite cancel_loop_nothing_queued; [reflexivity|].
    intros other Ho Hoid _ Hq.
    rewrite (unique_id_processing _ item Hnd Hin other Ho) in Hq by congruence.
    rewrite Hst in Hq. discriminate.
  - intros i item Hi Hst.
    destruct (Queue.cancel_loop item_id uid (Queue.queue self)) as [q'|] eqn:Hc;
      cbn [snd]; [|exact Hi].
    cbn [Queue.queue Queue.save_queue Queue.set_queue].
    eapply cancel_loop_keeps_others; [exact Hc|exact Hi|].
    rewrite Hst. discriminate.
Qed.

Lemma cancel_item_spec_witness :
  let q := [job "a" 1 2 "processing" "2024-05-01T10:00:00";
            job "b" 1 2 "queued" "2024-05-01T10:00:01"] in
  Queue.cancel_item (plugin_with q) (lit "a") 1 = (false, plugin_with q)
  /\ Queue.queue (snd (Queue.cancel_item (plugin_with q) (lit "b") 1)) !! 0%nat
     = Some (job "a" 1 2 "processing" "2024-05-01T10:00:00").
Proof.
  intros q. split.
  - apply (proj1 (proj2 (proj2 (cancel_item_spec (plugin_with q) (lit "a") 1)))
             (job "a" 1 2 "processing" "2024-05-01T10:00:00")).
    + refine (bool_decide_unpack _ _). vm_compute. exact I.
    + left. reflexivity.
    + reflexivity.
    + reflexivity.
    + reflexivity.
  - apply (proj1 (proj2 (proj2 (proj2 (cancel_item_spec (plugin_with q) (lit "b") 1))))
             0%nat (job "a" 1 2 "processing" "2024-05-01T10:00:00"));
      reflexivity.
Defined.

Example cancel_queued_item :
  let q := [job "a" 1 2 "processing" "2024-05-01T10:00:00";
            job "b" 1 2 "queued" "2024-05-01T10:00:01"] in
  fst (Queue.cancel_item (plugin_with q) (lit "b") 1) = true
  /\ map Queue.status (Queue.queue (snd (Queue.cancel_item (plugin_with q) (lit "b") 1)))
     = [lit "processing"; lit "cancelled"].
Proof. split; vm_compute; reflexivity. Qed.

(** ** Reloading the queue *)

Lemma dispatch_takes_queued now self item self' :
  Queue.dispatch now self = Some (item, self') ->
  Queue.status item = lit "queued" /\ In item (Queue.queue self).
Proof.
  unfold Queue.dispatch.
  destruct ((Queue.currently_processing self <? Queue.processing_slots self)
            && truthy (Queue.queue self)); [|discriminate].
  destruct (Queue.pending_items (Queue.queue self)) as [|x rest] eqn:Hp;
    [discriminate|].
  intros [= <- _].
  assert (Hin : In x (Queue.pending_items (Queue.queue self)))
    by (rewrite Hp; left; reflexivity).
  unfold Queue.pending_items in Hin. apply filter_In in Hin as [Hin Hq].
  split; [|exact Hin]. unfold Queue.has_status in Hq.
  apply bool_decide_eq_true in Hq. exact Hq.
Qed.

(** C7 (as amended). [load_queue] builds the queue from the records of the
    file as they are: every record keeps the status it was saved with, so a
    record saved as ['processing'] is ['processing'] after the reload. It is
    not resumed either: the count of running jobs is not restored from the
    file and the scheduler only takes ['queued'] records. *)
Theorem load_queue_keeps_status (self : Queue.QueuePlugin)
    (records : list Queue.QueueItem) :
  Queue.queue_file self = Queue.Saved records ->
  Queue.queue (Queue.load_queue self) = records
  /\ map Queue.status (Queue.queue (Queue.load_queue self)) = map Queue.status records
  /\ Queue.currently_processing (Queue.load_queue self)
     = Queue.currently_processing self
  /\ (forall now item self',
       Queue.dispatch now (Queue.load_queue self) = Some (item, self') ->
       Queue.status item = lit "queued").
Proof.
  intros Hfile. unfold Queue.load_queue. rewrite Hfile.
  cbn [Queue.set_queue Queue.queue Queue.currently_processing].
  repeat apply conj; try reflexivity.
  intros now item self' Hd. apply (dispatch_takes_queued _ _ _ _ Hd).
Qed.

Lemma load_queue_keeps_status_witness :
  map Queue.status
    (Queue.queue (Queue.load_queue
       (Queue.init (Queue.Saved [job "a" 1 2 "processing" "2024-05-01T10:00:00"]))))
  = [lit "processing"].
Proof.
  apply (proj1 (proj2 (load_queue_keeps_status
           (Queue.init (Queue.Saved [job "a" 1 2 "processing" "2024-05-01T10:00:00"]))
           [job "a" 1 2 "processing" "2024-05-01T10:00:00"] eq_refl))).
Defined.

(** C7, refuted as stated: a file with a record that was ['processing'] is
    reloaded at startup with that record still ['processing'], and the
    scheduler leaves it there. *)
Lemma reload_keeps_processing :
  let file := Queue.Saved [job "a" 1 2 "processing" "2024-05-01T10:00:00"] in
  map Queue.status (Queue.queue (Queue.load_queue (Queue.init file)))
  = [lit "processing"]
  /\ map Queue.status
       (Queue.queue (snd (Queue.on_system_startup scheduler_clock (Queue.init file))))
     = [lit "processing"]
  /\ lit "processing" <> lit "failed".
Proof. repeat apply conj; [vm_compute; reflexivity..|discriminate]. Qed.

(** ** The order of dispatch *)

(** C4, on the input on which the code departs from it. Three jobs are
    submitted within one scheduler period, the third one urgent. In memory
    the queue is sorted and the scheduler starts the urgent job first. The
    file was written before the sort: after a restart, [load_queue] has the
    jobs in the order of submission and the scheduler fills its two slots
    with the jobs of low priority, leaving the urgent one queued. *)
Lemma restart_dispatches_unsorted :
  map Queue.id (Queue.queue three_submissions) = [lit "j3"; lit "j1"; lit "j2"]
  /\ map Queue.id (fst (Queue.process_queue_pass scheduler_clock three_submissions))
     = [lit "j3"; lit "j1"]
  /\ (exists records,
       Queue.queue_file three_submissions = Queue.Saved records
       /\ map Queue.id records = [lit "j1"; lit "j2"; lit "j3"]
       /\ map Queue.priority records = [1; 1; 4]
       /\ map Queue.status records = [lit "queued"; lit "queued"; lit "queued"])
  /\ map Queue.id
       (fst (Queue.on_system_startup scheduler_clock
               (Queue.init (Queue.queue_file three_submissions))))
     = [lit "j1"; lit "j2"]
  /\ map (fun item => (Queue.id item, Queue.priority item, Queue.status item))
       (Queue.queue
          (snd (Queue.on_system_startup scheduler_clock
                  (Queue.init (Queue.queue_file three_submissions)))))
     = [(lit "j1", 1, lit "processing"); (lit "j2", 1, lit "processing");
        (lit "j3", 4, lit "queued")].
Proof.
  repeat apply conj; try (vm_compute; reflexivity).
  eexists. repeat apply conj; vm_compute; reflexivity.
Qed.

(** *** The sort key is a strict total order *)

Lemma str_ltb_irrefl a : Queue.str_ltb a a = false.
Proof.
  induction a as [|x a IH]; [reflexivity|].
  cbn [Queue.str_ltb]. rewrite N.ltb_irrefl, N.eqb_refl, IH. reflexivity.
Qed.

Lemma str_ltb_cons x a y b :
  Queue.str_ltb (x :: a) (y :: b) = true
  <-> (x < y)%N \/ (x = y /\ Queue.str_ltb a b = true).
Proof.
  cbn [Queue.str_ltb].
  rewrite orb_true_iff, andb_true_iff, N.ltb_lt, N.eqb_eq. reflexivity.
Qed.

Lemma str_ltb_trans a : forall b c,
  Queue.str_ltb a b = true -> Queue.str_ltb b c = true -> Queue.str_ltb a c = true.
Proof.
  induction a as [|x a IH]; intros [|y b] [|z c]; try discriminate; try reflexivity.
  rewrite !str_ltb_cons. intros [Hxy|[-> Hab]] [Hyz|[-> Hbc]].
  - left. lia.
  - left. exact Hxy.
  - left. exact Hyz.
  - right. split; [reflexivity|]. eapply IH; eassumption.
Qed.

Lemma str_ltb_trichotomy a : forall b,
  Queue.str_ltb a b = true \/ a = b \/ Queue.str_ltb b a = true.
Proof.
  induction a as [|x a IH]; intros [|y b].
  - right. left. reflexivity.
  - left. reflexivity.
  - right. right. reflexivity.
  - rewrite !str_ltb_cons.
    destruct (N.lt_trichotomy x y) as [H|[->|H]]; [auto| |auto].
    destruct (IH b) as [H|[->|H]]; auto.
Qed.

Lemma key_ltb_spec (k1 k2 : Z * pystr) :
  Queue.key_ltb k1 k2 = true
  <-> fst k1 < fst k2 \/ (fst k1 = fst k2 /\ Queue.str_ltb (snd k1) (snd k2) = true).
Proof.
  unfold Queue.key_ltb.
  rewrite orb_true_iff, andb_true_iff, Z.ltb_lt, Z.eqb_eq. reflexivity.
Qed.

Lemma key_ltb_irrefl k : Queue.key_ltb k k = false.
Proof.
  unfold Queue.key_ltb. rewrite Z.ltb_irrefl, Z.eqb_refl, str_ltb_irrefl. reflexivity.
Qed.

Lemma key_ltb_trans k1 k2 k3 :
  Queue.key_ltb k1 k2 = true -> Queue.key_ltb k2 k3 = true ->
  Queue.key_ltb k1 k3 = true.
Proof.
  rewrite !key_ltb_spec. intros [H12|[E12 S12]] [H23|[E23 S23]].
  - left. lia.
  - left. lia.
  - left. lia.
  - right. split; [lia|]. eapply str_ltb_trans; eassumption.
Qed.

Lemma key_ltb_trichotomy (k1 k2 : Z * pystr) :
  Queue.key_ltb k1 k2 = true \/ k1 = k2 \/ Queue.key_ltb k2 k1 = true.
Proof.
  rewrite !key_ltb_spec. destruct k1 as [p1 c1], k2 as [p2 c2]. cbn [fst snd].
  destruct (Z.lt_trichotomy p1 p2) as [H|[->|H]]; [auto| |auto].
  destruct (str_ltb_trichotomy c1 c2) as [H|[->|H]]; auto.
Qed.

Lemma key_ltb_asym k1 k2 :
  Queue.key_ltb k1 k2 = true -> Queue.key_ltb k2 k1 = false.
Proof.
  intros H12. destruct (Queue.key_ltb k2 k1) eqn:H21; [|reflexivity].
  pose proof (key_ltb_trans _ _ _ H12 H21) as H. rewrite key_ltb_irrefl in H.
  discriminate.
Qed.

Lemma key_le_refl a : key_le a a.
Proof. apply key_ltb_irrefl. Qed.

Lemma key_le_trans a b c : key_le a b -> key_le b c -> key_le a c.
Proof.
  unfold key_le. intros Hab Hbc.
  destruct (Queue.key_ltb (Queue.sort_key c) (Queue.sort_key a)) eqn:Hca;
    [|reflexivity].
  destruct (key_ltb_trichotomy (Queue.sort_key c) (Queue.sort_key b)) as [H|[H|H]].
  - congruence.
  - rewrite <- H in Hab. congruence.
  - rewrite (key_ltb_trans _ _ _ H Hca) in Hab. discriminate.
Qed.

(** *** Sorting and taking the first queued item *)

Lemma insert_sorted_head x l :
  match l with
  | [] => True
  | y :: _ => Queue.key_ltb (Queue.sort_key y) (Queue.sort_key x) = false
  end ->
  Queue.insert_sorted x l = x :: l.
Proof.
  destruct l as [|y l]; [reflexivity|]. cbn [Queue.insert_sorted].
  intros ->. reflexivity.
Qed.

Lemma insert_sorted_In x l z :
  In z (Queue.insert_sorted x l) <-> z = x \/ In z l.
Proof.
  induction l as [|y l IH]; cbn [Queue.insert_sorted].
  - cbn. intuition.
  - destruct (Queue.key_ltb (Queue.sort_key y) (Queue.sort_key x)); cbn [In].
    + rewrite IH. intuition.
    + intuition.
Qed.

Lemma insert_sorted_sorted x l :
  StronglySorted key_le l -> StronglySorted key_le (Queue.insert_sorted x l).
Proof.
  induction 1 as [|y l Hs IH Hall]; cbn [Queue.insert_sorted].
  - repeat constructor.
  - destruct (Queue.key_ltb (Queue.sort_key y) (Queue.sort_key x)) eqn:Hyx.
    + constructor; [exact IH|].
      apply List.Forall_forall. intros z Hz. apply insert_sorted_In in Hz as [->|Hz].
      * apply key_ltb_asym. exact Hyx.
      * rewrite List.Forall_forall in Hall. apply Hall. exact Hz.
    + constructor; [constructor; assumption|].
      constructor; [exact Hyx|].
      eapply List.Forall_impl; [|exact Hall].
      intros z Hz. apply (key_le_trans x y z); assumption.
Qed.

(** Whatever the list, [sort] leaves it in the order of the key. *)
Lemma sort_queue_sorted l : StronglySorted key_le (Queue.sort_queue l).
Proof.
  induction l as [|x l IH]; cbn [Queue.sort_queue].
  - constructor.
  - apply insert_sorted_sorted. exact IH.
Qed.

Lemma key_le_ext a a' b b' :
  Queue.sort_key a' = Queue.sort_key a -> Queue.sort_key b' = Queue.sort_key b ->
  key_le a b -> key_le a' b'.
Proof. unfold key_le. intros -> ->. trivial. Qed.

(** Changing fields that are not in the key does not disturb the order. *)
Lemma sorted_same_keys (q q' : list Queue.QueueItem) :
  Forall2 (fun a a' => Queue.sort_key a' = Queue.sort_key a) q q' ->
  StronglySorted key_le q -> StronglySorted key_le q'.
Proof.
  induction 1 as [|a a' q q' Ha Hq IH]; intros Hs; [constructor|].
  apply StronglySorted_inv in Hs as [Hs Hall]. constructor; [apply IH; exact Hs|].
  clear IH Hs. induction Hq as [|b b' q q' Hb Hq IH]; [constructor|].
  apply List.Forall_cons_iff in Hall as [Hab Hall]. constructor.
  - apply (key_le_ext a a' b b'); assumption.
  - apply IH. exact Hall.
Qed.

Lemma mutate_first_queued_keys f q :
  (forall x, Queue.sort_key (f x) = Queue.sort_key x) ->
  Forall2 (fun a a' => Queue.sort_key a' = Queue.sort_key a) q
    (Queue.mutate_first_queued f q).
Proof.
  intros Hf. induction q as [|x q IH]; cbn [Queue.mutate_first_queued].
  - constructor.
  - destruct (Queue.has_status "queued" x).
    + constructor; [apply Hf|]. clear. induction q; constructor; auto.
    + constructor; [reflexivity|exact IH].
Qed.

Lemma cancel_loop_keys item_id uid q : forall q',
  Queue.cancel_loop item_id uid q = Some q' ->
  Forall2 (fun a a' => Queue.sort_key a' = Queue.sort_key a) q q'.
Proof.
  intros q' Hc.
  destruct (cancel_loop_changes _ _ _ _ Hc) as (b & it & a & -> & _ & _ & _ & ->).
  apply Forall2_app.
  - clear. induction b; constructor; auto.
  - constructor; [reflexivity|]. clear. induction a; constructor; auto.
Qed.

(** Within one process the queue is in the order of the key whenever the
    scheduler looks at it. *)
Lemma in_process_sorted self : in_process self -> StronglySorted key_le (Queue.queue self).
Proof.
  induction 1 as [file|est item_id now self u fp fs p _ IH
                  |now self item self' _ IH Hd|self item_id uid _ IH].
  - constructor.
  - cbn. apply sort_queue_sorted.
  - unfold Queue.dispatch in Hd.
    destruct ((Queue.currently_processing self <? Queue.processing_slots self)
              && truthy (Queue.queue self)); [|discriminate].
    destruct (Queue.pending_items (Queue.queue self)); [discriminate|].
    injection Hd as _ <-. cbn [Queue.queue Queue.save_queue].
    eapply sorted_same_keys; [|exact IH].
    apply mutate_first_queued_keys. reflexivity.
  - unfold Queue.cancel_item.
    destruct (Queue.cancel_loop item_id uid (Queue.queue self)) as [q'|] eqn:Hc;
      cbn [snd]; [|exact IH].
    cbn [Queue.queue Queue.save_queue Queue.set_queue].
    eapply sorted_same_keys; [|exact IH]. eapply cancel_loop_keys. exact Hc.
Qed.

Lemma first_pending_is_best q item rest :
  StronglySorted key_le q ->
  Queue.pending_items q = item :: rest ->
  forall other, In other q -> Queue.status other = lit "queued" -> key_le item other.
Proof.
  unfold Queue.pending_items.
  induction 1 as [|x q Hs IH Hall]; cbn [List.filter]; [discriminate|].
  intros Hp other Hin Hq.
  destruct (Queue.has_status "queued" x) eqn:Hx.
  - injection Hp as -> _. destruct Hin as [->|Hin]; [apply key_le_refl|].
    rewrite List.Forall_forall in Hall. apply Hall. exact Hin.
  - destruct Hin as [->|Hin].
    + unfold Queue.has_status in Hx. apply bool_decide_eq_false in Hx. contradiction.
    + apply IH; assumption.
Qed.

(** When the queue is in the order of the key, which is what the comment in
    [process_queue] takes for granted, the job taken is queued and no queued
    job comes before it by (priority descending, created_at ascending). *)
Lemma dispatch_takes_best now self item self' :
  StronglySorted key_le (Queue.queue self) ->
  Queue.dispatch now self = Some (item, self') ->
  Queue.status item = lit "queued"
  /\ forall other, In other (Queue.queue self) ->
       Queue.status other = lit "queued" -> key_le item other.
Proof.
  intros Hs Hd. split; [apply (dispatch_takes_queued _ _ _ _ Hd)|].
  unfold Queue.dispatch in Hd.
  destruct ((Queue.currently_processing self <? Queue.processing_slots self)
            && truthy (Queue.queue self)); [|discriminate].
  destruct (Queue.pending_items (Queue.queue self)) as [|x rest] eqn:Hp;
    [discriminate|].
  injection Hd as <- _. eapply first_pending_is_best; eassumption.
Qed.

(** In a process that has not reloaded its queue since it started, whatever
    it has submitted, started and cancelled, the scheduler starts a queued
    job that no other queued job precedes by the key: one of the highest
    priority and, among those, of the earliest submission. *)
Lemma in_process_dispatch_takes_best now self item self' :
  in_process self ->
  Queue.dispatch now self = Some (item, self') ->
  Queue.status item = lit "queued"
  /\ forall other, In other (Queue.queue self) ->
       Queue.status other = lit "queued" -> key_le item other.
Proof. intros Hr. apply dispatch_takes_best, in_process_sorted, Hr. Qed.

(** *** Equal priority: first in, first out *)

Lemma filter_none {A} (f : A -> bool) l :
  Forall (fun x => f x = false) l -> List.filter f l = [].
Proof.
  induction 1 as [|x l Hx _ IH]; [reflexivity|].
  cbn [List.filter]. rewrite Hx. exact IH.
Qed.

Lemma filter_all {A} (f : A -> bool) l :
  Forall (fun x => f x = true) l -> List.filter f l = l.
Proof.
  induction 1 as [|x l Hx _ IH]; [reflexivity|].
  cbn [List.filter]. rewrite Hx, IH. reflexivity.
Qed.

(** Sorting a sorted queue with one more item at its end puts the item
    after everything that does not come after it, and moves nothing else. *)
Lemma sort_queue_append q x :
  StronglySorted key_le q ->
  Queue.sort_queue (q ++ [x])
  = List.filter (fun y => negb (Queue.key_ltb (Queue.sort_key x) (Queue.sort_key y))) q
    ++ x :: List.filter (fun y => Queue.key_ltb (Queue.sort_key x) (Queue.sort_key y)) q.
Proof.
  induction 1 as [|y q Hs IH Hall]; [reflexivity|].
  cbn [app Queue.sort_queue List.filter]. rewrite IH.
  destruct (Queue.key_ltb (Queue.sort_key x) (Queue.sort_key y)) eqn:Hxy; cbn [negb].
  - assert (Hlater : Forall (fun z =>
      Queue.key_ltb (Queue.sort_key x) (Queue.sort_key z) = true) q).
    { eapply List.Forall_impl; [|exact Hall]. intros z Hyz. unfold key_le in Hyz.
      destruct (key_ltb_trichotomy (Queue.sort_key x) (Queue.sort_key z))
        as [H|[H|H]]; [exact H| |].
      - rewrite <- H in Hyz. congruence.
      - rewrite (key_ltb_trans _ _ _ H Hxy) in Hyz. discriminate. }
    rewrite filter_none, filter_all; [|exact Hlater|].
    + cbn [app Queue.insert_sorted]. rewrite Hxy. f_equal.
      apply insert_sorted_head. destruct q as [|z q]; [exact I|].
      apply List.Forall_cons_iff in Hall as [Hyz _]. exact Hyz.
    + eapply List.Forall_impl; [|exact Hlater]. cbn. intros z ->. reflexivity.
  - cbn [app]. apply insert_sorted_head.
    destruct (List.filter _ q) as [|z l] eqn:Hf; cbn [app]; [exact Hxy|].
    assert (Hz : In z (z :: l)) by (left; reflexivity).
    rewrite <- Hf in Hz. apply filter_In in Hz as [Hz _].
    rewrite List.Forall_forall in Hall. apply Hall. exact Hz.
Qed.

(** In a process that has not reloaded its queue, a job already in the
    queue stays before a job submitted later that does not come before it
    by the key: with equal priority, and a clock that has not gone back, the
    job submitted first comes first. *)
Lemma add_to_queue_keeps_earlier_first estimate item_id now self user_id file_path
    file_size priority earlier :
  StronglySorted key_le (Queue.queue self) ->
  In earlier (Queue.queue self) ->
  Queue.key_ltb (- priority, now) (Queue.sort_key earlier) = false ->
  exists before between later after,
    Queue.queue (snd (Queue.add_to_queue estimate item_id now self user_id
                        file_path file_size priority))
    = before ++ earlier :: between ++ later :: after
    /\ Queue.id later = item_id /\ Queue.priority later = priority
    /\ Queue.created_at later = now /\ Queue.status later = lit "queued".
Proof.
  intros Hs Hin Hle. cbn [Queue.add_to_queue snd Queue.queue Queue.set_queue
                          Queue.save_queue].
  rewrite sort_queue_append by exact Hs.
  match goal with
  | |- context [List.filter ?f (Queue.queue self) ++ ?x :: ?rest] =>
      assert (Hf : In earlier (List.filter f (Queue.queue self)));
      [apply filter_In; split; [exact Hin|];
       change (Queue.sort_key x) with (- priority, now); rewrite Hle; reflexivity|];
      apply in_split in Hf as (before & between & ->);
      exists before, between, x, rest
  end.
  rewrite <- app_assoc. cbn [app]. repeat apply conj; reflexivity.
Qed.

(** * Further properties *)

(** ** More on the splitter *)

Lemma lstrip_all_space s : all_space s -> lstrip s = [].
Proof.
  induction 1 as [|c s Hc _ IH]; [reflexivity|].
  cbn [lstrip]. rewrite Hc. exact IH.
Qed.

Lemma strip_all_space s : all_space s -> strip s = [].
Proof. intros Hs. unfold strip. rewrite (lstrip_all_space s Hs). reflexivity. Qed.

Lemma lstrip_before_stop s r : exists s', lstrip (s ++ 46%N :: r) = s' ++ 46%N :: r.
Proof.
  induction s as [|c s [s' IH]]; cbn [app lstrip].
  - exists []. reflexivity.
  - destruct (py_isspace c); [exists s'; exact IH|exists (c :: s); reflexivity].
Qed.

(** A buffer that ends with the delimiter is stripped to something that
    ends with the full stop. *)
Lemma strip_restored s : exists s', strip (s ++ lit ". ") = s' ++ lit ".".
Proof.
  destruct (lstrip_before_stop s [32%N]) as [s' Hs']. exists s'.
  unfold strip. change (s ++ lit ". ") with (s ++ 46%N :: [32%N]).
  rewrite Hs'. apply (rstrip_delimiter s').
Qed.

Lemma buffer_loop_ends sentences : forall bs cur,
  Forall ends_restored bs -> cur = [] \/ ends_restored cur ->
  Forall ends_restored (fst (Splitter.buffer_loop sentences bs cur))
  /\ (snd (Splitter.buffer_loop sentences bs cur) = []
      \/ ends_restored (snd (Splitter.buffer_loop sentences bs cur))).
Proof.
  induction sentences as [|s ss IH]; intros bs cur Hbs Hcur;
    cbn [Splitter.buffer_loop].
  - auto.
  - destruct (3000 <? len (cur ++ s ++ lit ". ")).
    + apply IH; [|right; exists s; reflexivity].
      destruct cur as [|c cur]; cbn [truthy]; [exact Hbs|].
      apply Forall_app. split; [exact Hbs|]. constructor; [|constructor].
      destruct Hcur as [Hcur|Hcur]; [discriminate|exact Hcur].
    + apply IH; [exact Hbs|]. right. exists (cur ++ s). apply app_assoc.
Qed.

Lemma buffers_ends texto : Forall ends_restored (Splitter.buffers texto).
Proof.
  unfold Splitter.buffers.
  match goal with
  | |- context [Splitter.buffer_loop ?ss ?b ?c] =>
      generalize (buffer_loop_ends ss b c (List.Forall_nil _) (or_introl eq_refl));
      destruct (Splitter.buffer_loop ss b c) as [bs cur]
  end.
  cbn [fst snd]. intros [Hbs Hcur]. destruct cur as [|c cur]; cbn [truthy]; [exact Hbs|].
  apply Forall_app. split; [exact Hbs|]. constructor; [|constructor].
  destruct Hcur as [Hcur|Hcur]; [discriminate|exact Hcur].
Qed.

Lemma buffers_nonempty texto : Splitter.buffers texto <> [].
Proof.
  intros Hnil. pose proof (buffers_concat texto) as Hc. rewrite Hnil in Hc.
  destruct texto; discriminate.
Qed.

Lemma chunks_truthy texto :
  Forall (fun chunk => truthy chunk = true) (Splitter.chunks texto).
Proof.
  rewrite chunks_buffers. apply Forall_map.
  eapply List.Forall_impl; [|apply buffers_ends].
  intros b [s ->]. destruct (strip_restored s) as [s' ->]. destruct s'; reflexivity.
Qed.

Lemma subchunks_truthy chunk :
  Forall (fun c => truthy c = true) (Splitter.subchunks chunk).
Proof.
  rewrite subchunks_windows. apply List.Forall_forall. intros c Hc.
  apply in_map_iff in Hc as [j [<- Hj]]. apply in_seq in Hj.
  assert (Hlt : (j * Z.to_nat 2500 < length chunk)%nat).
  { unfold len in Hj. zify. Z.to_euclidean_division_equations. lia. }
  destruct (firstn (Z.to_nat 2500) (skipn (j * Z.to_nat 2500) chunk)) as [|x l] eqn:E;
    [|reflexivity].
  apply (f_equal (@length N)) in E. rewrite length_take, length_drop in E.
  cbn [length] in E. lia.
Qed.

(** The splitter gives at least one chunk, whatever the text, and none of
    its chunks is empty. *)
Theorem final_chunks_never_empty texto :
  Splitter.final_chunks texto <> []
  /\ Forall (fun chunk => truthy chunk = true) (Splitter.final_chunks texto).
Proof.
  assert (Hall : Forall (fun chunk => truthy chunk = true) (Splitter.final_chunks texto)).
  { unfold Splitter.final_chunks.
    induction (chunks_truthy texto) as [|c l Hc _ IH]; cbn [flat_map]; [constructor|].
    apply Forall_app. split; [|exact IH]. unfold Splitter.harden.
    destruct (5000 <? len c); [apply subchunks_truthy|repeat constructor; exact Hc]. }
  split; [|exact Hall]. intros Hnil.
  pose proof (final_chunks_strip texto) as Hs. rewrite Hnil in Hs. cbn [concat] in Hs.
  pose proof (buffers_nonempty texto) as Hne. pose proof (buffers_ends texto) as He.
  destruct (Splitter.buffers texto) as [|b bs]; [contradiction|].
  apply List.Forall_cons_iff in He as [[s ->] _]. cbn [map concat] in Hs.
  destruct (strip_restored s) as [s' Hs']. rewrite Hs' in Hs. destruct s'; discriminate.
Qed.

(** An empty text, or one of whitespace only, gives the single chunk ["."]. *)
Theorem final_chunks_blank texto :
  all_space texto -> Splitter.final_chunks texto = [lit "."].
Proof.
  intros Hs.
  assert (Hno : contains_dot_space texto = false).
  { induction Hs as [|c s Hc Hs IH]; [reflexivity|].
    destruct s as [|d s]; [reflexivity|]. rewrite contains_dot_space_step, IH.
    destruct (N.eqb_spec c 46) as [->|_]; [discriminate|reflexivity]. }
  assert (Hstrip : strip (texto ++ lit ". ") = lit ".").
  { unfold strip. assert (Hl : lstrip (texto ++ lit ". ") = lit ". ").
    { clear Hno. induction Hs as [|c s Hc _ IH]; [reflexivity|].
      cbn [app lstrip]. rewrite Hc. exact IH. }
    rewrite Hl. reflexivity. }
  assert (Ht : truthy (texto ++ lit ". ") = true) by (destruct texto; reflexivity).
  unfold Splitter.final_chunks, Splitter.chunks.
  rewrite (split_no_separator _ Hno). cbn [Splitter.sentence_loop app truthy].
  destruct (3000 <? len (texto ++ lit ". ")); cbn [truthy app];
    rewrite Ht, Hstrip; reflexivity.
Qed.

Lemma final_chunks_blank_witness : Splitter.final_chunks (lit "  ") = [lit "."].
Proof.
  apply (final_chunks_blank (lit "  ")). repeat constructor.
Defined.

Lemma buffer_loop_accumulates sentences : forall bs cur,
  len cur + len (concat (map restore sentences)) <= 3000 ->
  Splitter.buffer_loop sentences bs cur = (bs, cur ++ concat (map restore sentences)).
Proof.
  induction sentences as [|s ss IH]; intros bs cur Hlen; cbn [Splitter.buffer_loop].
  - cbn. rewrite app_nil_r. reflexivity.
  - fold (restore s). cbn [map concat] in Hlen. rewrite !len_app in Hlen.
    pose proof (len_nonneg (concat (map restore ss))).
    destruct (Z.ltb_spec 3000 (len (cur ++ restore s))) as [Hlt|_].
    + rewrite len_app in Hlt. lia.
    + rewrite IH by (rewrite len_app; lia).
      cbn [map concat]. rewrite <- app_assoc. reflexivity.
Qed.

(** A text that fits the soft limit with its restored delimiter is one
    chunk: the text with a full stop after it and no whitespace around. *)
Theorem final_chunks_short texto :
  len texto + 2 <= 3000 ->
  Splitter.final_chunks texto = [strip (texto ++ lit ". ")].
Proof.
  intros Hlen.
  assert (Hb : Splitter.buffers texto = [texto ++ lit ". "]).
  { unfold Splitter.buffers. rewrite buffer_loop_accumulates.
    - cbn [app]. rewrite split_dot_space_join. destruct texto; reflexivity.
    - rewrite split_dot_space_join, len_app. change (len (lit ". ")) with 2.
      unfold len at 1. cbn [length]. lia. }
  unfold Splitter.final_chunks. rewrite chunks_buffers, Hb. cbn [map].
  apply flat_map_harden_short. repeat constructor.
  pose proof (len_strip_le (texto ++ lit ". ")) as Hle.
  rewrite len_app in Hle. change (len (lit ". ")) with 2 in Hle. lia.
Qed.

Lemma final_chunks_short_witness :
  Splitter.final_chunks (lit " Hola. Que tal ") = [lit "Hola. Que tal ."].
Proof.
  apply (final_chunks_short (lit " Hola. Que tal ")). vm_compute. discriminate.
Defined.

(** When every sentence fits the soft limit with its delimiter, so does
    every chunk. *)
Theorem final_chunks_soft_limit texto :
  clean_boundaries texto = true ->
  Forall (fun chunk => len chunk <= 3000) (Splitter.final_chunks texto).
Proof.
  intros Hclean.
  assert (Hchunks : Forall (fun c => len c <= 3000) (Splitter.chunks texto)).
  { rewrite chunks_buffers. apply Forall_map.
    eapply List.Forall_impl; [|exact (buffers_bounded texto Hclean)]. cbn. intros b Hle.
    pose proof (len_strip_le b). lia. }
  unfold Splitter.final_chunks. rewrite flat_map_harden_short; [exact Hchunks|].
  eapply List.Forall_impl; [|exact Hchunks]. cbn. intros; lia.
Qed.

Lemma final_chunks_soft_limit_witness :
  Forall (fun chunk => len chunk <= 3000) (Splitter.final_chunks twelve_sentences).
Proof.
  apply (final_chunks_soft_limit twelve_sentences). vm_compute. reflexivity.
Defined.

(** ** More on the engines and the cache *)

Lemma join_kept_or_translated G source target chunks :
  Forall (fun chunk => G source target chunk <> Return Translate.PNone) chunks ->
  Translate.join (map (Translate.traducir_chunk G source target) chunks)
  = Return (concat (map (kept_or_translated G source target) chunks)).
Proof.
  induction 1 as [|c l Hc _ IH]; [reflexivity|].
  cbn [map concat]. unfold Translate.traducir_chunk at 1, kept_or_translated at 1.
  destruct (G source target c) as [[trad|]|]; [| congruence |];
    cbn [Translate.join]; rewrite IH; reflexivity.
Qed.

(** A chunk whose call raises does not disturb the others: as long as no
    call hands back something that is not a string, the result is made, in
    order, of the translation of every chunk whose call returned and of the
    chunk itself where the call raised. *)
Theorem google_partial_failure G texto source target :
  Forall (fun chunk => G source target chunk <> Return Translate.PNone)
    (Splitter.final_chunks texto) ->
  Translate.traducir_texto_google G texto source target
  = Return (concat (map (kept_or_translated G source target)
                      (Splitter.final_chunks texto))).
Proof.
  intros Hall. unfold Translate.traducir_texto_google.
  rewrite (join_kept_or_translated _ _ _ _ Hall). reflexivity.
Qed.

Lemma google_partial_failure_witness :
  Translate.traducir_texto_google engine_picky
    (repeat 65%N 2999 ++ lit ". " ++ repeat 66%N 2999) (lit "en") (lit "es")
  = Return (lit "si" ++ repeat 66%N 2999 ++ lit ".").
Proof.
  rewrite (google_partial_failure engine_picky
             (repeat 65%N 2999 ++ lit ". " ++ repeat 66%N 2999) (lit "en") (lit "es")).
  - vm_compute. reflexivity.
  - apply List.Forall_forall. intros chunk _. unfold engine_picky.
    destruct chunk as [|c chunk]; [discriminate|].
    destruct c as [|p]; [discriminate|].
    do 7 (destruct p as [p|p|]; try discriminate).
Defined.

(** A text that is empty or of whitespace only is answered with the empty
    string: the backing store is not asked, even one that would raise, and
    no engine is called. *)
Theorem traducir_con_cache_blank
    (GoogleTranslator : pystr -> pystr -> pystr -> exc Translate.pyval)
    (deepl_translate : pystr -> pystr -> pystr -> pystr -> exc pystr)
    (DEEPL_API_KEY : option pystr) (md5_hexdigest : pybytes -> pystr)
    (S : Type) (client : Cache.RedisClient S) (now : Z) (rc : S)
    (texto source target engine : pystr) :
  all_space texto ->
  Cache.traducir_con_cache GoogleTranslator deepl_translate DEEPL_API_KEY
    md5_hexdigest now rc texto source target engine = (Return [], rc).
Proof.
  intros Hs. unfold Cache.traducir_con_cache.
  rewrite (strip_all_space texto Hs). reflexivity.
Qed.

Lemma traducir_con_cache_blank_witness :
  Cache.traducir_con_cache engine_down deepl_down None hexdigest_of_bytes
    0 Unreachable (lit "   ") (lit "en") (lit "es") (lit "google")
  = (Return [], Unreachable).
Proof.
  apply (traducir_con_cache_blank engine_down deepl_down None hexdigest_of_bytes
           UnreachableRedis _ 0 Unreachable (lit "   ")).
  repeat constructor.
Defined.

(** ** The in-process store *)

Lemma utf8_char_scalar c : scalar_value c = true -> exists b, utf8_char c = Return b.
Proof.
  unfold scalar_value, utf8_char. intros Hc.
  apply andb_true_iff in Hc as [Hlt Hsur]. apply N.ltb_lt in Hlt.
  apply negb_true_iff in Hsur. rewrite Hsur.
  destruct (c <? 128)%N; [eauto|]. destruct (c <? 2048)%N; [eauto|].
  destruct (c <? 65536)%N; [eauto|].
  destruct (N.ltb_spec c 1114112); [eauto|lia].
Qed.

Lemma encode_scalar s :
  forallb scalar_value s = true -> exists b, encode s = Return b.
Proof.
  induction s as [|c s IH]; cbn [forallb encode]; [eauto|].
  intros Hs. apply andb_true_iff in Hs as [Hc Hs].
  destruct (utf8_char_scalar c Hc) as [bc ->]. destruct (IH Hs) as [bs ->].
  cbn. eauto.
Qed.

(** What [setex] writes, [get] reads back: a string without surrogates is
    stored, whatever the [time], as bytes that decode to it, and no other
    key changes. *)
Theorem mock_redis_setex_get (self : Cache.MockRedis) (key value : pystr) (time : Z) :
  forallb scalar_value value = true ->
  exists self' b,
    Cache.MockRedis_setex self key time value = Return self'
    /\ Cache.MockRedis_get self' key = Some b
    /\ decode b = Return value
    /\ forall other, other <> key ->
         Cache.MockRedis_get self' other = Cache.MockRedis_get self other.
Proof.
  intros Hs. destruct (encode_scalar value Hs) as [b Hb].
  exists {| Cache.data := <[key := b]> (Cache.data self) |}, b.
  unfold Cache.MockRedis_setex, Cache.MockRedis_get. rewrite Hb. cbn [Cache.data].
  repeat apply conj.
  - reflexivity.
  - apply lookup_insert_eq.
  - apply decode_encode. exact Hb.
  - intros other Hne. apply lookup_insert_ne. congruence.
Qed.

Lemma mock_redis_setex_get_witness :
  exists self' b,
    Cache.MockRedis_setex Cache.MockRedis_init (lit "k") 86400 [241; 8364; 128512]%N
    = Return self'
    /\ Cache.MockRedis_get self' (lit "k") = Some b
    /\ decode b = Return [241; 8364; 128512]%N
    /\ forall other, other <> lit "k" ->
         Cache.MockRedis_get self' other = Cache.MockRedis_get Cache.MockRedis_init other.
Proof.
  apply (mock_redis_setex_get Cache.MockRedis_init (lit "k") [241; 8364; 128512]%N 86400).
  reflexivity.
Defined.

(** A string with a surrogate cannot be stored: [setex] raises. *)
Example mock_redis_setex_surrogate :
  Cache.MockRedis_setex Cache.MockRedis_init (lit "k") 86400 [97; 55357]%N = Raise.
Proof. reflexivity. Qed.

(** The counter of the in-process store counts once: on a key that is not
    there [incr] writes the four bytes of 1, which [int] does not read, so
    that the next [incr] on the key raises and leaves the store as it is. *)
Theorem mock_redis_incr_once (self : Cache.MockRedis) (key : pystr) :
  Cache.MockRedis_get self key = None ->
  exists self',
    Counter.MockRedis_incr self key = Return self'
    /\ Cache.MockRedis_get self' key = Some [0; 0; 0; 1]%N
    /\ (forall other, other <> key ->
          Cache.MockRedis_get self' other = Cache.MockRedis_get self other)
    /\ Counter.py_int [0; 0; 0; 1]%N = Raise
    /\ Counter.MockRedis_incr self' key = Raise.
Proof.
  intros Hnone.
  exists {| Cache.data := <[key := [0; 0; 0; 1]%N]> (Cache.data self) |}.
  assert (Hget : Cache.MockRedis_get
            {| Cache.data := <[key := [0; 0; 0; 1]%N]> (Cache.data self) |} key
          = Some [0; 0; 0; 1]%N).
  { unfold Cache.MockRedis_get. cbn [Cache.data]. apply lookup_insert_eq. }
  repeat apply conj.
  - unfold Counter.MockRedis_incr. rewrite Hnone. reflexivity.
  - exact Hget.
  - intros other Hne. unfold Cache.MockRedis_get. cbn [Cache.data].
    apply lookup_insert_ne. congruence.
  - reflexivity.
  - unfold Counter.MockRedis_incr. rewrite Hget. reflexivity.
Qed.

Lemma mock_redis_incr_once_witness :
  exists self',
    Counter.MockRedis_incr Cache.MockRedis_init (lit "feedback_likes") = Return self'
    /\ Cache.MockRedis_get self' (lit "feedback_likes") = Some [0; 0; 0; 1]%N
    /\ (forall other, other <> lit "feedback_likes" ->
          Cache.MockRedis_get self' other = Cache.MockRedis_get Cache.MockRedis_init other)
    /\ Counter.py_int [0; 0; 0; 1]%N = Raise
    /\ Counter.MockRedis_incr self' (lit "feedback_likes") = Raise.
Proof.
  apply (mock_redis_incr_once Cache.MockRedis_init (lit "feedback_likes")).
  reflexivity.
Defined.

(** On a key that holds the decimal spelling of a number, as [setex] may
    have left it, [incr] does count. *)
Example mock_redis_incr_decimal :
  (self ← Cache.MockRedis_setex Cache.MockRedis_init (lit "n") 60 (lit " 41 ");
   self ← Counter.MockRedis_incr self (lit "n");
   Return (Cache.MockRedis_get self (lit "n")))
  = Return (Some [0; 0; 0; 42]%N).
Proof. vm_compute. reflexivity. Qed.

(** ** Runs of the rate limiter *)

Lemma replay_cons now u calls (m : gmap Z Z) :
  replay ((now, u) :: calls) m
  = (fst (RateLimit.check_rate_limit now u m)
       :: fst (replay calls (snd (RateLimit.check_rate_limit now u m))),
     snd (replay calls (snd (RateLimit.check_rate_limit now u m)))).
Proof.
  cbn [replay]. destruct (RateLimit.check_rate_limit now u m) as [ok m'].
  cbn [fst snd]. destruct (replay calls m') as [oks m'']. reflexivity.
Qed.

Lemma check_rate_limit_allowed_gap now u (m : gmap Z Z) last :
  m !! u = Some last ->
  fst (RateLimit.check_rate_limit now u m) = true ->
  seconds 60 <= now - last.
Proof.
  intros Hlast. unfold RateLimit.check_rate_limit. rewrite Hlast.
  destruct (Z.ltb_spec (now - last) (RateLimit.minutes 1)); cbn [fst];
    [discriminate|]. intros _. unfold RateLimit.minutes, seconds in *. lia.
Qed.

Lemma replay_after_record calls : forall (m : gmap Z Z) u last j now,
  m !! u = Some last ->
  Forall (fun call => last <= fst call) calls ->
  StronglySorted Z.le (map fst calls) ->
  calls !! j = Some (now, u) ->
  fst (replay calls m) !! j = Some true ->
  seconds 60 <= now - last.
Proof.
  induction calls as [|[t1 u1] calls IH]; intros m u last j now Hlast Hge Hs Hj Hok;
    [discriminate|].
  rewrite replay_cons in Hok. cbn [fst] in Hok.
  cbn [map] in Hs. apply StronglySorted_inv in Hs as [Hs Hall].
  apply List.Forall_cons_iff in Hge as [Hge1 Hge]. cbn [fst] in Hge1.
  destruct j as [|j]; cbn in Hj, Hok.
  - injection Hj as -> ->. injection Hok as Hok.
    eapply check_rate_limit_allowed_gap; eassumption.
  - destruct (decide (u1 = u)) as [->|Hne].
    + destruct (fst (RateLimit.check_rate_limit t1 u m)) eqn:Hfirst.
      * pose proof (check_rate_limit_records t1 u m Hfirst) as Hrec.
        assert (Hgap : seconds 60 <= now - t1).
        { eapply (IH _ u t1 j now Hrec); [|exact Hs|exact Hj|exact Hok].
          apply List.Forall_forall. intros [t2 u2] Hin.
          rewrite List.Forall_forall in Hall. apply Hall.
          apply (in_map fst) in Hin. exact Hin. }
        lia.
      * rewrite (check_rate_limit_rejects_unchanged t1 u m Hfirst) in Hok.
        eapply IH; eassumption.
    + eapply (IH _ u last j now); [|exact Hge|exact Hs|exact Hj|exact Hok].
      rewrite check_rate_limit_other by congruence. exact Hlast.
Qed.

(** With a clock that does not go back, two submissions of one user that
    are both allowed are at least 60 seconds apart, whatever the other
    users do in between and whatever the dictionary held before. *)
Theorem allowed_calls_a_minute_apart (calls : list (Z * Z)) :
  forall (last_usage : gmap Z Z) (i j : nat) (ti tj u : Z),
  StronglySorted Z.le (map fst calls) ->
  (i < j)%nat ->
  calls !! i = Some (ti, u) -> calls !! j = Some (tj, u) ->
  fst (replay calls last_usage) !! i = Some true ->
  fst (replay calls last_usage) !! j = Some true ->
  seconds 60 <= tj - ti.
Proof.
  induction calls as [|[t1 u1] calls IH]; intros m i j ti tj u Hs Hij Hi Hj Hoki Hokj;
    [discriminate|].
  rewrite replay_cons in Hoki, Hokj. cbn [fst] in Hoki, Hokj.
  cbn [map] in Hs. apply StronglySorted_inv in Hs as [Hs Hall].
  destruct j as [|j]; [lia|]. cbn in Hj, Hokj.
  destruct i as [|i]; cbn in Hi, Hoki.
  - injection Hi as -> ->. injection Hoki as Hoki.
    pose proof (check_rate_limit_records ti u m Hoki) as Hrec.
    eapply (replay_after_record calls _ u ti j tj Hrec); [|exact Hs|exact Hj|exact Hokj].
    apply List.Forall_forall. intros [t2 u2] Hin.
    rewrite List.Forall_forall in Hall. apply Hall.
    apply (in_map fst) in Hin. exact Hin.
  - eapply (IH _ i j ti tj u); [exact Hs|lia|exact Hi|exact Hj|exact Hoki|exact Hokj].
Qed.

Lemma allowed_calls_a_minute_apart_witness :
  seconds 60 <= seconds 75 - seconds 10.
Proof.
  apply (allowed_calls_a_minute_apart
           [(seconds 10, 7); (seconds 20, 8); (seconds 40, 7); (seconds 75, 7)]
           ∅ 0%nat 3%nat (seconds 10) (seconds 75) 7).
  - unfold seconds. cbn [map fst]. repeat constructor; lia.
  - lia.
  - reflexivity.
  - reflexivity.
  - vm_compute. reflexivity.
  - vm_compute. reflexivity.
Defined.

(** The answers of that run: the call at second 40 is the one turned away. *)
Example replay_answers :
  fst (replay [(seconds 10, 7); (seconds 20, 8); (seconds 40, 7); (seconds 75, 7)] ∅)
  = [true; true; false; true].
Proof. vm_compute. reflexivity. Qed.

(** ** Who may use the bot *)

Lemma set_truthy_spec (s : gset Z) : Auth.set_truthy s = true <-> s <> ∅.
Proof.
  unfold Auth.set_truthy. rewrite negb_true_iff, bool_decide_eq_false. reflexivity.
Qed.

Lemma check_user_auth_cases (self : Auth.AuthLists) (usuario_id : Z) :
  (usuario_id ∈ Auth.BANNED_USERS self ->
   Auth.check_user_auth self usuario_id = (false, lit "Usuario baneado"))
  /\ (usuario_id ∉ Auth.BANNED_USERS self ->
      Auth.AUTHORIZED_USERS self <> ∅ ->
      usuario_id ∉ Auth.AUTHORIZED_USERS self ->
      Auth.check_user_auth self usuario_id = (false, lit "Usuario no autorizado"))
  /\ (usuario_id ∉ Auth.BANNED_USERS self ->
      Auth.AUTHORIZED_USERS self = ∅ \/ usuario_id ∈ Auth.AUTHORIZED_USERS self ->
      Auth.check_user_auth self usuario_id = (true, lit "Autorizado")).
Proof.
  unfold Auth.check_user_auth, Auth.set_truthy. repeat apply conj.
  - intros Hb. rewrite (bool_decide_eq_true_2 _ Hb).
    rewrite bool_decide_eq_false_2 by set_solver. reflexivity.
  - intros Hb Hne Ha. rewrite (bool_decide_eq_false_2 _ Hb), andb_false_r.
    rewrite (bool_decide_eq_false_2 _ Hne), (bool_decide_eq_false_2 _ Ha). reflexivity.
  - intros Hb Ha. rewrite (bool_decide_eq_false_2 _ Hb), andb_false_r.
    destruct Ha as [Ha|Ha].
    + rewrite (bool_decide_eq_true_2 _ Ha). reflexivity.
    + rewrite (bool_decide_eq_true_2 _ Ha), andb_false_r. reflexivity.
Qed.


(** The ban list wins over the whitelist, and an empty whitelist lets
    everybody in: a user is admitted exactly when they are not banned and
    the whitelist is empty or names them. *)
Theorem check_user_auth_spec (self : Auth.AuthLists) (usuario_id : Z) :
  (usuario_id ∈ Auth.BANNED_USERS self ->
   Auth.check_user_auth self usuario_id = (false, lit "Usuario baneado"))
  /\ (usuario_id ∉ Auth.BANNED_USERS self ->
      Auth.AUTHORIZED_USERS self <> ∅ ->
      usuario_id ∉ Auth.AUTHORIZED_USERS self ->
      Auth.check_user_auth self usuario_id = (false, lit "Usuario no autorizado"))
  /\ (usuario_id ∉ Auth.BANNED_USERS self ->
      Auth.AUTHORIZED_USERS self = ∅ \/ usuario_id ∈ Auth.AUTHORIZED_USERS self ->
      Auth.check_user_auth self usuario_id = (true, lit "Autorizado")).
Proof. apply check_user_auth_cases. Qed.

Lemma check_user_auth_spec_witness :
  Auth.check_user_auth
    {| Auth.AUTHORIZED_USERS := {[ 5; 6 ]}; Auth.BANNED_USERS := {[ 5 ]} |} 5
  = (false, lit "Usuario baneado")
  /\ Auth.check_user_auth
       {| Auth.AUTHORIZED_USERS := {[ 5; 6 ]}; Auth.BANNED_USERS := {[ 5 ]} |} 7
     = (false, lit "Usuario no autorizado")
  /\ Auth.check_user_auth
       {| Auth.AUTHORIZED_USERS := ∅; Auth.BANNED_USERS := {[ 5 ]} |} 7
     = (true, lit "Autorizado").
Proof.
  repeat apply conj.
  - apply (proj1 (check_user_auth_spec _ 5)). cbn. set_solver.
  - apply (proj1 (proj2 (check_user_auth_spec _ 7))); cbn; set_solver.
  - apply (proj2 (proj2 (check_user_auth_spec _ 7))); cbn; set_solver.
Defined.

(** Only the administrator changes the lists: for any other caller the
    three commands answer that permission is missing and leave both sets as
    they are, whatever the argument. *)
Theorem auth_commands_admin_only (self : Auth.AuthLists) (usuario_id : Z)
    (arg : option (exc Z)) :
  usuario_id <> 1350300219 ->
  Auth.authorize_user self usuario_id arg = (self, Auth.NoPermission)
  /\ Auth.ban_user self usuario_id arg = (self, Auth.NoPermission)
  /\ Auth.unban_user self usuario_id arg = (self, Auth.NoPermission).
Proof.
  intros Hne.
  assert (Hadm : bool_decide (usuario_id ∈ Auth.ADMINS) = false).
  { apply bool_decide_eq_false_2. unfold Auth.ADMINS. set_solver. }
  unfold Auth.authorize_user, Auth.ban_user, Auth.unban_user, Auth.with_target.
  rewrite Hadm. repeat apply conj; reflexivity.
Qed.

Lemma auth_commands_admin_only_witness :
  Auth.ban_user {| Auth.AUTHORIZED_USERS := {[ 5 ]}; Auth.BANNED_USERS := ∅ |}
    42 (Some (Return 5))
  = ({| Auth.AUTHORIZED_USERS := {[ 5 ]}; Auth.BANNED_USERS := ∅ |}, Auth.NoPermission).
Proof.
  refine (proj1 (proj2 (auth_commands_admin_only _ 42 (Some (Return 5)) _))). lia.
Defined.

Lemma ban_user_by_admin self target :
  target <> 0 ->
  Auth.ban_user self 1350300219 (Some (Return target))
  = ({| Auth.AUTHORIZED_USERS := Auth.AUTHORIZED_USERS self ∖ {[target]};
        Auth.BANNED_USERS := {[target]} ∪ Auth.BANNED_USERS self |},
     Auth.Done target).
Proof.
  intros Hne. unfold Auth.ban_user, Auth.with_target.
  destruct (Z.eqb_spec target 0); [contradiction|]. reflexivity.
Qed.

Lemma authorize_user_by_admin self target :
  target <> 0 ->
  Auth.authorize_user self 1350300219 (Some (Return target))
  = ({| Auth.AUTHORIZED_USERS := {[target]} ∪ Auth.AUTHORIZED_USERS self;
        Auth.BANNED_USERS := Auth.BANNED_USERS self |},
     Auth.Done target).
Proof.
  intros Hne. unfold Auth.authorize_user, Auth.with_target.
  destruct (Z.eqb_spec target 0); [contradiction|]. reflexivity.
Qed.

Lemma unban_user_by_admin self target :
  target <> 0 ->
  Auth.unban_user self 1350300219 (Some (Return target))
  = ({| Auth.AUTHORIZED_USERS := Auth.AUTHORIZED_USERS self;
        Auth.BANNED_USERS := Auth.BANNED_USERS self ∖ {[target]} |},
     Auth.Done target).
Proof.
  intros Hne. unfold Auth.unban_user, Auth.with_target.
  destruct (Z.eqb_spec target 0); [contradiction|]. reflexivity.
Qed.

Lemma check_banned self u :
  u ∈ Auth.BANNED_USERS self ->
  Auth.check_user_auth self u = (false, lit "Usuario baneado").
Proof.
  intros Hb. unfold Auth.check_user_auth, Auth.set_truthy.
  rewrite (bool_decide_eq_true_2 _ Hb).
  rewrite bool_decide_eq_false_2 by set_solver. reflexivity.
Qed.

(** A ban holds: once the administrator has banned a user, the user is
    turned away as banned, and authorizing them afterwards does not change
    that. *)
Theorem ban_then_authorize_stays_banned (self : Auth.AuthLists) (target : Z) :
  target <> 0 ->
  let banned := fst (Auth.ban_user self 1350300219 (Some (Return target))) in
  Auth.check_user_auth banned target = (false, lit "Usuario baneado")
  /\ Auth.check_user_auth
       (fst (Auth.authorize_user banned 1350300219 (Some (Return target)))) target
     = (false, lit "Usuario baneado").
Proof.
  intros Hne banned. subst banned. rewrite (ban_user_by_admin _ _ Hne). cbn [fst].
  rewrite (authorize_user_by_admin _ _ Hne). cbn [fst].
  split; apply check_banned; cbn; set_solver.
Qed.

Lemma ban_then_authorize_stays_banned_witness :
  let banned :=
    fst (Auth.ban_user {| Auth.AUTHORIZED_USERS := {[ 5 ]}; Auth.BANNED_USERS := ∅ |}
           1350300219 (Some (Return 5))) in
  Auth.check_user_auth banned 5 = (false, lit "Usuario baneado")
  /\ Auth.check_user_auth
       (fst (Auth.authorize_user banned 1350300219 (Some (Return 5)))) 5
     = (false, lit "Usuario baneado").
Proof.
  apply (ban_then_authorize_stays_banned
           {| Auth.AUTHORIZED_USERS := {[ 5 ]}; Auth.BANNED_USERS := ∅ |} 5). lia.
Defined.

(** Banning the only user of the whitelist empties it, and an empty
    whitelist is no whitelist: a user that was turned away as not
    authorized is admitted after the ban of somebody else. *)
Theorem ban_last_authorized_opens (self : Auth.AuthLists) (target other : Z) :
  target <> 0 ->
  Auth.AUTHORIZED_USERS self = {[target]} ->
  other <> target -> other ∉ Auth.BANNED_USERS self ->
  Auth.check_user_auth self other = (false, lit "Usuario no autorizado")
  /\ Auth.check_user_auth
       (fst (Auth.ban_user self 1350300219 (Some (Return target)))) other
     = (true, lit "Autorizado").
Proof.
  intros Hne Hauth Ho Hb. split.
  - apply (proj1 (proj2 (check_user_auth_cases self other))); [exact Hb| |];
      rewrite Hauth; set_solver.
  - rewrite (ban_user_by_admin _ _ Hne). cbn [fst].
    apply (proj2 (proj2 (check_user_auth_cases _ other))); cbn.
    + set_solver.
    + left. rewrite Hauth. set_solver.
Qed.

Lemma ban_last_authorized_opens_witness :
  Auth.check_user_auth {| Auth.AUTHORIZED_USERS := {[ 5 ]}; Auth.BANNED_USERS := ∅ |} 9
  = (false, lit "Usuario no autorizado")
  /\ Auth.check_user_auth
       (fst (Auth.ban_user {| Auth.AUTHORIZED_USERS := {[ 5 ]}; Auth.BANNED_USERS := ∅ |}
               1350300219 (Some (Return 5)))) 9
     = (true, lit "Autorizado").
Proof.
  apply (ban_last_authorized_opens
           {| Auth.AUTHORIZED_USERS := {[ 5 ]}; Auth.BANNED_USERS := ∅ |} 5 9).
  - lia.
  - reflexivity.
  - lia.
  - cbn. apply not_elem_of_empty.
Defined.

(** Lifting a ban does not give the place on the whitelist back: a
    whitelisted user who is banned and then unbanned is turned away as not
    authorized, as long as somebody else is on the whitelist. *)
Theorem unban_does_not_reauthorize (self : Auth.AuthLists) (target other : Z) :
  target <> 0 ->
  target ∈ Auth.AUTHORIZED_USERS self -> target ∉ Auth.BANNED_USERS self ->
  other ∈ Auth.AUTHORIZED_USERS self -> other <> target ->
  Auth.check_user_auth self target = (true, lit "Autorizado")
  /\ Auth.check_user_auth
       (fst (Auth.unban_user
               (fst (Auth.ban_user self 1350300219 (Some (Return target))))
               1350300219 (Some (Return target))))
       target
     = (false, lit "Usuario no autorizado").
Proof.
  intros Hne Ht Hb Ho Hot. split.
  - apply (proj2 (proj2 (check_user_auth_cases self target))); [exact Hb|].
    right. exact Ht.
  - rewrite (ban_user_by_admin _ _ Hne). cbn [fst].
    rewrite (unban_user_by_admin _ _ Hne). cbn [fst].
    apply (proj1 (proj2 (check_user_auth_cases _ target)));
      cbn [Auth.BANNED_USERS Auth.AUTHORIZED_USERS].
    + intros Hin. apply elem_of_difference in Hin as [_ Hin]. apply Hin.
      apply elem_of_singleton. reflexivity.
    + intros Hempty. assert (Hin : other ∈ Auth.AUTHORIZED_USERS self ∖ {[target]}).
      { apply elem_of_difference. split; [exact Ho|].
        intros Hs. apply elem_of_singleton in Hs. contradiction. }
      rewrite Hempty in Hin. exact (not_elem_of_empty _ Hin).
    + intros Hin. apply elem_of_difference in Hin as [_ Hin]. apply Hin.
      apply elem_of_singleton. reflexivity.
Qed.

Lemma unban_does_not_reauthorize_witness :
  Auth.check_user_auth {| Auth.AUTHORIZED_USERS := {[ 5; 6 ]}; Auth.BANNED_USERS := ∅ |} 5
  = (true, lit "Autorizado")
  /\ Auth.check_user_auth
       (fst (Auth.unban_user
               (fst (Auth.ban_user
                       {| Auth.AUTHORIZED_USERS := {[ 5; 6 ]}; Auth.BANNED_USERS := ∅ |}
                       1350300219 (Some (Return 5))))
               1350300219 (Some (Return 5))))
       5
     = (false, lit "Usuario no autorizado").
Proof.
  apply (unban_does_not_reauthorize
           {| Auth.AUTHORIZED_USERS := {[ 5; 6 ]}; Auth.BANNED_USERS := ∅ |} 5 6).
  - lia.
  - cbn. apply elem_of_union. left. apply elem_of_singleton. reflexivity.
  - cbn. apply not_elem_of_empty.
  - cbn. apply elem_of_union. right. apply elem_of_singleton. reflexivity.
  - lia.
Defined.

(** ** Settings and history *)

Lemma get_user_setting_value (usuario_id : Persist.user_key) (setting : pystr)
    (default : Persist.setting_value)
    (us : gmap Persist.user_key (gmap pystr Persist.setting_value)) :
  fst (Persist.get_user_setting usuario_id setting default us)
  = from_option id default (from_option id ∅ (us !! usuario_id) !! setting).
Proof.
  unfold Persist.get_user_setting. cbn [fst].
  destruct (us !! usuario_id) as [d|] eqn:Hu.
  - rewrite Hu. reflexivity.
  - rewrite lookup_insert_eq. reflexivity.
Qed.

Lemma get_user_setting_state (usuario_id : Persist.user_key) (setting : pystr)
    (default : Persist.setting_value)
    (us : gmap Persist.user_key (gmap pystr Persist.setting_value))
    (other : Persist.user_key) :
  from_option id ∅ (snd (Persist.get_user_setting usuario_id setting default us) !! other)
  = from_option id ∅ (us !! other).
Proof.
  unfold Persist.get_user_setting. cbn [snd].
  destruct (us !! usuario_id) as [d|] eqn:Hu; [reflexivity|].
  destruct (decide (usuario_id = other)) as [<-|Hne].
  - rewrite lookup_insert_eq, Hu. reflexivity.
  - rewrite lookup_insert_ne by exact Hne. reflexivity.
Qed.

Lemma set_user_setting_lookup (usuario_id : Persist.user_key) (setting : pystr)
    (value : Persist.setting_value)
    (us : gmap Persist.user_key (gmap pystr Persist.setting_value))
    (other : Persist.user_key) :
  from_option id ∅ (Persist.set_user_setting usuario_id setting value us !! other)
  = if decide (usuario_id = other)
    then <[setting := value]> (from_option id ∅ (us !! usuario_id))
    else from_option id ∅ (us !! other).
Proof.
  unfold Persist.set_user_setting.
  destruct (decide (usuario_id = other)) as [<-|Hne].
  - rewrite lookup_insert_eq. cbn.
    destruct (us !! usuario_id) as [d|] eqn:Hu; [rewrite Hu; reflexivity|].
    rewrite lookup_insert_eq. reflexivity.
  - rewrite lookup_insert_ne by exact Hne.
    destruct (us !! usuario_id) as [d|] eqn:Hu; [reflexivity|].
    rewrite lookup_insert_ne by exact Hne. reflexivity.
Qed.

Lemma set_then_get (usuario_id : Persist.user_key) (setting : pystr)
    (value : Persist.setting_value)
    (us : gmap Persist.user_key (gmap pystr Persist.setting_value))
    (u : Persist.user_key) (s : pystr) (d : Persist.setting_value) :
  fst (Persist.get_user_setting u s d
         (Persist.set_user_setting usuario_id setting value us))
  = if decide (usuario_id = u /\ setting = s) then value
    else fst (Persist.get_user_setting u s d us).
Proof.
  rewrite !get_user_setting_value, set_user_setting_lookup.
  destruct (decide (usuario_id = u)) as [->|Hu].
  - destruct (decide (setting = s)) as [->|Hs].
    + rewrite decide_True by auto. rewrite lookup_insert_eq. reflexivity.
    + rewrite decide_False by (intros [_ H]; contradiction).
      rewrite lookup_insert_ne by exact Hs. reflexivity.
  - rewrite decide_False by (intros [H _]; contradiction). reflexivity.
Qed.

(** A setting that was set is the one read back, whatever the default, and
    setting it changes no other setting and no other user; reading a
    setting, which may create the empty record of the user, changes nothing
    that is read afterwards. *)
Theorem user_setting_round_trip (usuario_id : Persist.user_key) (setting : pystr)
    (value : Persist.setting_value)
    (user_settings : gmap Persist.user_key (gmap pystr Persist.setting_value)) :
  (forall default,
     fst (Persist.get_user_setting usuario_id setting default
            (Persist.set_user_setting usuario_id setting value user_settings))
     = value)
  /\ (forall u s default,
       (u, s) <> (usuario_id, setting) ->
       fst (Persist.get_user_setting u s default
              (Persist.set_user_setting usuario_id setting value user_settings))
       = fst (Persist.get_user_setting u s default user_settings))
  /\ (forall u s default default',
       fst (Persist.get_user_setting u s default
              (snd (Persist.get_user_setting usuario_id setting default' user_settings)))
       = fst (Persist.get_user_setting u s default user_settings)).
Proof.
  repeat apply conj.
  - intros default. rewrite set_then_get, decide_True by auto. reflexivity.
  - intros u s default Hne. rewrite set_then_get, decide_False; [reflexivity|].
    intros [-> ->]. contradiction.
  - intros u s default default'.
    rewrite !get_user_setting_value, get_user_setting_state. reflexivity.
Qed.

Lemma user_setting_round_trip_witness :
  fst (Persist.get_user_setting (inl 7) (lit "output_format") (Persist.VStr (lit "epub"))
         (Persist.set_user_setting (inl 7) (lit "target_language")
            (Persist.VStr (lit "en")) ∅))
  = fst (Persist.get_user_setting (inl 7) (lit "output_format")
           (Persist.VStr (lit "epub")) ∅).
Proof.
  apply (proj1 (proj2 (user_setting_round_trip (inl 7) (lit "target_language")
                         (Persist.VStr (lit "en")) ∅))).
  discriminate.
Defined.

Lemma toggle_comillas_value (usuario_id : Z)
    (us : gmap Persist.user_key (gmap pystr Persist.setting_value))
    (default : Persist.setting_value) :
  fst (Persist.get_user_setting (inl usuario_id) (lit "reemplazar_comillas") default
         (Persist.toggle_comillas usuario_id us))
  = Persist.VBool
      (negb (Persist.value_truthy
               (fst (Persist.get_user_setting (inl usuario_id)
                       (lit "reemplazar_comillas") (Persist.VBool true) us)))).
Proof.
  unfold Persist.toggle_comillas.
  destruct (Persist.get_user_setting (inl usuario_id) (lit "reemplazar_comillas")
              (Persist.VBool true) us) as [current us'] eqn:Hget.
  rewrite set_then_get, decide_True by auto. reflexivity.
Qed.

(** Quote replacement is on until it is switched off: the first toggle of a
    user who never set it turns it off, a toggle always inverts what
    [get_user_setting] answers, and two toggles give the answer back. *)
Theorem toggle_comillas_spec (usuario_id : Z)
    (user_settings : gmap Persist.user_key (gmap pystr Persist.setting_value)) :
  let read us :=
    Persist.value_truthy
      (fst (Persist.get_user_setting (inl usuario_id) (lit "reemplazar_comillas")
              (Persist.VBool true) us)) in
  (user_settings !! (inl usuario_id : Persist.user_key) = None ->
   read (Persist.toggle_comillas usuario_id user_settings) = false)
  /\ read (Persist.toggle_comillas usuario_id user_settings) = negb (read user_settings)
  /\ read (Persist.toggle_comillas usuario_id
             (Persist.toggle_comillas usuario_id user_settings))
     = read user_settings.
Proof.
  intros read. subst read. cbn beta. repeat apply conj.
  - intros Hnone. rewrite toggle_comillas_value, get_user_setting_value, Hnone.
    reflexivity.
  - rewrite toggle_comillas_value. reflexivity.
  - rewrite !toggle_comillas_value. cbn [Persist.value_truthy].
    apply negb_involutive.
Qed.

Lemma toggle_comillas_spec_witness :
  Persist.value_truthy
    (fst (Persist.get_user_setting (inl 7) (lit "reemplazar_comillas")
            (Persist.VBool true) (Persist.toggle_comillas 7 ∅)))
  = false.
Proof.
  apply (proj1 (toggle_comillas_spec 7 ∅)). reflexivity.
Defined.

Lemma slice_first5 {A} (l : list A) : slice l 0 5 = firstn 5 l.
Proof. reflexivity. Qed.

Lemma agregar_historial_lookup (usuario_id : Persist.user_key) (titulo enlace : pystr)
    (h : gmap Persist.user_key (list (pystr * pystr))) (other : Persist.user_key) :
  Persist.agregar_historial usuario_id titulo enlace h !! other
  = if decide (usuario_id = other)
    then Some (firstn 5 ((titulo, enlace) :: from_option id [] (h !! usuario_id)))
    else h !! other.
Proof.
  unfold Persist.agregar_historial. rewrite slice_first5.
  destruct (decide (usuario_id = other)) as [<-|Hne].
  - rewrite lookup_insert_eq.
    destruct (h !! usuario_id) as [l|] eqn:Hu; [rewrite Hu; reflexivity|].
    rewrite lookup_insert_eq. reflexivity.
  - rewrite lookup_insert_ne by exact Hne.
    destruct (h !! usuario_id) as [l|] eqn:Hu; [reflexivity|].
    rewrite lookup_insert_ne by exact Hne. reflexivity.
Qed.

Lemma firstn_app_firstn {A} (n : nat) (a b : list A) :
  firstn n (a ++ firstn n b) = firstn n (a ++ b).
Proof.
  rewrite !firstn_app, firstn_firstn. do 2 f_equal. lia.
Qed.

Lemma agregar_todos_recorded entries : forall (usuario_id : Persist.user_key)
    (h : gmap Persist.user_key (list (pystr * pystr))) l0,
  h !! usuario_id = Some l0 -> (length l0 <= 5)%nat ->
  agregar_todos entries usuario_id h !! usuario_id
  = Some (firstn 5 (rev entries ++ l0)).
Proof.
  induction entries as [|[titulo enlace] entries IH]; intros usuario_id h l0 Hl0 Hlen.
  - cbn. rewrite take_ge by exact Hlen. exact Hl0.
  - cbn [agregar_todos fold_left fst snd].
    change (fold_left _ entries ?h') with (agregar_todos entries usuario_id h').
    rewrite (IH usuario_id _ (firstn 5 ((titulo, enlace) :: l0))).
    + rewrite firstn_app_firstn. cbn [rev]. rewrite <- app_assoc. reflexivity.
    + rewrite agregar_historial_lookup, decide_True by reflexivity.
      rewrite Hl0. reflexivity.
    + rewrite length_take. lia.
Qed.

Lemma agregar_todos_other entries : forall (usuario_id other : Persist.user_key)
    (h : gmap Persist.user_key (list (pystr * pystr))),
  other <> usuario_id ->
  agregar_todos entries usuario_id h !! other = h !! other.
Proof.
  induction entries as [|[titulo enlace] entries IH]; intros usuario_id other h Hne;
    [reflexivity|].
  cbn [agregar_todos fold_left fst snd].
  change (fold_left _ entries ?h') with (agregar_todos entries usuario_id h').
  rewrite (IH _ _ _ Hne), agregar_historial_lookup, decide_False by congruence.
  reflexivity.
Qed.

(** The history of a user is the titles and links of their last five
    translations, the newest first: after any run of [agregar_historial] it
    is the first five of the new entries in reverse order followed by what
    was there, and the history of nobody else has changed. *)
Theorem historial_last_five (entries : list (pystr * pystr)) (entry : pystr * pystr)
    (usuario_id : Persist.user_key)
    (historial : gmap Persist.user_key (list (pystr * pystr))) :
  agregar_todos (entry :: entries) usuario_id historial !! usuario_id
  = Some (firstn 5 (rev (entry :: entries)
                      ++ from_option id [] (historial !! usuario_id)))
  /\ forall other, other <> usuario_id ->
       agregar_todos (entry :: entries) usuario_id historial !! other
       = historial !! other.
Proof.
  split; [|intros other Hne; apply agregar_todos_other; exact Hne].
  destruct entry as [titulo enlace]. cbn [agregar_todos fold_left fst snd].
  change (fold_left _ entries ?h') with (agregar_todos entries usuario_id h').
  rewrite (agregar_todos_recorded entries usuario_id _
             (firstn 5 ((titulo, enlace) :: from_option id [] (historial !! usuario_id)))).
  - rewrite firstn_app_firstn. cbn [rev]. rewrite <- app_assoc. reflexivity.
  - rewrite agregar_historial_lookup, decide_True by reflexivity. reflexivity.
  - rewrite length_take. lia.
Qed.

Example historial_six_translations :
  agregar_todos
    [(lit "a", lit "1"); (lit "b", lit "2"); (lit "c", lit "3");
     (lit "d", lit "4"); (lit "e", lit "5"); (lit "f", lit "6")] (inl 7) ∅
    !! (inl 7 : Persist.user_key)
  = Some [(lit "f", lit "6"); (lit "e", lit "5"); (lit "d", lit "4");
          (lit "c", lit "3"); (lit "b", lit "2")].
Proof. vm_compute. reflexivity. Qed.

(** What was saved under a Telegram user id is not found after a restart:
    the files are JSON objects, whose keys are strings, and the handlers
    look up the id as a number. After [load_persistent_data] has read both
    files, no user id has a history and every setting reads as its
    default. *)
Theorem load_persistent_data_loses_ids
    (historial_obj : gmap pystr (list (pystr * pystr)))
    (settings_obj : gmap pystr (gmap pystr Persist.setting_value))
    (self : Persist.Persistent) (usuario_id : Z) (setting : pystr)
    (default : Persist.setting_value) :
  let loaded :=
    Persist.load_persistent_data (Persist.Json historial_obj)
      (Persist.Json settings_obj) self in
  Persist.historial loaded !! (inl usuario_id : Persist.user_key) = None
  /\ fst (Persist.get_user_setting (inl usuario_id) setting default
            (Persist.user_settings loaded))
     = default.
Proof.
  cbn [Persist.load_persistent_data Persist.historial Persist.user_settings].
  assert (Hk : forall A (m : gmap pystr A),
    (kmap (inr : pystr -> Persist.user_key) m : gmap Persist.user_key A)
      !! (inl usuario_id : Persist.user_key) = None).
  { intros A m. apply lookup_kmap_None; [apply _|]. intros i Hi. discriminate. }
  split; [apply Hk|].
  rewrite get_user_setting_value, Hk. reflexivity.
Qed.

(** In one process the setting is found, and it is lost with the restart. *)
Example setting_lost_by_restart :
  let before := Persist.set_user_setting (inl 7) (lit "target_language")
                  (Persist.VStr (lit "en")) ∅ in
  let after :=
    Persist.load_persistent_data (Persist.Json ∅)
      (Persist.Json {[ lit "7" := {[ lit "target_language" := Persist.VStr (lit "en") ]} ]})
      {| Persist.historial := ∅; Persist.user_settings := ∅ |} in
  fst (Persist.get_user_setting (inl 7) (lit "target_language")
         (Persist.VStr (lit "es")) before) = Persist.VStr (lit "en")
  /\ fst (Persist.get_user_setting (inl 7) (lit "target_language")
            (Persist.VStr (lit "es")) (Persist.user_settings after))
     = Persist.VStr (lit "es")
  /\ fst (Persist.get_user_setting (inr (lit "7")) (lit "target_language")
            (Persist.VStr (lit "es")) (Persist.user_settings after))
     = Persist.VStr (lit "en").
Proof. repeat apply conj; vm_compute; reflexivity. Qed.

(** ** Quotes *)





(** ** From a chapter to its translation *)

Section PipelineFacts.

Variable GoogleTranslator : pystr -> pystr -> pystr -> exc Translate.pyval.
Variable deepl_translate : pystr -> pystr -> pystr -> pystr -> exc pystr.
Variable DEEPL_API_KEY : option pystr.
Variable md5_hexdigest : pybytes -> pystr.
Context {S : Type} `{Cache.RedisClient S}.

Local Abbreviation texto_call :=
  (Pipeline.traducir_texto GoogleTranslator deepl_translate DEEPL_API_KEY md5_hexdigest).
Local Abbreviation task_call :=
  (Pipeline.traducir_capitulo_task GoogleTranslator deepl_translate DEEPL_API_KEY
     md5_hexdigest).
Local Abbreviation cached_call :=
  (Cache.traducir_con_cache GoogleTranslator deepl_translate DEEPL_API_KEY md5_hexdigest).

Lemma traducir_texto_for_user (now : Z) (rc : S)
    (us : gmap Persist.user_key (gmap pystr Persist.setting_value))
    (texto source target : pystr) (uid : Z) :
  uid <> 0 ->
  exists engine target_lang us',
    texto_call now rc us texto source target (Some uid)
    = (fst (cached_call now rc texto source target_lang engine),
       snd (cached_call now rc texto source target_lang engine), us')
    /\ engine = Pipeline.value_str
                  (fst (Persist.get_user_setting (inl uid) (lit "translation_engine")
                          (Persist.VStr (lit "google")) us))
    /\ target_lang = Pipeline.value_str
                       (fst (Persist.get_user_setting (inl uid) (lit "target_language")
                               (Persist.VStr (lit "es")) us))
    /\ forall other : Persist.user_key,
         from_option id ∅ (us' !! other) = from_option id ∅ (us !! other).
Proof.
  intros Hne. unfold Pipeline.traducir_texto, Pipeline.id_truthy.
  destruct (Z.eqb_spec uid 0) as [|_]; [contradiction|]. cbn [negb from_option id].
  destruct (Persist.get_user_setting (inl uid) (lit "translation_engine")
              (Persist.VStr (lit "google")) us) as [engine us1] eqn:H1.
  destruct (Persist.get_user_setting (inl uid) (lit "target_language")
              (Persist.VStr (lit "es")) us1) as [target_lang us2] eqn:H2.
  destruct (cached_call now rc texto source (Pipeline.value_str target_lang)
              (Pipeline.value_str engine)) as [result rc'] eqn:H3.
  exists (Pipeline.value_str engine), (Pipeline.value_str target_lang), us2.
  repeat apply conj.
  - rewrite H3. reflexivity.
  - reflexivity.
  - f_equal. change target_lang with (fst (target_lang, us2)). rewrite <- H2.
    change us1 with (snd (engine, us1)). rewrite <- H1.
    rewrite !get_user_setting_value, get_user_setting_state. reflexivity.
  - intros other. change us2 with (snd (target_lang, us2)). rewrite <- H2.
    rewrite get_user_setting_state. change us1 with (snd (engine, us1)).
    rewrite <- H1. apply get_user_setting_state.
Qed.

End PipelineFacts.

(** For a caller with a user id the [target] argument does not count: the
    language is the user's own setting, and for a user who never set
    anything the text goes to the cache and the engines as a request for
    Spanish through Google. *)
Theorem traducir_texto_target_ignored
    (GoogleTranslator : pystr -> pystr -> pystr -> exc Translate.pyval)
    (deepl_translate : pystr -> pystr -> pystr -> pystr -> exc pystr)
    (DEEPL_API_KEY : option pystr) (md5_hexdigest : pybytes -> pystr)
    (S : Type) (client : Cache.RedisClient S) (now : Z) (rc : S)
    (us : gmap Persist.user_key (gmap pystr Persist.setting_value))
    (texto source target target' : pystr) (uid : Z) :
  uid <> 0 ->
  Pipeline.traducir_texto GoogleTranslator deepl_translate DEEPL_API_KEY md5_hexdigest
    now rc us texto source target (Some uid)
  = Pipeline.traducir_texto GoogleTranslator deepl_translate DEEPL_API_KEY md5_hexdigest
      now rc us texto source target' (Some uid)
  /\ (us !! (inl uid : Persist.user_key) = None ->
      fst (Pipeline.traducir_texto GoogleTranslator deepl_translate DEEPL_API_KEY
             md5_hexdigest now rc us texto source target (Some uid))
      = Cache.traducir_con_cache GoogleTranslator deepl_translate DEEPL_API_KEY
          md5_hexdigest now rc texto source (lit "es") (lit "google")).
Proof.
  intros Hne. split.
  - unfold Pipeline.traducir_texto, Pipeline.id_truthy.
    destruct (Z.eqb_spec uid 0) as [|_]; [contradiction|]. reflexivity.
  - intros Hfresh.
    destruct (traducir_texto_for_user GoogleTranslator deepl_translate DEEPL_API_KEY
                md5_hexdigest now rc us texto source target uid Hne)
      as (engine & target_lang & us' & -> & -> & -> & _).
    rewrite !get_user_setting_value, Hfresh. cbn [fst].
    destruct (Cache.traducir_con_cache _ _ _ _ _ _ _ _ _ _); reflexivity.
Qed.

Lemma traducir_texto_target_ignored_witness :
  fst (Pipeline.traducir_texto (engine_says "hola") deepl_down None hexdigest_of_bytes
         0 Cache.MockRedis_init ∅ (lit "hello") (lit "en") (lit "fr") (Some 7))
  = Cache.traducir_con_cache (engine_says "hola") deepl_down None hexdigest_of_bytes
      0 Cache.MockRedis_init (lit "hello") (lit "en") (lit "es") (lit "google").
Proof.
  apply (proj2 (traducir_texto_target_ignored (engine_says "hola") deepl_down None
                  hexdigest_of_bytes Cache.MockRedis _ 0 Cache.MockRedis_init ∅
                  (lit "hello") (lit "en") (lit "fr") (lit "fr") 7 ltac:(lia))).
  reflexivity.
Defined.


Section TaskFacts.

Variable GoogleTranslator : pystr -> pystr -> pystr -> exc Translate.pyval.
Variable deepl_translate : pystr -> pystr -> pystr -> pystr -> exc pystr.
Variable DEEPL_API_KEY : option pystr.
Variable md5_hexdigest : pybytes -> pystr.
Context {S : Type} `{Cache.RedisClient S}.

Local Abbreviation texto_call :=
  (Pipeline.traducir_texto GoogleTranslator deepl_translate DEEPL_API_KEY md5_hexdigest).
Local Abbreviation task_call :=
  (Pipeline.traducir_capitulo_task GoogleTranslator deepl_translate DEEPL_API_KEY
     md5_hexdigest).
Local Abbreviation cached_call :=
  (Cache.traducir_con_cache GoogleTranslator deepl_translate DEEPL_API_KEY md5_hexdigest).

Lemma cached_call_store_down (now : Z) (rc : S) (texto source target engine : pystr) :
  (forall key, Cache.redis_get now rc key = Raise) ->
  truthy (strip texto) = true ->
  fst (cached_call now rc texto source target engine) = Raise.
Proof.
  intros Hget Htext. unfold Cache.traducir_con_cache. rewrite Htext. cbn [negb].
  destruct (Cache.get_cache_key md5_hexdigest texto source target engine);
    [rewrite Hget|]; reflexivity.
Qed.

Lemma traducir_texto_store_down (now : Z) (rc : S)
    (us : gmap Persist.user_key (gmap pystr Persist.setting_value))
    (texto source target : pystr) (usuario_id : option Z) :
  (forall key, Cache.redis_get now rc key = Raise) ->
  truthy (strip texto) = true ->
  fst (fst (texto_call now rc us texto source target usuario_id)) = Raise.
Proof.
  intros Hget Htext. unfold Pipeline.traducir_texto.
  destruct (Pipeline.id_truthy usuario_id).
  - destruct (Persist.get_user_setting _ _ _ us) as [engine us1].
    destruct (Persist.get_user_setting _ _ _ us1) as [target_lang us2].
    pose proof (cached_call_store_down now rc texto source
                  (Pipeline.value_str target_lang) (Pipeline.value_str engine)
                  Hget Htext) as Hc.
    destruct (cached_call _ _ _ _ _ _) as [r rc']. exact Hc.
  - pose proof (cached_call_store_down now rc texto source target (lit "google")
                  Hget Htext) as Hc.
    destruct (cached_call _ _ _ _ _ _) as [r rc']. exact Hc.
Qed.

Lemma traducir_texto_settings (now : Z) (rc : S)
    (us : gmap Persist.user_key (gmap pystr Persist.setting_value))
    (texto source target : pystr) (usuario_id : option Z) (other : Persist.user_key) :
  from_option id ∅ (snd (texto_call now rc us texto source target usuario_id) !! other)
  = from_option id ∅ (us !! other).
Proof.
  unfold Pipeline.traducir_texto.
  destruct (Pipeline.id_truthy usuario_id).
  - destruct (Persist.get_user_setting _ _ _ us) as [engine us1] eqn:H1.
    destruct (Persist.get_user_setting _ _ _ us1) as [target_lang us2] eqn:H2.
    destruct (cached_call _ _ _ _ _ _) as [r rc']. cbn [snd].
    change us2 with (snd (target_lang, us2)). rewrite <- H2, get_user_setting_state.
    change us1 with (snd (engine, us1)). rewrite <- H1. apply get_user_setting_state.
  - destruct (cached_call _ _ _ _ _ _) as [r rc']. reflexivity.
Qed.

Lemma task_result (now : Z) (rc : S)
    (us : gmap Persist.user_key (gmap pystr Persist.setting_value))
    (contenido idioma_original : pystr) (usuario_id : Z) :
  fst (fst (task_call now rc us contenido idioma_original usuario_id))
  = match fst (fst (texto_call now rc us contenido idioma_original (lit "es")
                      (Some usuario_id))) with
    | Raise => contenido
    | Return contenido_trad =>
        if Persist.value_truthy
             (fst (Persist.get_user_setting (inl usuario_id) (lit "reemplazar_comillas")
                     (Persist.VBool true) us))
        then Quotes.reemplazar_comillas contenido_trad
        else contenido_trad
    end.
Proof.
  unfold Pipeline.traducir_capitulo_task.
  pose proof (traducir_texto_settings now rc us contenido idioma_original (lit "es")
                (Some usuario_id) (inl usuario_id)) as Hs.
  destruct (texto_call now rc us contenido idioma_original (lit "es") (Some usuario_id))
    as [[result rc'] us'].
  cbn [fst snd] in *. destruct result as [trad|]; [|reflexivity].
  destruct (Persist.get_user_setting (inl usuario_id) (lit "reemplazar_comillas")
              (Persist.VBool true) us') as [flag us''] eqn:Hflag.
  cbn [fst]. change flag with (fst (flag, us'')). rewrite <- Hflag.
  rewrite !get_user_setting_value, Hs. reflexivity.
Qed.

End TaskFacts.

(** A chapter survives a backing store that is down: when every [get]
    raises, [traducir_capitulo_task] hands a chapter that is not blank back
    as it came, where [traducir_con_cache] alone lets the exception out. *)
Theorem task_store_down_keeps_chapter
    (GoogleTranslator : pystr -> pystr -> pystr -> exc Translate.pyval)
    (deepl_translate : pystr -> pystr -> pystr -> pystr -> exc pystr)
    (DEEPL_API_KEY : option pystr) (md5_hexdigest : pybytes -> pystr)
    (S : Type) (client : Cache.RedisClient S) (now : Z) (rc : S)
    (us : gmap Persist.user_key (gmap pystr Persist.setting_value))
    (contenido idioma_original : pystr) (usuario_id : Z) :
  (forall key, Cache.redis_get now rc key = Raise) ->
  truthy (strip contenido) = true ->
  fst (fst (Pipeline.traducir_capitulo_task GoogleTranslator deepl_translate
              DEEPL_API_KEY md5_hexdigest now rc us contenido idioma_original
              usuario_id))
  = contenido.
Proof.
  intros Hget Htext. rewrite task_result.
  rewrite (traducir_texto_store_down _ _ _ _ now rc us contenido idioma_original
             (lit "es") (Some usuario_id) Hget Htext).
  reflexivity.
Qed.

Lemma task_store_down_keeps_chapter_witness :
  fst (fst (Pipeline.traducir_capitulo_task (engine_says "hola") deepl_down None
              hexdigest_of_bytes 0 Unreachable ∅ (lit "say 'hi'") (lit "en") 7))
  = lit "say 'hi'".
Proof.
  apply (task_store_down_keeps_chapter (engine_says "hola") deepl_down None
           hexdigest_of_bytes UnreachableRedis _ 0 Unreachable ∅
           (lit "say 'hi'") (lit "en") 7); reflexivity.
Defined.



Example task_translates_and_replaces :
  fst (fst (Pipeline.traducir_capitulo_task (engine_says "di 'hola'") deepl_down None
              hexdigest_of_bytes 0 Cache.MockRedis_init ∅ (lit "say 'hi'") (lit "en") 7))
  = [100; 105; 32; 8213; 104; 111; 108; 97; 8213]%N.
Proof. vm_compute. reflexivity. Qed.

(** ** More on the queue *)

Lemma pending_items_mutate f (q : list Queue.QueueItem) item rest :
  (forall x, Queue.has_status "queued" (f x) = false) ->
  Queue.pending_items q = item :: rest ->
  Queue.pending_items (Queue.mutate_first_queued f q) = rest.
Proof.
  intros Hf. unfold Queue.pending_items.
  induction q as [|x q IH]; cbn [List.filter Queue.mutate_first_queued]; [discriminate|].
  destruct (Queue.has_status "queued" x) eqn:Hx.
  - intros [= _ <-]. cbn [List.filter]. rewrite Hf. reflexivity.
  - intros Hp. cbn [List.filter]. rewrite Hx. apply IH. exact Hp.
Qed.

Lemma dispatch_some now self item rest :
  Queue.currently_processing self < Queue.processing_slots self ->
  Queue.pending_items (Queue.queue self) = item :: rest ->
  exists self',
    Queue.dispatch now self = Some (item, self')
    /\ Queue.currently_processing self' = Queue.currently_processing self + 1
    /\ Queue.processing_slots self' = Queue.processing_slots self
    /\ Queue.pending_items (Queue.queue self') = rest.
Proof.
  intros Hfree Hp. unfold Queue.dispatch.
  assert (Hq : truthy (Queue.queue self) = true).
  { destruct (Queue.queue self); [discriminate|reflexivity]. }
  destruct (Z.ltb_spec (Queue.currently_processing self) (Queue.processing_slots self));
    [|lia].
  rewrite Hq, Hp. cbn [andb]. eexists. split; [reflexivity|].
  cbn [Queue.save_queue Queue.currently_processing Queue.processing_slots Queue.queue].
  repeat apply conj; [reflexivity..|].
  apply (pending_items_mutate _ _ item rest); [|exact Hp]. intros x. reflexivity.
Qed.

Lemma dispatch_none now self :
  Queue.processing_slots self <= Queue.currently_processing self
  \/ Queue.pending_items (Queue.queue self) = [] ->
  Queue.dispatch now self = None.
Proof.
  intros Hstop. unfold Queue.dispatch.
  destruct (Z.ltb_spec (Queue.currently_processing self) (Queue.processing_slots self));
    cbn [andb]; [|reflexivity].
  destruct Hstop as [Hfull|Hp]; [lia|]. rewrite Hp.
  destruct (truthy (Queue.queue self)); reflexivity.
Qed.

(** One pass of the scheduler starts as many jobs as there are free slots
    and queued jobs, and clock readings to stamp them with; each started job
    takes one slot. *)
Theorem process_queue_pass_count (nows : list pystr) :
  forall self : Queue.QueuePlugin,
  length (fst (Queue.process_queue_pass nows self))
  = Nat.min (length nows)
      (Nat.min (Z.to_nat (Queue.processing_slots self - Queue.currently_processing self))
         (length (Queue.pending_items (Queue.queue self))))
  /\ Queue.currently_processing (snd (Queue.process_queue_pass nows self))
     = Queue.currently_processing self
       + len (fst (Queue.process_queue_pass nows self)).
Proof.
  induction nows as [|now nows IH]; intros self; cbn [Queue.process_queue_pass].
  - cbn. split; [reflexivity|unfold len; cbn [length]; lia].
  - destruct (Z.lt_ge_cases (Queue.currently_processing self)
                (Queue.processing_slots self)) as [Hfree|Hfull].
    + destruct (Queue.pending_items (Queue.queue self)) as [|item rest] eqn:Hp.
      * rewrite dispatch_none by (right; exact Hp). cbn [fst snd length].
        split; [lia|unfold len; cbn [length]; lia].
      * destruct (dispatch_some now self item rest Hfree Hp)
          as (self' & -> & Hcp & Hslots & Hrest).
        specialize (IH self'). rewrite Hcp, Hslots, Hrest in IH.
        destruct (Queue.process_queue_pass nows self') as [taken self''].
        cbn [fst snd length] in *. destruct IH as [IH1 IH2].
        unfold len in *. cbn [length]. split; lia.
    + rewrite dispatch_none by (left; lia). cbn [fst snd length].
      split; [lia|unfold len; cbn [length]; lia].
Qed.

Example process_queue_pass_two_of_five :
  map Queue.id (fst (Queue.process_queue_pass scheduler_clock five_waiting))
  = [lit "a"; lit "c"]
  /\ Queue.currently_processing (snd (Queue.process_queue_pass scheduler_clock five_waiting))
     = 2.
Proof. split; vm_compute; reflexivity. Qed.

Lemma plugin_run_slots self : plugin_run self -> Queue.processing_slots self = 2.
Proof.
  induction 1 as [file|self _ IH|est item_id now self u fp fs p _ IH
                  |est item_id now self u fp fs _ IH
                  |now self item self' _ IH Hd|self item_id uid _ IH
                  |i p self _ IH|i now self _ IH|self _ IH];
    try exact IH; try reflexivity.
  - unfold Queue.load_queue. destruct (Queue.queue_file self); exact IH.
  - unfold QueueOps.on_large_file_detected.
    destruct (50 * 1024 * 1024 <? fs); exact IH.
  - unfold Queue.dispatch in Hd.
    destruct ((Queue.currently_processing self <? Queue.processing_slots self)
              && truthy (Queue.queue self)); [|discriminate].
    destruct (Queue.pending_items (Queue.queue self)); [discriminate|].
    injection Hd as _ <-. exact IH.
  - unfold Queue.cancel_item.
    destruct (Queue.cancel_loop item_id uid (Queue.queue self)); exact IH.
Qed.

(** The count of running jobs stays between zero and the number of slots,
    whatever the plugin goes through: submissions, turns of the scheduler,
    cancellations, steps of the workers, the hook of a finished translation
    and reloads of the file. *)
Theorem currently_processing_bounded (self : Queue.QueuePlugin) :
  plugin_run self ->
  0 <= Queue.currently_processing self <= Queue.processing_slots self.
Proof.
  intros Hrun. pose proof (plugin_run_slots self Hrun) as Hslots. rewrite Hslots.
  clear Hslots.
  induction Hrun as [file|self _ IH|est item_id now self u fp fs p _ IH
                     |est item_id now self u fp fs _ IH
                     |now self item self' Hrun IH Hd|self item_id uid _ IH
                     |i p self _ IH|i now self _ IH|self _ IH];
    try exact IH.
  - cbn. lia.
  - unfold Queue.load_queue. destruct (Queue.queue_file self); exact IH.
  - unfold QueueOps.on_large_file_detected.
    destruct (50 * 1024 * 1024 <? fs); exact IH.
  - pose proof (plugin_run_slots self Hrun) as Hslots.
    unfold Queue.dispatch in Hd.
    destruct (Z.ltb_spec (Queue.currently_processing self) (Queue.processing_slots self));
      cbn [andb] in Hd; [|discriminate].
    destruct (truthy (Queue.queue self)); [|discriminate].
    destruct (Queue.pending_items (Queue.queue self)); [discriminate|].
    injection Hd as _ <-. cbn. lia.
  - unfold Queue.cancel_item.
    destruct (Queue.cancel_loop item_id uid (Queue.queue self)); exact IH.
  - cbn. lia.
  - cbn. lia.
Qed.

Lemma currently_processing_bounded_witness :
  0 <= Queue.currently_processing (QueueOps.on_translation_complete three_submissions)
    <= Queue.processing_slots (QueueOps.on_translation_complete three_submissions).
Proof.
  apply (currently_processing_bounded (QueueOps.on_translation_complete three_submissions)).
  apply run_translation_complete. unfold three_submissions.
  repeat apply run_add. apply run_init.
Defined.

(** *** Where a new job goes *)

Lemma insert_sorted_perm x l : Queue.insert_sorted x l ≡ₚ x :: l.
Proof.
  induction l as [|y l IH]; cbn [Queue.insert_sorted]; [reflexivity|].
  destruct (Queue.key_ltb (Queue.sort_key y) (Queue.sort_key x)); [|reflexivity].
  rewrite IH. apply Permutation_swap.
Qed.

Lemma sort_queue_perm l : Queue.sort_queue l ≡ₚ l.
Proof.
  induction l as [|x l IH]; cbn [Queue.sort_queue]; [reflexivity|].
  rewrite insert_sorted_perm, IH. reflexivity.
Qed.

Lemma sorted_partition x q :
  StronglySorted key_le q ->
  List.filter (fun y => negb (Queue.key_ltb (Queue.sort_key x) (Queue.sort_key y))) q
    ++ List.filter (fun y => Queue.key_ltb (Queue.sort_key x) (Queue.sort_key y)) q
  = q.
Proof.
  induction 1 as [|y q Hs IH Hall]; [reflexivity|]. cbn [List.filter].
  destruct (Queue.key_ltb (Queue.sort_key x) (Queue.sort_key y)) eqn:Hxy; cbn [negb].
  - assert (Hlater : Forall (fun z =>
      Queue.key_ltb (Queue.sort_key x) (Queue.sort_key z) = true) q).
    { eapply List.Forall_impl; [|exact Hall]. intros z Hyz. unfold key_le in Hyz.
      destruct (key_ltb_trichotomy (Queue.sort_key x) (Queue.sort_key z))
        as [H|[H|H]]; [exact H| |].
      - rewrite <- H in Hyz. congruence.
      - rewrite (key_ltb_trans _ _ _ H Hxy) in Hyz. discriminate. }
    rewrite filter_none, filter_all; [reflexivity|exact Hlater|].
    eapply List.Forall_impl; [|exact Hlater]. cbn. intros z ->. reflexivity.
  - cbn [app]. rewrite IH. reflexivity.
Qed.

Lemma add_to_queue_placement estimate item_id now self user_id file_path file_size
    priority :
  StronglySorted key_le (Queue.queue self) ->
  exists ahead item behind,
    Queue.queue (snd (Queue.add_to_queue estimate item_id now self user_id file_path
                        file_size priority))
    = ahead ++ item :: behind
    /\ ahead ++ behind = Queue.queue self
    /\ Queue.id item = item_id /\ Queue.user_id item = user_id
    /\ Queue.priority item = priority /\ Queue.status item = lit "queued"
    /\ Forall (fun other => priority <= Queue.priority other) ahead
    /\ Forall (fun other => Queue.priority other <= priority) behind.
Proof.
  intros Hs. cbn [Queue.add_to_queue snd Queue.queue Queue.set_queue Queue.save_queue].
  rewrite sort_queue_append by exact Hs.
  match goal with
  | |- context [List.filter ?f (Queue.queue self) ++ ?x :: List.filter ?g (Queue.queue self)] =>
      exists (List.filter f (Queue.queue self)), x, (List.filter g (Queue.queue self));
      pose proof (sorted_partition x (Queue.queue self) Hs) as Hpart
  end.
  repeat apply conj; try reflexivity.
  - exact Hpart.
  - apply List.Forall_forall. intros other Hin. apply filter_In in Hin as [_ Hin].
    apply negb_true_iff in Hin. unfold Queue.key_ltb, Queue.sort_key in Hin.
    cbn [fst snd Queue.priority] in Hin. apply orb_false_iff in Hin as [Hin _].
    apply Z.ltb_ge in Hin. lia.
  - apply List.Forall_forall. intros other Hin. apply filter_In in Hin as [_ Hin].
    apply key_ltb_spec in Hin. unfold Queue.sort_key in Hin.
    cbn [fst snd Queue.priority] in Hin. lia.
Qed.

(** [add_to_queue] neither loses nor doubles a job: the queue afterwards
    holds the jobs it held and the new one, queued, in the order of the key
    whatever the order was before; the file holds the same jobs in the order
    before the sort, the new one last. *)
Theorem add_to_queue_sorted_permutation (estimate : Z -> Z -> Z -> Z)
    (item_id now : pystr) (self : Queue.QueuePlugin) (user_id : Z) (file_path : pystr)
    (file_size priority : Z) :
  let after :=
    snd (Queue.add_to_queue estimate item_id now self user_id file_path file_size
           priority) in
  exists item,
    Queue.queue after ≡ₚ Queue.queue self ++ [item]
    /\ StronglySorted key_le (Queue.queue after)
    /\ Queue.queue_file after = Queue.Saved (Queue.queue self ++ [item])
    /\ Queue.id item = item_id /\ Queue.user_id item = user_id
    /\ Queue.priority item = priority /\ Queue.created_at item = now
    /\ Queue.status item = lit "queued"
    /\ fst (Queue.add_to_queue estimate item_id now self user_id file_path file_size
              priority) = item_id.
Proof.
  cbn [Queue.add_to_queue snd fst Queue.queue Queue.queue_file Queue.set_queue
       Queue.save_queue].
  eexists. repeat apply conj; try reflexivity.
  - apply sort_queue_perm.
  - apply sort_queue_sorted.
Qed.

(** In a queue that is in the order of the key a new job goes behind every
    job of higher priority and ahead of every job of lower priority, and
    the jobs that were there keep their order. *)
Theorem add_to_queue_by_priority (estimate : Z -> Z -> Z -> Z)
    (item_id now : pystr) (self : Queue.QueuePlugin) (user_id : Z) (file_path : pystr)
    (file_size priority : Z) :
  StronglySorted key_le (Queue.queue self) ->
  exists ahead item behind,
    Queue.queue (snd (Queue.add_to_queue estimate item_id now self user_id file_path
                        file_size priority))
    = ahead ++ item :: behind
    /\ ahead ++ behind = Queue.queue self
    /\ Queue.id item = item_id /\ Queue.user_id item = user_id
    /\ Queue.priority item = priority /\ Queue.status item = lit "queued"
    /\ Forall (fun other => priority <= Queue.priority other) ahead
    /\ Forall (fun other => Queue.priority other <= priority) behind.
Proof. apply add_to_queue_placement. Qed.

Lemma five_waiting_sorted : StronglySorted key_le (Queue.queue five_waiting).
Proof.
  change (Queue.queue five_waiting) with (Queue.sort_queue (Queue.queue five_waiting)).
  apply sort_queue_sorted.
Qed.

Lemma add_to_queue_by_priority_witness :
  exists ahead item behind,
    Queue.queue (snd (Queue.add_to_queue no_estimate (lit "g") (lit "2024-05-01T10:00:06")
                        five_waiting 4 (lit "g.epub") 2048 2))
    = ahead ++ item :: behind
    /\ ahead ++ behind = Queue.queue five_waiting
    /\ Queue.id item = lit "g" /\ Queue.user_id item = 4
    /\ Queue.priority item = 2 /\ Queue.status item = lit "queued"
    /\ Forall (fun other => 2 <= Queue.priority other) ahead
    /\ Forall (fun other => Queue.priority other <= 2) behind.
Proof.
  apply (add_to_queue_by_priority no_estimate (lit "g") (lit "2024-05-01T10:00:06")
           five_waiting 4 (lit "g.epub") 2048 2).
  apply five_waiting_sorted.
Defined.

Lemma three_submissions_in_process : in_process three_submissions.
Proof. unfold three_submissions. repeat apply in_process_add. apply in_process_init. Qed.

Lemma in_process_dispatch_takes_best_witness :
  match Queue.dispatch (lit "2024-05-01T10:00:05") three_submissions with
  | Some (item, _) =>
      Queue.status item = lit "queued"
      /\ forall other, In other (Queue.queue three_submissions) ->
           Queue.status other = lit "queued" -> key_le item other
  | None => True
  end.
Proof.
  destruct (Queue.dispatch (lit "2024-05-01T10:00:05") three_submissions)
    as [[item self']|] eqn:Hd; [|exact I].
  exact (in_process_dispatch_takes_best _ _ _ _ three_submissions_in_process Hd).
Defined.

Lemma add_to_queue_keeps_earlier_first_witness :
  exists before between later after,
    Queue.queue (snd (Queue.add_to_queue no_estimate (lit "g") (lit "2024-05-01T10:00:06")
                        five_waiting 4 (lit "g.epub") 2048 2))
    = before ++ job "c" 2 2 "queued" "2024-05-01T10:00:02" :: between ++ later :: after
    /\ Queue.id later = lit "g" /\ Queue.priority later = 2
    /\ Queue.created_at later = lit "2024-05-01T10:00:06"
    /\ Queue.status later = lit "queued".
Proof.
  apply (add_to_queue_keeps_earlier_first no_estimate (lit "g")
           (lit "2024-05-01T10:00:06") five_waiting 4 (lit "g.epub") 2048 2
           (job "c" 2 2 "queued" "2024-05-01T10:00:02")).
  - apply five_waiting_sorted.
  - right. right. left. reflexivity.
  - reflexivity.
Defined.

(** Nobody cancels the job of somebody else: when no job with the given id
    belongs to the caller, which is also the case of an id that is not in
    the queue, [cancel_item] answers [False] and nothing changes. *)
Theorem cancel_item_not_owner (self : Queue.QueuePlugin) (item_id : pystr) (uid : Z) :
  (forall item, In item (Queue.queue self) -> Queue.id item = item_id ->
                Queue.user_id item <> uid) ->
  Queue.cancel_item self item_id uid = (false, self).
Proof.
  intros Hother. unfold Queue.cancel_item.
  rewrite cancel_loop_nothing_queued; [reflexivity|].
  intros item Hin Hid Hu. exfalso. exact (Hother item Hin Hid Hu).
Qed.

Lemma cancel_item_not_owner_witness :
  Queue.cancel_item five_waiting (lit "c") 3 = (false, five_waiting).
Proof.
  apply (cancel_item_not_owner five_waiting (lit "c") 3).
  intros item Hin Hid. cbn in Hin.
  repeat (destruct Hin as [<-|Hin]; [try discriminate Hid; cbn; lia|]).
  contradiction.
Defined.

(** *** What the status shows *)

Lemma count_status_middle s (B A : list Queue.QueueItem) x :
  QueueOps.count_status s (B ++ x :: A)
  = QueueOps.count_status s B + (if Queue.has_status s x then 1 else 0)
    + QueueOps.count_status s A.
Proof.
  unfold QueueOps.count_status, len. rewrite List.filter_app, List.length_app. cbn [List.filter].
  destruct (Queue.has_status s x); cbn [length]; lia.
Qed.

Lemma user_items_middle (f : Queue.QueueItem -> bool) (b a : list Queue.QueueItem) x :
  f x = true -> List.filter f (b ++ x :: a) = List.filter f b ++ x :: List.filter f a.
Proof. intros Hx. rewrite List.filter_app. cbn [List.filter]. rewrite Hx. reflexivity. Qed.

(** A cancelled job leaves the figures of the status: after [cancel_item]
    has answered [True], the caller, and whoever asks without a user id,
    sees one queued job less and the same numbers of processing, completed
    and failed jobs, so that the four totals no longer add up to the jobs
    listed. *)
Theorem cancel_item_status (self self' : Queue.QueuePlugin) (item_id : pystr) (uid : Z)
    (viewer : option Z) :
  Queue.cancel_item self item_id uid = (true, self') ->
  viewer = None \/ viewer = Some uid ->
  let before := QueueOps.get_queue_status self viewer in
  let after := QueueOps.get_queue_status self' viewer in
  QueueOps.total_queued after = QueueOps.total_queued before - 1
  /\ QueueOps.total_processing after = QueueOps.total_processing before
  /\ QueueOps.total_completed after = QueueOps.total_completed before
  /\ QueueOps.total_failed after = QueueOps.total_failed before
  /\ QueueOps.status_currently_processing after
     = QueueOps.status_currently_processing before.
Proof.
  intros Hc Hv. unfold Queue.cancel_item in Hc.
  destruct (Queue.cancel_loop item_id uid (Queue.queue self)) as [q'|] eqn:Hloop;
    [|discriminate].
  injection Hc as <-.
  destruct (cancel_loop_changes _ _ _ _ Hloop) as (b & it & a & Hq & _ & Hu & Hst & ->).
  assert (Hitems : exists B A,
    (if Pipeline.id_truthy viewer
     then List.filter (fun item => Queue.user_id item =? from_option id 0 viewer)
            (Queue.queue self)
     else Queue.queue self) = B ++ it :: A
    /\ (if Pipeline.id_truthy viewer
        then List.filter (fun item => Queue.user_id item =? from_option id 0 viewer)
               (b ++ Queue.set_status (lit "cancelled") it :: a)
        else b ++ Queue.set_status (lit "cancelled") it :: a)
       = B ++ Queue.set_status (lit "cancelled") it :: A).
  { rewrite Hq. destruct (Pipeline.id_truthy viewer) eqn:Hid.
    - destruct Hv as [->| ->]; [discriminate|]. cbn [from_option id].
      eexists _, _. split; apply user_items_middle; cbn; rewrite Hu; apply Z.eqb_refl.
    - exists b, a. split; reflexivity. }
  destruct Hitems as (B & A & HB & HA).
  unfold QueueOps.get_queue_status.
  cbn [QueueOps.total_queued QueueOps.total_processing QueueOps.total_completed
       QueueOps.total_failed QueueOps.status_currently_processing
       Queue.queue Queue.save_queue Queue.set_queue Queue.currently_processing].
  rewrite HB, HA, !count_status_middle. unfold Queue.has_status.
  cbn [Queue.status Queue.set_status]. rewrite Hst.
  rewrite (bool_decide_eq_true_2 (lit "queued" = lit "queued")) by reflexivity.
  rewrite !(bool_decide_eq_false_2 (lit "cancelled" = _)) by (vm_compute; discriminate).
  rewrite !(bool_decide_eq_false_2 (lit "queued" = _)) by (vm_compute; discriminate).
  repeat apply conj; try reflexivity; lia.
Qed.

Lemma cancel_item_status_witness :
  let after := QueueOps.get_queue_status (snd (Queue.cancel_item five_waiting (lit "c") 2))
                 (Some 2) in
  let before := QueueOps.get_queue_status five_waiting (Some 2) in
  QueueOps.total_queued after = QueueOps.total_queued before - 1
  /\ QueueOps.total_processing after = QueueOps.total_processing before
  /\ QueueOps.total_completed after = QueueOps.total_completed before
  /\ QueueOps.total_failed after = QueueOps.total_failed before
  /\ QueueOps.status_currently_processing after
     = QueueOps.status_currently_processing before.
Proof.
  apply (cancel_item_status five_waiting (snd (Queue.cancel_item five_waiting (lit "c") 2))
           (lit "c") 2 (Some 2)).
  - reflexivity.
  - right. reflexivity.
Defined.

(** The totals of one user after the cancellation: one job still queued,
    none counted for the cancelled one. *)
Example status_after_cancel :
  let after := QueueOps.get_queue_status (snd (Queue.cancel_item five_waiting (lit "c") 2))
                 (Some 2) in
  (QueueOps.total_queued after, QueueOps.total_processing after,
   QueueOps.total_completed after, QueueOps.total_failed after,
   len (QueueOps.items after))
  = (1, 0, 0, 0, 2).
Proof. vm_compute. reflexivity. Qed.

(** A file of more than 50 MiB, and no other, is queued by the hook, with
    priority 3: in a queue that is in the order of the key it goes ahead of
    every job of priority 1 or 2 and behind the urgent ones. *)
Theorem on_large_file_detected_spec (estimate : Z -> Z -> Z -> Z) (item_id now : pystr)
    (self : Queue.QueuePlugin) (user_id : Z) (file_path : pystr) (file_size : Z) :
  (file_size <= 52428800 ->
   QueueOps.on_large_file_detected estimate item_id now self user_id file_path file_size
   = (false, self))
  /\ (52428800 < file_size ->
      StronglySorted key_le (Queue.queue self) ->
      fst (QueueOps.on_large_file_detected estimate item_id now self user_id file_path
             file_size) = true
      /\ exists ahead item behind,
           Queue.queue (snd (QueueOps.on_large_file_detected estimate item_id now self
                               user_id file_path file_size))
           = ahead ++ item :: behind
           /\ ahead ++ behind = Queue.queue self
           /\ Queue.id item = item_id /\ Queue.user_id item = user_id
           /\ Queue.priority item = 3 /\ Queue.status item = lit "queued"
           /\ Forall (fun other => 3 <= Queue.priority other) ahead
           /\ Forall (fun other => Queue.priority other <= 3) behind).
Proof.
  unfold QueueOps.on_large_file_detected. change (50 * 1024 * 1024) with 52428800.
  split.
  - intros Hle. destruct (Z.ltb_spec 52428800 file_size); [lia|reflexivity].
  - intros Hgt Hs. destruct (Z.ltb_spec 52428800 file_size); [|lia].
    split; [reflexivity|]. cbn [snd]. apply add_to_queue_placement. exact Hs.
Qed.

Lemma on_large_file_detected_spec_witness :
  QueueOps.on_large_file_detected no_estimate (lit "g") (lit "2024-05-01T10:00:06")
    five_waiting 4 (lit "g.pdf") 52428800
  = (false, five_waiting)
  /\ fst (QueueOps.on_large_file_detected no_estimate (lit "g")
            (lit "2024-05-01T10:00:06") five_waiting 4 (lit "g.pdf") 52428801) = true.
Proof.
  split.
  - apply (proj1 (on_large_file_detected_spec no_estimate (lit "g")
                    (lit "2024-05-01T10:00:06") five_waiting 4 (lit "g.pdf") 52428800)).
    lia.
  - apply (proj2 (on_large_file_detected_spec no_estimate (lit "g")
                    (lit "2024-05-01T10:00:06") five_waiting 4 (lit "g.pdf") 52428801)).
    + lia.
    + apply five_waiting_sorted.
Defined.

Example large_file_goes_second :
  map Queue.id
    (Queue.queue (snd (QueueOps.on_large_file_detected no_estimate (lit "g")
                         (lit "2024-05-01T10:00:06") five_waiting 4 (lit "g.pdf")
                         52428801)))
  = [lit "a"; lit "g"; lit "b"; lit "c"; lit "d"; lit "e"; lit "f"].
Proof. vm_compute. reflexivity. Qed.
